(** * auto-book: the acquisition board, the catalogue client and the order export

    A shallow embedding of the TypeScript sources

      - [types.ts]                  (module [Types])
      - [services/bookService.ts]   (module [BookService])
      - [services/geminiService.ts] (module [GeminiService])
      - [components/BookCard.tsx]   (module [BookCard], the action buttons)
      - [App.tsx]                   (module [App], the board state and handlers)

    followed by the properties of the specification that were checked
    against them.

    Conventions.  A JavaScript string is modelled by the byte string of its
    UTF-8 encoding, so the Korean literals of the source are kept as they
    are.  A [number] that holds a price, an identifier or a page is a [Z].
    An optional field ([categoryName?], [status?]) is an [option]; [None] is
    [undefined].  Asynchronous functions are functions from a [World] to a
    result and a new [World]; a rejected promise is a result [inl e].  Two
    calls joined by [Promise.all] are run one completion at a time, in the
    order in which the event loop of the host serves them. *)

From Stdlib Require Import ZArith String Ascii List Bool Lia.
From stdpp Require Import base strings list gmap pretty.

Open Scope string_scope.
Open Scope Z_scope.

(* ===================================================================== *)
(** * types.ts *)
(* ===================================================================== *)

Module Types.

Inductive BookStatus := discovery | review | confirmed.

Record Book := mkBook {
  id : string;
  title : string;
  author : string;
  publisher : string;
  pubDate : string;
  cover : string;
  description : string;
  isbn13 : string;
  priceStandard : Z;
  priceSales : Z;
  link : string;
  categoryName : option string;
  status : option BookStatus
}.

Record ApiKeys := mkApiKeys {
  aladinTtb : string;
  nlkApiKey : option string
}.

Inductive FetchSource := combined | bestseller | itemNewSpecial | editorRecommend.

Inductive SearchTarget := Keyword | Title | Author | Publisher.

Record GeminiAnalysis := mkGeminiAnalysis {
  summary : string;
  budgetAnalysis : string;
  categoryBreakdown : string;
  recommendationScore : Z
}.

(** [{ ...book, status: st }] *)
Definition with_status (book : Book) (st : BookStatus) : Book :=
  {| id := id book; title := title book; author := author book;
     publisher := publisher book; pubDate := pubDate book;
     cover := cover book; description := description book;
     isbn13 := isbn13 book; priceStandard := priceStandard book;
     priceSales := priceSales book; link := link book;
     categoryName := categoryName book; status := Some st |}.

(** The template form of a [SearchTarget] (the union type's own literals). *)
Definition SearchTarget_literal (t : SearchTarget) : string :=
  match t with
  | Keyword => "Keyword" | Title => "Title"
  | Author => "Author" | Publisher => "Publisher"
  end.

End Types.

(* ===================================================================== *)
(** * The JavaScript runtime the sources rely on *)
(* ===================================================================== *)

Module Js.

(** An [Error] object.  Every value thrown by [fetch], by
    [response.json()] or by [new Error(..)] is one, hence truthy. *)
Record Error := mkError { message : string }.

(** [!!s] for a string: only the empty string is falsy. *)
Definition truthy (s : string) : bool :=
  match s with EmptyString => false | String _ _ => true end.

(** [!!x] for an optional string field. *)
Definition truthy_opt (o : option string) : bool :=
  match o with Some s => truthy s | None => false end.

(** [!!n] for an optional number field. *)
Definition truthy_num (o : option Z) : bool :=
  match o with Some n => negb (n =? 0) | None => false end.

(** [a || b] on optional strings. *)
Definition or_else (a b : option string) : option string :=
  if truthy_opt a then a else b.

(** [`${x}`] for an optional string field. *)
Definition template (o : option string) : string :=
  match o with Some s => s | None => "undefined" end.

(** [s.includes(sub)].  On well-formed text the search over the bytes of
    the UTF-8 encoding finds what the search over code units finds. *)
Fixpoint includes (s sub : string) : bool :=
  String.prefix sub s ||
  match s with
  | EmptyString => false
  | String _ s' => includes s' sub
  end.

(** The double-quote character (code 34). *)
Definition dquote : ascii := "034"%char.

(** [s.replace] with the global pattern matching one double quote and
    the replacement made of two: every double quote is doubled. *)
Fixpoint double_quotes (s : string) : string :=
  match s with
  | EmptyString => EmptyString
  | String c s' =>
      if Ascii.eqb c dquote
      then String dquote (String dquote (double_quotes s'))
      else String c (double_quotes s')
  end.

(** [xs.join(sep)] *)
Definition join (sep : string) (xs : list string) : string :=
  String.concat sep xs.

(** ** [Map]: keys keep the position of their first insertion, the value
    is the one set last. *)
Section JsMap.
Context {V : Type}.

Fixpoint Map_set (k : string) (v : V) (m : list (string * V))
  : list (string * V) :=
  match m with
  | [] => [(k, v)]
  | (k', v') :: m' =>
      if String.eqb k' k then (k', v) :: m'
      else (k', v') :: Map_set k v m'
  end.

(** [new Map(entries)] *)
Definition Map_new (entries : list (string * V)) : list (string * V) :=
  fold_left (fun m kv => Map_set (fst kv) (snd kv) m) entries [].

(** [Array.from(m.values())] *)
Definition Map_values (m : list (string * V)) : list V := map snd m.

Fixpoint Map_get (k : string) (m : list (string * V)) : option V :=
  match m with
  | [] => None
  | (k', v') :: m' => if String.eqb k' k then Some v' else Map_get k m'
  end.
End JsMap.

(** What is fixed by the host and not by the sources:
    [String.prototype.trim], [encodeURIComponent], the parsing done by
    [new Date(str)] ([None] when [getTime()] is [NaN]) and the calendar
    step [d.setFullYear(d.getFullYear() - 1)], both in milliseconds since
    the epoch; and the event loop: of two asynchronous calls that both
    wait, for a response or for a timer, which one is served at the
    [turn]-th completion ([true]: the one started first).  The order
    depends on how long responses take, so the properties are proved for
    every such order. *)
Class Runtime := {
  trim : string -> string;
  encodeURIComponent : string -> string;
  Date_parse : string -> option Z;
  Date_minus_one_year : Z -> Z;
  serves_first : nat -> bool
}.

(** ** The world an asynchronous function runs in *)

Inductive ConsoleEntry :=
| console_warn (msg : string) (e : Error)
| console_error (msg : string) (e : Error).

Record World := mkWorld {
  clock : Z;                    (* Date.now() *)
  requests : list string;       (* outgoing calls, oldest first: the url
                                   given to fetch, the model given to
                                   generateContent *)
  console : list ConsoleEntry   (* oldest first *)
}.

(** A promise: run in a world, settle with an error or a value. *)
Definition Async (A : Type) : Type := World -> (Error + A) * World.

Definition resolve {A} (a : A) : Async A := fun w => (inr a, w).
Definition throw {A} (e : Error) : Async A := fun w => (inl e, w).

(** [await] *)
Definition bind {A B} (m : Async A) (k : A -> Async B) : Async B :=
  fun w =>
    match m w with
    | (inr a, w') => k a w'
    | (inl e, w') => (inl e, w')
    end.

(** [try { m } catch (error) { h error }] *)
Definition try_catch {A} (m : Async A) (h : Error -> Async A) : Async A :=
  fun w =>
    match m w with
    | (inr a, w') => (inr a, w')
    | (inl e, w') => h e w'
    end.

Definition log (entry : ConsoleEntry) : Async unit :=
  fun w => (inr tt, {| clock := clock w; requests := requests w;
                       console := console w ++ [entry] |}).

(** [await new Promise(resolve => setTimeout(resolve, ms))] *)
Definition sleep (ms : Z) : Async unit :=
  fun w => (inr tt, {| clock := clock w + ms; requests := requests w;
                       console := console w |}).

(** [Date.now()] *)
Definition Date_now : Async Z := fun w => (inr (clock w), w).

(** ** [fetch] *)

(** What the sources read of a [Response]: [ok], [status] and the
    outcome of [json()]. *)
Record Response (J : Type) := mkResponse {
  ok : bool;
  status : Z;
  json : Error + J
}.
Arguments mkResponse {J}.
Arguments ok {J}.
Arguments status {J}.
Arguments json {J}.

(** The network: what the [n]-th call of [fetch] (counting from 0), made
    for [url], settles with. *)
Definition Network (J : Type) : Type := nat -> string -> Error + Response J.

Definition fetch {J} (net : Network J) (url : string) : Async (Response J) :=
  fun w =>
    (net (length (requests w)) url,
     {| clock := clock w; requests := requests w ++ [url];
        console := console w |}).

End Js.

(** [const x = await m; k] and [await m; k] *)
Notation "'let_await' x ':=' m 'in' k" := (Js.bind m (fun x => k))
  (at level 10, x name, m at level 100, k at level 200, only parsing).
Notation "'do_await' m 'in' k" := (Js.bind m (fun _ => k))
  (at level 10, m at level 100, k at level 200, only parsing).

(* ===================================================================== *)
(** * services/bookService.ts *)
(* ===================================================================== *)

(** The JSON bodies, read the way the service reads them: a field that
    is absent (or not of the shape the code tests for) is [None]. *)

Module Aladin.
Record Item := mkItem {
  itemId : Z;
  title : string;
  author : string;
  publisher : string;
  pubDate : string;
  cover : string;
  description : option string;
  isbn13 : string;
  priceStandard : Z;
  priceSales : Z;
  link : string;
  categoryName : option string
}.
End Aladin.

Module Nlk.
Record Doc := mkDoc {
  no : Z;
  bookname : string;
  authors : string;
  publisher : string;
  publication_year : string;
  bookImageURL : string;
  description : option string;
  isbn13 : string;
  bookDtlUrl : string;
  class_nm : option string
}.

(** An element of [docs]: [{ doc: ... }] *)
Record Wrapper := mkWrapper { doc : Doc }.

(** [data.response] *)
Record Body := mkBody {
  error : option string;
  docs : option (list Wrapper)     (* [Some] iff [Array.isArray] *)
}.
End Nlk.

Module BookService.
Import Js Types.

(** The parsed body of either provider. *)
Record Json := mkJson {
  errorCode : option Z;
  errorMessage : option string;
  item : option (list Aladin.Item);      (* [Some] iff [Array.isArray] *)
  response : option Nlk.Body
}.

Section Gateway.
Context `{rt : Runtime} {J : Type}.
Variable net : Network J.

(** List of proxies to try in order. *)
Definition PROXIES : list (string -> string) :=
  [ (fun url => "https://api.allorigins.win/raw?url=" ++ encodeURIComponent url);
    (fun url => "https://corsproxy.io/?" ++ encodeURIComponent url) ].

(** The body of the [try] block: one request through one proxy. *)
Definition attempt_once (proxyUrl : string) : Async J :=
  let_await response := fetch net proxyUrl in
  if negb (ok response)
  then throw (mkError ("HTTP Error: " ++ pretty (Js.status response)))
  else fun w => (json response, w).

(** How a loop is left: by [return data], or by running to its end
    with the current value of [lastError]. *)
Inductive LoopExit :=
| Return (data : J)
| Fallthrough (lastError : option Error).

(** [for (let attempt = ..; attempt < 2; attempt++)], with
    [remaining = 2 - attempt]. *)
Fixpoint attempts (proxyUrl : string) (remaining attempt : nat)
    (lastError : option Error) (w : World) : LoopExit * World :=
  match remaining with
  | O => (Fallthrough lastError, w)
  | S remaining' =>
      match attempt_once proxyUrl w with
      | (inr data, w1) => (Return data, w1)
      | (inl error, w1) =>
          let w2 := snd (log (console_warn
                      ("Attempt " ++ pretty (S attempt) ++
                       " failed for proxy " ++ proxyUrl ++ ":") error) w1) in
          let w3 := snd (sleep 1000 w2) in
          attempts proxyUrl remaining' (S attempt) (Some error) w3
      end
  end.

(** [for (const proxyGenerator of proxies)] *)
Fixpoint proxy_loop (proxies : list (string -> string)) (targetUrl : string)
    (lastError : option Error) (w : World) : LoopExit * World :=
  match proxies with
  | [] => (Fallthrough lastError, w)
  | proxyGenerator :: rest =>
      let proxyUrl := proxyGenerator targetUrl in
      match attempts proxyUrl 2 0 lastError w with
      | (Return data, w') => (Return data, w')
      | (Fallthrough lastError', w') =>
          proxy_loop rest targetUrl lastError' w'
      end
  end.

Definition all_proxies_failed : Error :=
  mkError "Network Error: Failed to fetch data from all proxies.".

(** [fetchWithRetry], for any list of proxies. *)
Definition fetchWithRetry_over (proxies : list (string -> string))
    (targetUrl : string) : Async J :=
  fun w =>
    match proxy_loop proxies targetUrl None w with
    | (Return data, w') => (inr data, w')
    | (Fallthrough lastError, w') =>
        (inl (default all_proxies_failed lastError), w')
    end.

Definition fetchWithRetry (targetUrl : string) : Async J :=
  fetchWithRetry_over PROXIES targetUrl.

(** ** Two gateways joined by [Promise.all]

    [Promise.all([fetchWithRetry(a), fetchWithRetry(b)])] starts both
    calls before either has settled, so their requests, warnings and
    sleeps interleave.  For this the same function is written one
    completion at a time: a call either waits for the response of the
    request it has made, or sleeps after a failed attempt, or is over.
    Served by itself to its end, such a call settles as
    [fetchWithRetry_over] does, in the same world (lemma
    [fetchWithRetry_served_alone]). *)

(** The iterations of the two loops that are still to come: the url of
    the proxy and the value of [attempt]. *)
Definition iterations (proxies : list (string -> string)) (targetUrl : string)
    : list (string * nat) :=
  flat_map (fun proxyGenerator : string -> string =>
              let proxyUrl := proxyGenerator targetUrl in
              [(proxyUrl, 0%nat); (proxyUrl, 1%nat)]) proxies.

Inductive Pending :=
(** [await fetch(proxyUrl)] and the rest of the [try] block: the request
    is made, and [settles] is what the block ends with *)
| fetching (proxyUrl : string) (attempt : nat) (settles : Error + J)
    (rest : list (string * nat))
(** [await new Promise(resolve => setTimeout(resolve, 1000))], the timer
    being due at [due], with [lastError = error] *)
| sleeping (due : Z) (error : Error) (rest : list (string * nat))
(** [return data] *)
| returned (data : J)
(** [throw lastError || new Error(..)] *)
| thrown (error : Error).

(** The next iteration begins: its request is made at once; after the
    last iteration the function throws. *)
Definition begin_iteration (lastError : option Error)
    (rest : list (string * nat)) (w : World) : Pending * World :=
  match rest with
  | [] => (thrown (default all_proxies_failed lastError), w)
  | (proxyUrl, attempt) :: rest' =>
      let (settles, w1) := attempt_once proxyUrl w in
      (fetching proxyUrl attempt settles rest', w1)
  end.

(** The call of [fetchWithRetry_over], up to its first [await]. *)
Definition fetchWithRetry_start (proxies : list (string -> string))
    (targetUrl : string) (w : World) : Pending * World :=
  begin_iteration None (iterations proxies targetUrl) w.

(** The event loop serves a call: the [try] block ends, with [return] or
    in the [catch] block, which warns and starts the timer; or the timer
    fires, not before it is due, and the next iteration begins. *)
Definition serve (p : Pending) (w : World) : Pending * World :=
  match p with
  | fetching proxyUrl attempt (inr data) rest => (returned data, w)
  | fetching proxyUrl attempt (inl error) rest =>
      let w1 := snd (log (console_warn
                  ("Attempt " ++ pretty (S attempt) ++
                   " failed for proxy " ++ proxyUrl ++ ":") error) w) in
      (sleeping (clock w1 + 1000) error rest, w1)
  | sleeping due error rest =>
      begin_iteration (Some error) rest
        {| clock := Z.max (clock w) due; requests := requests w;
           console := console w |}
  | returned _ | thrown _ => (p, w)
  end.

(** How many times a call can still be served. *)
Definition steps_left (p : Pending) : nat :=
  match p with
  | fetching _ _ _ rest => (2 * length rest + 2)%nat
  | sleeping _ _ rest => (2 * length rest + 1)%nat
  | returned _ | thrown _ => 0%nat
  end.

(** The join: it rejects as soon as one of the two calls has thrown,
    with the error of that call, and resolves when both have returned;
    until then the call that still runs is served, and when both run,
    the one the event loop chooses.  What the other call goes on to do
    after a rejection is not part of what the join settles with.  [fuel]
    bounds the number of turns; [Promise_all] gives as many as the two
    calls can take, so that the loop never runs out (lemma
    [Promise_all_loop_fuel]). *)
Fixpoint Promise_all_loop (fuel turn : nat) (p1 p2 : Pending) (w : World)
    : (Error + J * J) * World :=
  match p1, p2 with
  | thrown error, _ => (inl error, w)
  | _, thrown error => (inl error, w)
  | returned data1, returned data2 => (inr (data1, data2), w)
  | _, _ =>
      match fuel with
      | O => (inl all_proxies_failed, w)
      | S fuel' =>
          let first :=
            match p1, p2 with
            | returned _, _ => false
            | _, returned _ => true
            | _, _ => serves_first turn
            end in
          if first
          then let (p1', w') := serve p1 w in
               Promise_all_loop fuel' (S turn) p1' p2 w'
          else let (p2', w') := serve p2 w in
               Promise_all_loop fuel' (S turn) p1 p2' w'
      end
  end.

(** [Promise.all([fetchWithRetry(targetUrl1), fetchWithRetry(targetUrl2)])],
    for any list of proxies: both calls are started, the first one
    first, and then joined. *)
Definition Promise_all_over (proxies : list (string -> string))
    (targetUrl1 targetUrl2 : string) : Async (J * J) :=
  fun w =>
    let (p1, w1) := fetchWithRetry_start proxies targetUrl1 w in
    let (p2, w2) := fetchWithRetry_start proxies targetUrl2 w1 in
    Promise_all_loop (steps_left p1 + steps_left p2) 0 p1 p2 w2.

Definition Promise_all (targetUrl1 targetUrl2 : string) : Async (J * J) :=
  Promise_all_over PROXIES targetUrl1 targetUrl2.

End Gateway.

Arguments Return {J}.
Arguments Fallthrough {J}.
Arguments fetching {J}.
Arguments sleeping {J}.
Arguments returned {J}.
Arguments thrown {J}.

Definition mapAladinItemToBook (item : Aladin.Item) : Book :=
  {| id := pretty (Aladin.itemId item);
     title := Aladin.title item;
     author := Aladin.author item;
     publisher := Aladin.publisher item;
     pubDate := Aladin.pubDate item;
     cover := Aladin.cover item;
     description :=
       if truthy_opt (Aladin.description item)
       then default "" (Aladin.description item) else "";
     isbn13 := Aladin.isbn13 item;
     priceStandard := Aladin.priceStandard item;
     priceSales := Aladin.priceSales item;
     link := Aladin.link item;
     categoryName := Aladin.categoryName item;
     status := Some discovery |}.

(** The mapping of the library branch of [fetchBooks]. *)
Definition mapNlkWrapperToBook (wrapper : Nlk.Wrapper) : Book :=
  let item := Nlk.doc wrapper in
  {| id := "nlk-" ++ (if truthy (Nlk.isbn13 item) then Nlk.isbn13 item
                      else pretty (Nlk.no item));
     title := Nlk.bookname item;
     author := Nlk.authors item;
     publisher := Nlk.publisher item;
     pubDate := Nlk.publication_year item;
     cover := Nlk.bookImageURL item;
     description :=
       default "" (or_else (or_else (Nlk.description item) (Nlk.class_nm item))
                           (Some ""));
     isbn13 := Nlk.isbn13 item;
     priceStandard := 0;
     priceSales := 0;
     link := Nlk.bookDtlUrl item;
     categoryName := Nlk.class_nm item;
     status := Some discovery |}.

Section Catalog.
Context `{rt : Runtime}.

(** [now]: the value of [new Date()] when the test runs. *)
Definition isWithinOneYear (now : Z) (dateStr : string) : bool :=
  if negb (truthy dateStr) then false
  else
    match Date_parse dateStr with
    | None => true      (* Keep if date is invalid to be safe *)
    | Some pubDate =>
        let oneYearAgo := Date_minus_one_year now in
        oneYearAgo <=? pubDate
    end.

(** Filter function to exclude comics. *)
Definition isNotComic (book : Book) : bool :=
  match categoryName book with
  | None => true
  | Some c => if negb (truthy c) then true else negb (includes c "만화")
  end.

(** The url templates, [t] being the value of [Date.now()]. *)
Definition itemSearchUrl (cleanKey query : string) (target : SearchTarget)
    (page t : Z) : string :=
  "https://www.aladin.co.kr/ttb/api/ItemSearch.aspx?ttbkey=" ++ cleanKey ++
  "&Query=" ++ encodeURIComponent query ++
  "&QueryType=" ++ SearchTarget_literal target ++
  "&MaxResults=50&start=" ++ pretty page ++
  "&SearchTarget=Book&output=js&Version=20131101&Cover=Big&_t=" ++ pretty t.

Definition recommandListUrl (cleanKey : string) (page t : Z) : string :=
  "https://data4library.kr/api/recommandList?authKey=" ++ cleanKey ++
  "&format=json&pageNo=" ++ pretty page ++ "&pageSize=50&_t=" ++ pretty t.

Definition commonParams_of (cleanKey : string) (page t : Z) : string :=
  "ttbkey=" ++ cleanKey ++ "&MaxResults=50&start=" ++ pretty page ++
  "&SearchTarget=Book&output=js&Version=20131101&Cover=Big&_t=" ++ pretty t.

Definition itemListUrl (commonParams queryType : string) : string :=
  "https://www.aladin.co.kr/ttb/api/ItemList.aspx?" ++ commonParams ++
  "&QueryType=" ++ queryType.

Variable net : Network Json.

Definition searchBooks (query ttbKey : string) (target : SearchTarget)
    (page : Z) : Async (list Book) :=
  if negb (truthy query) || negb (truthy ttbKey) then resolve []
  else
    let cleanKey := trim ttbKey in
    let_await t := Date_now in
    let aladinUrl := itemSearchUrl cleanKey query target page t in
    try_catch
      (let_await data := fetchWithRetry net aladinUrl in
       if truthy_num (errorCode data)
       then throw (mkError ("Aladin Search Error: " ++
              (if truthy_opt (errorMessage data)
               then template (errorMessage data)
               else pretty (default 0 (errorCode data)))))
       else
         match item data with
         | None => resolve []
         | Some items =>
             fun w =>
               let books := map mapAladinItemToBook items in
               (inr (List.filter isNotComic
                       (List.filter
                          (fun book => isWithinOneYear (clock w) (pubDate book))
                          books)), w)
         end)
      (fun error =>
         do_await log (console_error "Search failed" error) in
         throw error).

(** One call of the catalogue's [ItemList] endpoint, mapped. *)
Definition itemList (url errorPrefix : string) : Async (list Book) :=
  let_await data := fetchWithRetry net url in
  if truthy_num (errorCode data)
  then throw (mkError (errorPrefix ++ template (errorMessage data)))
  else resolve (match item data with
                | Some items => map mapAladinItemToBook items
                | None => []
                end).

(** Merge and deduplicate by ID. *)
Definition mergeUnique (bestsellers newSpecials : list Book) : list Book :=
  let combined := (bestsellers ++ newSpecials)%list in
  Map_values (Map_new (map (fun item => (id item, item)) combined)).

Definition fetchBooks (source : FetchSource) (ttbKey nlkKey : option string)
    (page : Z) : Async (list Book) :=
  try_catch
    (match source with
     | editorRecommend =>
         (* 1. National Library of Korea (Librarian Recommendation) *)
         if negb (truthy_opt nlkKey)
         then throw (mkError "국립중앙도서관 API 키가 필요합니다.")
         else
           let cleanKey := trim (default "" nlkKey) in
           let_await t := Date_now in
           let nlkUrl := recommandListUrl cleanKey page t in
           let_await data := fetchWithRetry net nlkUrl in
           if truthy_opt (response data ≫= Nlk.error)
           then throw (mkError (template (response data ≫= Nlk.error)))
           else
             match response data ≫= Nlk.docs with
             | None => resolve []
             | Some docs => resolve (map mapNlkWrapperToBook docs)
             end
     | _ =>
         (* Aladin Logic *)
         if negb (truthy_opt ttbKey) then resolve []
         else
           let cleanKey := trim (default "" ttbKey) in
           let_await t := Date_now in
           let commonParams := commonParams_of cleanKey page t in
           let bestsellerUrl := itemListUrl commonParams "Bestseller" in
           let newSpecialUrl := itemListUrl commonParams "ItemNewSpecial" in
           let_await books :=
             match source with
             | bestseller =>
                 (* 2. Aladin Bestseller Only *)
                 itemList bestsellerUrl "Aladin Error: "
             | itemNewSpecial =>
                 (* 3. Aladin New Special *)
                 itemList newSpecialUrl "Aladin Error: "
             | editorRecommend => resolve []     (* returned above *)
             | combined =>
                 (* 4. Combined (Bestseller 50 + ItemNewSpecial 50) *)
                 let_await both := Promise_all net bestsellerUrl newSpecialUrl in
                 let bestsellerData := fst both in
                 let newSpecialData := snd both in
                 if truthy_num (errorCode bestsellerData)
                 then throw (mkError ("Aladin Bestseller Error: " ++
                                      template (errorMessage bestsellerData)))
                 else if truthy_num (errorCode newSpecialData)
                 then throw (mkError ("Aladin NewSpecial Error: " ++
                                      template (errorMessage newSpecialData)))
                 else
                   let bestsellers :=
                     match item bestsellerData with
                     | Some items => map mapAladinItemToBook items
                     | None => []
                     end in
                   let newSpecials :=
                     match item newSpecialData with
                     | Some items => map mapAladinItemToBook items
                     | None => []
                     end in
                   resolve (mergeUnique bestsellers newSpecials)
             end in
           (* Apply comic filter to all Aladin results *)
           resolve (List.filter isNotComic books)
     end)
    (fun error =>
       do_await log (console_error "Fetching books failed" error) in
       throw error).

(** The url of the one-item bestseller query of [validateTtbKey]. *)
Definition ttbProbeUrl (cleanKey : string) (t : Z) : string :=
  "https://www.aladin.co.kr/ttb/api/ItemList.aspx?ttbkey=" ++ cleanKey ++
  "&QueryType=Bestseller&MaxResults=1&start=1&SearchTarget=Book&output=js" ++
  "&Version=20131101&_t=" ++ pretty t.

Definition validateTtbKey (ttbKey : string) : Async bool :=
  if negb (truthy ttbKey) then resolve false
  else
    try_catch
      (let cleanKey := trim ttbKey in
       let_await t := Date_now in
       let aladinUrl := ttbProbeUrl cleanKey t in
       let_await data := fetchWithRetry net aladinUrl in
       if truthy_num (errorCode data) then resolve false
       else
         match item data with
         | Some _ => resolve true
         | None => resolve false
         end)
      (fun _ => resolve false).

End Catalog.

(** The body of the library, read the way [validateNlkKey] reads it:
    whether [data.response?.error] is truthy and whether
    [data.response?.docs] is. *)
Record NlkProbe := mkNlkProbe {
  error_truthy : bool;
  docs_truthy : bool
}.

Section Validation.
Context `{rt : Runtime}.
Variable net : Network NlkProbe.

Definition nlkProbeUrl (cleanKey : string) (t : Z) : string :=
  "https://data4library.kr/api/recommandList?authKey=" ++ cleanKey ++
  "&startDt=20230101&endDt=20230131&format=json&pageNo=1&pageSize=1&_t=" ++
  pretty t.

Definition validateNlkKey (authKey : string) : Async bool :=
  if negb (truthy authKey) then resolve false
  else
    try_catch
      (let cleanKey := trim authKey in
       let_await t := Date_now in
       let nlkUrl := nlkProbeUrl cleanKey t in
       let_await data := fetchWithRetry net nlkUrl in
       if error_truthy data then resolve false
       else if docs_truthy data then resolve true
       else resolve false)
      (fun _ => resolve false).

End Validation.

End BookService.

(* ===================================================================== *)
(** * services/geminiService.ts *)
(* ===================================================================== *)

Module GeminiService.
Import Js Types.

Definition newline : string := String "010"%char EmptyString.

Section Analyze.
(** [process.env.API_KEY] *)
Variable API_KEY : option string.
(** The generative endpoint behind [ai.models.generateContent]: what the
    [n]-th outgoing call, made with this prompt, settles with
    ([response.text], possibly absent). *)
Variable endpoint : nat -> string -> Error + option string.
(** [JSON.parse(text) as GeminiAnalysis] *)
Variable JSON_parse : string -> Error + GeminiAnalysis.
(** [s.substring(0, 50)], counted in UTF-16 code units by the host. *)
Variable substring_0_50 : string -> string.

Definition generateContent (model prompt : string) : Async (option string) :=
  fun w =>
    (endpoint (length (requests w)) prompt,
     {| clock := clock w; requests := requests w ++ [model];
        console := console w |}).

Definition bookSummary (b : Book) : string :=
  "- " ++ title b ++ " (저자: " ++ author b ++ ", 가격: " ++
  pretty (priceSales b) ++ "원, 분야: " ++ template (categoryName b) ++
  "): " ++ substring_0_50 (description b) ++ "...".

Definition prompt_of (books : list Book) : string :=
  let bookSummaries := join newline (map bookSummary books) in
  "
    당신은 전문 도서관 사서입니다. 다음은 수서(구입) 예정인 도서 목록입니다.
    이 목록을 분석하여 구매 정당성 보고서를 작성해주세요.
    
    도서 목록:
    " ++ bookSummaries ++ "
    
    다음 항목들을 포함해야 합니다:
    1. 구입 목록 요약 및 선정 이유 (트렌드 반영 등)
    2. 예산 효율성 분석
    3. 주제별 분포 분석
    4. 추천 점수 (100점 만점)
  ".

Definition analyzeAcquisitionList (books : list Book) : Async GeminiAnalysis :=
  let apiKey := API_KEY in
  if negb (truthy_opt apiKey)
  then throw (mkError "Gemini API Key is not configured.")
  else if (length books =? 0)%nat
  then resolve {| summary := "선택된 도서가 없습니다.";
                  budgetAnalysis := "0원";
                  categoryBreakdown := "없음";
                  recommendationScore := 0 |}
  else
    let prompt := prompt_of books in
    try_catch
      (let_await text := generateContent "gemini-2.5-flash" prompt in
       match text with
       | Some text =>
           if negb (truthy text)
           then throw (mkError "No response from Gemini")
           else fun w => (JSON_parse text, w)
       | None => throw (mkError "No response from Gemini")
       end)
      (fun error =>
         do_await log (console_error "Gemini Analysis Failed:" error) in
         throw (mkError "AI 분석에 실패했습니다. 잠시 후 다시 시도해주세요.")).
End Analyze.

End GeminiService.

(* ===================================================================== *)
(** * components/BookCard.tsx: which buttons a card offers *)
(* ===================================================================== *)

Module BookCard.
Import Types.

(** ['add' | 'approve' | 'remove' | 'return'] *)
Inductive Action := add | approve | remove | return'.

(** [book.status || 'discovery'] *)
Definition currentStatus (book : Book) : BookStatus :=
  default discovery (status book).

(** The actions behind the buttons that [renderActions] draws. *)
Definition renderActions (book : Book) : list Action :=
  match currentStatus book with
  | discovery => [add]
  | review => [return'; approve]
  | confirmed => [return']
  end.

(** [s.split('>')]: the segments between the occurrences of the
    separator, at least one. *)
Fixpoint split_gt (s : string) (segment : string) : list string :=
  match s with
  | EmptyString => [segment]
  | String c s' =>
      if Ascii.eqb c ">"%char then segment :: split_gt s' EmptyString
      else split_gt s' (segment ++ String c EmptyString)
  end.

(** [book.categoryName?.split('>').pop() || '기타'], the line above the
    title of a card. *)
Definition categoryLabel (book : Book) : string :=
  match categoryName book with
  | None => "기타"
  | Some c =>
      let leaf := List.last (split_gt c EmptyString) EmptyString in
      if Js.truthy leaf then leaf else "기타"
  end.

End BookCard.

(* ===================================================================== *)
(** * App.tsx: the board *)
(* ===================================================================== *)

Module App.
Import Js Types BookCard.

(** The component's state: the [useState] cells that the handlers below
    touch, and the [useRef] cell [excludedIdsRef]. *)
Record State := mkState {
  discoveryBooks : list Book;
  reviewBooks : list Book;
  confirmedBooks : list Book;
  excludedIdsRef : gset string;
  isLoading : bool;
  isSearching : bool;
  page : Z;
  fetchError : option string;
  analysis : option GeminiAnalysis
}.

Definition initial : State :=
  {| discoveryBooks := []; reviewBooks := []; confirmedBooks := [];
     excludedIdsRef := ∅; isLoading := false; isSearching := false;
     page := 1; fetchError := None; analysis := None |}.

(** The state setters, in their functional form [set(prev => ..)]. *)
Definition setDiscoveryBooks (f : list Book -> list Book) (s : State) : State :=
  {| discoveryBooks := f (discoveryBooks s); reviewBooks := reviewBooks s;
     confirmedBooks := confirmedBooks s; excludedIdsRef := excludedIdsRef s;
     isLoading := isLoading s; isSearching := isSearching s; page := page s;
     fetchError := fetchError s; analysis := analysis s |}.

Definition setReviewBooks (f : list Book -> list Book) (s : State) : State :=
  {| discoveryBooks := discoveryBooks s; reviewBooks := f (reviewBooks s);
     confirmedBooks := confirmedBooks s; excludedIdsRef := excludedIdsRef s;
     isLoading := isLoading s; isSearching := isSearching s; page := page s;
     fetchError := fetchError s; analysis := analysis s |}.

Definition setConfirmedBooks (f : list Book -> list Book) (s : State) : State :=
  {| discoveryBooks := discoveryBooks s; reviewBooks := reviewBooks s;
     confirmedBooks := f (confirmedBooks s); excludedIdsRef := excludedIdsRef s;
     isLoading := isLoading s; isSearching := isSearching s; page := page s;
     fetchError := fetchError s; analysis := analysis s |}.

Definition setAnalysis (a : option GeminiAnalysis) (s : State) : State :=
  {| discoveryBooks := discoveryBooks s; reviewBooks := reviewBooks s;
     confirmedBooks := confirmedBooks s; excludedIdsRef := excludedIdsRef s;
     isLoading := isLoading s; isSearching := isSearching s; page := page s;
     fetchError := fetchError s; analysis := a |}.

Definition setIsLoading (b : bool) (s : State) : State :=
  {| discoveryBooks := discoveryBooks s; reviewBooks := reviewBooks s;
     confirmedBooks := confirmedBooks s; excludedIdsRef := excludedIdsRef s;
     isLoading := b; isSearching := isSearching s; page := page s;
     fetchError := fetchError s; analysis := analysis s |}.

Definition setIsSearching (b : bool) (s : State) : State :=
  {| discoveryBooks := discoveryBooks s; reviewBooks := reviewBooks s;
     confirmedBooks := confirmedBooks s; excludedIdsRef := excludedIdsRef s;
     isLoading := isLoading s; isSearching := b; page := page s;
     fetchError := fetchError s; analysis := analysis s |}.

Definition setPage (p : Z) (s : State) : State :=
  {| discoveryBooks := discoveryBooks s; reviewBooks := reviewBooks s;
     confirmedBooks := confirmedBooks s; excludedIdsRef := excludedIdsRef s;
     isLoading := isLoading s; isSearching := isSearching s; page := p;
     fetchError := fetchError s; analysis := analysis s |}.

Definition setFetchError (e : option string) (s : State) : State :=
  {| discoveryBooks := discoveryBooks s; reviewBooks := reviewBooks s;
     confirmedBooks := confirmedBooks s; excludedIdsRef := excludedIdsRef s;
     isLoading := isLoading s; isSearching := isSearching s; page := page s;
     fetchError := e; analysis := analysis s |}.

Definition ids (books : list Book) : list string := map id books.

(** Update excluded IDs ref whenever lists change: the effect that runs
    after a render in which [reviewBooks] or [confirmedBooks] changed. *)
Definition excludedIdsEffect (s : State) : State :=
  {| discoveryBooks := discoveryBooks s; reviewBooks := reviewBooks s;
     confirmedBooks := confirmedBooks s;
     excludedIdsRef := list_to_set (ids (reviewBooks s ++ confirmedBooks s));
     isLoading := isLoading s; isSearching := isSearching s; page := page s;
     fetchError := fetchError s; analysis := analysis s |}.

(** [prev.filter(b => b.id !== book.id)] *)
Definition without (book : Book) (prev : list Book) : list Book :=
  List.filter (fun b => negb (String.eqb (id b) (id book))) prev.

(** Kanban Actions *)
Definition moveBook (book : Book) (action : Action) (s : State) : State :=
  match action with
  | add =>
      setReviewBooks (fun prev => with_status book review :: prev)
        (setDiscoveryBooks (without book) s)
  | approve =>
      setAnalysis None
        (setConfirmedBooks (fun prev => with_status book confirmed :: prev)
           (setReviewBooks (without book) s))
  | return' =>
      match status book with
      | Some confirmed =>
          setAnalysis None
            (setReviewBooks (fun prev => with_status book review :: prev)
               (setConfirmedBooks (without book) s))
      | Some review => setReviewBooks (without book) s
      | _ => s
      end
  | remove => s
  end.

(** [data.filter(b => !currentExcluded.has(b.id))] *)
Definition fresh (currentExcluded : gset string) (data : list Book) : list Book :=
  List.filter (fun b => negb (bool_decide (id b ∈ currentExcluded))) data.

(** ** [loadDiscoveryBooks]: up to the [await], and from its settling on *)

(** The part before [await fetchBooks(..)].  [false]: the function has
    returned from a key pre-check and will not settle later. *)
Definition loadDiscoveryBooks_begin (apiKeys : ApiKeys) (source : FetchSource)
    (s : State) : State * bool :=
  match source with
  | editorRecommend =>
      if negb (truthy_opt (nlkApiKey apiKeys))
      then (setDiscoveryBooks (fun _ => []) s, false)
      else (setFetchError None (setIsLoading true s), true)
  | _ =>
      if negb (truthy (aladinTtb apiKeys))
      then (setDiscoveryBooks (fun _ => []) s, false)
      else (setFetchError None (setIsLoading true s), true)
  end.

(** The part after it: [try] continues with the data, or [catch] runs,
    and then [finally]. *)
Definition loadDiscoveryBooks_settle (r : Error + list Book) (s : State) : State :=
  setIsLoading false
    match r with
    | inr data =>
        (* Filter using the ref *)
        let currentExcluded := excludedIdsRef s in
        let freshData := fresh currentExcluded data in
        setDiscoveryBooks (fun _ => freshData) s
    | inl error =>
        let msg := message error in
        setDiscoveryBooks (fun _ => [])
          (setFetchError
             (Some ("도서 정보를 불러오는데 실패했습니다. (" ++ msg ++ ")")) s)
    end.

(** ** [handleSearch], split the same way *)

Definition handleSearch_begin `{rt : Runtime} (apiKeys : ApiKeys)
    (searchQuery : string) (targetPage : Z) (s : State) : State * bool :=
  if negb (truthy (trim searchQuery)) || negb (truthy (aladinTtb apiKeys))
  then (s, false)
  else
    let s1 := setFetchError None (setIsLoading true (setIsSearching true s)) in
    (* Reset page if this is a new search submit *)
    (if targetPage =? 1 then setPage 1 s1 else s1, true).

Definition handleSearch_settle (r : Error + list Book) (s : State) : State :=
  setIsSearching false
    (setIsLoading false
       match r with
       | inr data =>
           let currentExcluded := excludedIdsRef s in
           let freshData := fresh currentExcluded data in
           setDiscoveryBooks (fun _ => freshData)
             (if (length data =? 0)%nat
              then setFetchError (Some "최근 1년 이내의 검색 결과가 없습니다.") s
              else s)
       | inl error =>
           let msg := message error in
           setFetchError (Some ("검색에 실패했습니다. (" ++ msg ++ ")")) s
       end).

(** ** [handleDownloadOrder]: the text handed to the [Blob], or [None]
    when the handler returns without producing a file. *)

(** The character U+FEFF, as the [Blob] encodes it. *)
Definition bom : string :=
  String "239"%char (String "187"%char (String "191"%char EmptyString)).

Definition headers : list string :=
  ["제목"; "저자"; "출판사"; "출판일"; "정가"; "판매가"; "ISBN"; "카테고리"].

(** The template that puts a double quote on either side of [s]. *)
Definition quoted (s : string) : string :=
  String dquote s ++ String dquote EmptyString.

Definition row (book : Book) : list string :=
  [ quoted (double_quotes (title book));
    quoted (double_quotes (author book));
    quoted (double_quotes (publisher book));
    quoted (pubDate book);
    pretty (priceStandard book);
    pretty (priceSales book);
    quoted (isbn13 book);
    quoted (default "" (or_else (categoryName book) (Some ""))) ].

Definition csvContent (confirmedBooks : list Book) : string :=
  let rows := map row confirmedBooks in
  bom ++ join GeminiService.newline
           (join "," headers :: map (fun row => join "," row) rows).

Definition handleDownloadOrder (s : State) : option string :=
  if (length (confirmedBooks s) =? 0)%nat then None
  else Some (csvContent (confirmedBooks s)).

(** ** The board as a transition system

    One event is one run of a handler up to its end or its next
    [await], followed by the render and its effects. *)

Section Events.
Context `{rt : Runtime}.

Inductive Event :=
(** a click on a button of the card drawn for [book] *)
| click (book : Book) (action : Action)
(** [loadDiscoveryBooks(source, _)] runs up to its [await] *)
| load_begin (apiKeys : ApiKeys) (source : FetchSource)
(** the [fetchBooks] call of [loadDiscoveryBooks(source, currentPage)]
    settles, having run on this network from this world *)
| load_settle (apiKeys : ApiKeys) (source : FetchSource) (currentPage : Z)
    (net : Network BookService.Json) (w : World)
(** [handleSearch(_, targetPage)] runs up to its [await] *)
| search_begin (apiKeys : ApiKeys) (searchQuery : string) (targetPage : Z)
(** its [searchBooks] call settles *)
| search_settle (apiKeys : ApiKeys) (searchQuery : string)
    (searchTarget : SearchTarget) (targetPage : Z)
    (net : Network BookService.Json) (w : World)
(** [handleRefresh]: [setPage(page + 1)]; the search it may start is
    the event [search_begin] that follows *)
| refresh
(** [handleSourceChange] and [handleSaveKeys]: [setPage(1)] *)
| page_reset
(** the [analyzeAcquisitionList] call of [handleAnalyze] settles with a
    report: [setAnalysis(result)] *)
| analyze_settle (result : GeminiAnalysis).

(** A card is drawn for every book of the three columns, with the
    buttons of [renderActions].  (The discovery cards are hidden while
    [isLoading]; the relation allows their clicks then too, and it
    allows a call to settle at any time and with any result, so it
    covers every run of the application.) *)
Definition enabled (ev : Event) (s : State) : Prop :=
  match ev with
  | click book action =>
      In book (discoveryBooks s ++ reviewBooks s ++ confirmedBooks s) /\
      In action (renderActions book)
  | _ => True
  end.

Definition handle (ev : Event) (s : State) : State :=
  match ev with
  | click book action => moveBook book action s
  | load_begin apiKeys source => fst (loadDiscoveryBooks_begin apiKeys source s)
  | load_settle apiKeys source currentPage net w =>
      loadDiscoveryBooks_settle
        (fst (BookService.fetchBooks net source (Some (aladinTtb apiKeys))
                (nlkApiKey apiKeys) currentPage w)) s
  | search_begin apiKeys searchQuery targetPage =>
      fst (handleSearch_begin apiKeys searchQuery targetPage s)
  | search_settle apiKeys searchQuery searchTarget targetPage net w =>
      handleSearch_settle
        (fst (BookService.searchBooks net searchQuery (aladinTtb apiKeys)
                searchTarget targetPage w)) s
  | refresh => setPage (page s + 1) s
  | page_reset => setPage 1 s
  | analyze_settle result => setAnalysis (Some result) s
  end.

Definition dispatch (ev : Event) (s : State) : State :=
  excludedIdsEffect (handle ev s).

Inductive reachable : State -> Prop :=
| reachable_initial : reachable initial
| reachable_dispatch s ev :
    reachable s -> enabled ev s -> reachable (dispatch ev s).

(** The state after a sequence of events, oldest first. *)
Definition run (evs : list Event) (s : State) : State :=
  fold_left (fun s ev => dispatch ev s) evs s.

End Events.

(** ** The total of the confirmed column

    [confirmedBooks.reduce((sum, item) => sum + item.priceSales, 0)] *)
Definition totalAmount (s : State) : Z :=
  fold_left (fun sum item => sum + priceSales item) (confirmedBooks s) 0.

(** ** [handleAnalyze]

    The cells [isAnalyzing] and the messages shown by [alert], beside the
    board. *)
Record AnalysisUi := mkAnalysisUi {
  isAnalyzing : bool;
  alerts : list string        (* oldest first *)
}.

Section Analyze.
Variable API_KEY : option string.
Variable endpoint : nat -> string -> Error + option string.
Variable JSON_parse : string -> Error + GeminiAnalysis.
Variable substring_0_50 : string -> string.

(** Up to the [await]: the list handed to the service, or [None] when the
    handler returns at once. *)
Definition handleAnalyze_begin (s : State) (ui : AnalysisUi)
    : AnalysisUi * option (list Book) :=
  if (length (confirmedBooks s) =? 0)%nat then (ui, None)
  else ({| isAnalyzing := true; alerts := alerts ui |}, Some (confirmedBooks s)).

(** From the settling on: [try] continues, or [catch] runs, then
    [finally]. *)
Definition handleAnalyze_settle (r : Error + GeminiAnalysis) (s : State)
    (ui : AnalysisUi) : World -> (State * AnalysisUi) * World :=
  fun w =>
    match r with
    | inr result =>
        ((setAnalysis (Some result) s,
          {| isAnalyzing := false; alerts := alerts ui |}), w)
    | inl error =>
        ((s, {| isAnalyzing := false;
                alerts := alerts ui ++
                  ["AI 분석에 실패했습니다. 잠시 후 다시 시도해주세요."] |}),
         snd (log (console_error "" error) w))
    end.

(** The handler run from its start to its end, no other event between. *)
Definition handleAnalyze (s : State) (ui : AnalysisUi)
    : World -> (State * AnalysisUi) * World :=
  fun w =>
    match handleAnalyze_begin s ui with
    | (ui1, None) => ((s, ui1), w)
    | (ui1, Some books) =>
        let (r, w1) :=
          GeminiService.analyzeAcquisitionList API_KEY endpoint JSON_parse
            substring_0_50 books w in
        handleAnalyze_settle r s ui1 w1
    end.

End Analyze.

End App.


(* ===================================================================== *)
(** * App.tsx: the header, its handlers and the effect that loads *)
(* ===================================================================== *)

Module Header.
Import Js Types App.

(** The cells around the board.  [localStorage] holds the entry
    ['smart_acquisition_keys'], as the keys its JSON text stands for. *)
Record Shell := mkShell {
  board : State;
  activeSource : FetchSource;
  searchQuery : string;
  searchTarget : SearchTarget;
  apiKeys : ApiKeys;
  isKeyModalOpen : bool;
  localStorage : option ApiKeys
}.

(** The asynchronous calls a handler or an effect has started, each with
    the keys and the query its closure holds. *)
Inductive Launch :=
| launch_load (apiKeys : ApiKeys) (source : FetchSource) (currentPage : Z)
| launch_search (apiKeys : ApiKeys) (searchQuery : string)
    (searchTarget : SearchTarget) (targetPage : Z).

Definition with_board (b : State) (sh : Shell) : Shell :=
  {| board := b; activeSource := activeSource sh; searchQuery := searchQuery sh;
     searchTarget := searchTarget sh; apiKeys := apiKeys sh;
     isKeyModalOpen := isKeyModalOpen sh; localStorage := localStorage sh |}.

(** [useState(() => { const saved = localStorage.getItem(..); .. })] and
    the other initial values. *)
Definition startup (storage : option ApiKeys) : Shell :=
  {| board := initial; activeSource := combined; searchQuery := "";
     searchTarget := Keyword;
     apiKeys := match storage with
                | Some saved => saved
                | None => {| aladinTtb := ""; nlkApiKey := Some "" |}
                end;
     isKeyModalOpen := false; localStorage := storage |}.

(** Handler for source change - resets page. *)
Definition handleSourceChange (source : FetchSource) (sh : Shell) : Shell :=
  {| board := setPage 1 (board sh);
     activeSource := source;
     searchQuery := "";
     searchTarget := searchTarget sh;
     apiKeys := apiKeys sh;
     isKeyModalOpen :=
       match source with
       | editorRecommend =>
           if negb (truthy_opt (nlkApiKey (apiKeys sh))) then true
           else isKeyModalOpen sh
       | _ => isKeyModalOpen sh
       end;
     localStorage := localStorage sh |}.

Definition handleSaveKeys (keys : ApiKeys) (sh : Shell) : Shell :=
  {| board := setPage 1 (board sh);
     activeSource := activeSource sh;
     searchQuery := searchQuery sh;
     searchTarget := searchTarget sh;
     apiKeys := keys;
     isKeyModalOpen := isKeyModalOpen sh;
     localStorage := Some keys |}.

Section Handlers.
Context `{rt : Runtime}.

(** [handleSearch(e, targetPage)] up to its [await], on the shell. *)
Definition handleSearch_start (targetPage : Z) (sh : Shell) : Shell * list Launch :=
  let (b, started) :=
    handleSearch_begin (apiKeys sh) (searchQuery sh) targetPage (board sh) in
  (with_board b sh,
   if started
   then [launch_search (apiKeys sh) (searchQuery sh) (searchTarget sh) targetPage]
   else []).

Definition handleRefresh (sh : Shell) : Shell * list Launch :=
  let nextPage := page (board sh) + 1 in
  let sh1 := with_board (setPage nextPage (board sh)) sh in
  if truthy (searchQuery sh) &&
     negb (match activeSource sh with editorRecommend => true | _ => false end)
  then handleSearch_start nextPage sh1
  else (sh1, []).

(** The identity of [loadDiscoveryBooks] changes with the two key
    strings, its [useCallback] dependencies. *)
Definition same_loader (k1 k2 : ApiKeys) : bool :=
  String.eqb (aladinTtb k1) (aladinTtb k2) &&
  match nlkApiKey k1, nlkApiKey k2 with
  | Some a, Some b => String.eqb a b
  | None, None => true
  | _, _ => false
  end.

Definition same_source (a b : FetchSource) : bool :=
  match a, b with
  | combined, combined | bestseller, bestseller
  | itemNewSpecial, itemNewSpecial | editorRecommend, editorRecommend => true
  | _, _ => false
  end.

(** The body of the effect: [if (!searchQuery) loadDiscoveryBooks(..)],
    with the part of [loadDiscoveryBooks] that runs before its [await]. *)
Definition loadEffect_body (sh : Shell) : Shell * list Launch :=
  if negb (truthy (searchQuery sh))
  then
    let (b, started) :=
      loadDiscoveryBooks_begin (apiKeys sh) (activeSource sh) (board sh) in
    (with_board b sh,
     if started
     then [launch_load (apiKeys sh) (activeSource sh) (page (board sh))]
     else [])
  else (sh, []).

(** Effect to load books when source changes or keys update: it runs
    after the render that follows a handler when one of its dependencies
    [activeSource], [loadDiscoveryBooks], [page] differs from the render
    before, and then calls [loadDiscoveryBooks] unless a query is typed. *)
Definition loadEffect (before after : Shell) : Shell * list Launch :=
  if same_source (activeSource before) (activeSource after) &&
     same_loader (apiKeys before) (apiKeys after) &&
     (page (board before) =? page (board after))
  then (after, [])
  else loadEffect_body after.

(** The first render: the effect runs once. *)
Definition mount (storage : option ApiKeys) : Shell * list Launch :=
  loadEffect_body (startup storage).

(** What the user does at the header. *)
Inductive HeaderEvent :=
| source_clicked (source : FetchSource)
| refresh_clicked
| keys_saved (keys : ApiKeys)
| query_typed (text : string)
| target_selected (target : SearchTarget)
| search_submitted.

Definition header_handler (ev : HeaderEvent) (sh : Shell) : Shell * list Launch :=
  match ev with
  | source_clicked source => (handleSourceChange source sh, [])
  | refresh_clicked => handleRefresh sh
  | keys_saved keys => (handleSaveKeys keys sh, [])
  | query_typed text =>
      ({| board := board sh; activeSource := activeSource sh; searchQuery := text;
          searchTarget := searchTarget sh; apiKeys := apiKeys sh;
          isKeyModalOpen := isKeyModalOpen sh; localStorage := localStorage sh |},
       [])
  | target_selected target =>
      ({| board := board sh; activeSource := activeSource sh;
          searchQuery := searchQuery sh; searchTarget := target;
          apiKeys := apiKeys sh; isKeyModalOpen := isKeyModalOpen sh;
          localStorage := localStorage sh |}, [])
  | search_submitted => handleSearch_start 1 sh
  end.

(** One event at the header: its handler, the render, the effects. *)
Definition header_step (ev : HeaderEvent) (sh : Shell) : Shell * list Launch :=
  let (sh1, direct) := header_handler ev sh in
  let (sh2, loads) := loadEffect sh sh1 in
  (with_board (excludedIdsEffect (board sh2)) sh2, (direct ++ loads)%list).

End Handlers.

End Header.

(* ===================================================================== *)
(** * components/ApiKeyModal.tsx: the two validation buttons *)
(* ===================================================================== *)

Module ApiKeyModal.
Import Js Types.

Inductive Status := idle | success | error.

Record State := mkState {
  keys : ApiKeys;
  validatingAladin : bool;
  aladinStatus : Status;
  validatingNlk : bool;
  nlkStatus : Status;
  isSaving : bool
}.

(** The [onChange] of the two inputs. *)
Definition changeAladin (value : string) (m : State) : State :=
  {| keys := {| aladinTtb := value; nlkApiKey := nlkApiKey (keys m) |};
     validatingAladin := validatingAladin m; aladinStatus := idle;
     validatingNlk := validatingNlk m; nlkStatus := nlkStatus m;
     isSaving := isSaving m |}.

Definition changeNlk (value : string) (m : State) : State :=
  {| keys := {| aladinTtb := aladinTtb (keys m); nlkApiKey := Some value |};
     validatingAladin := validatingAladin m; aladinStatus := aladinStatus m;
     validatingNlk := validatingNlk m; nlkStatus := idle;
     isSaving := isSaving m |}.

Section Handlers.
Context `{rt : Runtime}.

(** Run from its start to its end, no other event between. *)
Definition handleValidateAladin (net : Network BookService.Json) (m : State)
    : World -> State * World :=
  fun w =>
    if negb (truthy (aladinTtb (keys m))) then (m, w)
    else
      let (r, w1) := BookService.validateTtbKey net (aladinTtb (keys m)) w in
      ({| keys := keys m;
          validatingAladin := false;
          aladinStatus :=
            match r with
            | inr isValid => if isValid then success else error
            | inl _ => error
            end;
          validatingNlk := validatingNlk m; nlkStatus := nlkStatus m;
          isSaving := isSaving m |}, w1).

Definition handleValidateNlk (net : Network BookService.NlkProbe) (m : State)
    : World -> State * World :=
  fun w =>
    if negb (truthy_opt (nlkApiKey (keys m))) then (m, w)
    else
      let (r, w1) :=
        BookService.validateNlkKey net (default "" (nlkApiKey (keys m))) w in
      ({| keys := keys m;
          validatingAladin := validatingAladin m; aladinStatus := aladinStatus m;
          validatingNlk := false;
          nlkStatus :=
            match r with
            | inr isValid => if isValid then success else error
            | inl _ => error
            end;
          isSaving := isSaving m |}, w1).

End Handlers.

End ApiKeyModal.

(* ===================================================================== *)
(** * A host to run the definitions on *)
(* ===================================================================== *)

(** One [Js.Runtime], used by the worked examples only: ASCII white space
    for [trim], percent-encoding of every byte outside the unreserved set
    for [encodeURIComponent], dates of the form [YYYY-MM-DD] read as UTC
    midnight, and the proleptic Gregorian calendar in UTC for the one-year
    step.  The general statements hold for every runtime. *)

Module Host.

Definition is_space (c : ascii) : bool :=
  let n := nat_of_ascii c in
  ((9 <=? n) && (n <=? 13) || (n =? 32))%nat.

Fixpoint trim_start (s : string) : string :=
  match s with
  | String c s' => if is_space c then trim_start s' else s
  | EmptyString => EmptyString
  end.

Definition trim (s : string) : string :=
  String.rev (trim_start (String.rev (trim_start s))).

Definition is_unreserved (c : ascii) : bool :=
  let n := nat_of_ascii c in
  ((48 <=? n) && (n <=? 57) || (65 <=? n) && (n <=? 90) ||
   (97 <=? n) && (n <=? 122) ||
   existsb (Nat.eqb n) [33; 39; 40; 41; 42; 45; 46; 95; 126])%nat.

Definition hex_digit (n : nat) : ascii :=
  ascii_of_nat (if (n <? 10)%nat then 48 + n else 55 + n)%nat.

Fixpoint encodeURIComponent (s : string) : string :=
  match s with
  | EmptyString => EmptyString
  | String c s' =>
      if is_unreserved c then String c (encodeURIComponent s')
      else
        let n := nat_of_ascii c in
        String "%" (String (hex_digit (n / 16)) (String (hex_digit (n mod 16))
          (encodeURIComponent s')))
  end.

Definition days_from_civil (y m d : Z) : Z :=
  let y := if m <=? 2 then y - 1 else y in
  let era := y / 400 in
  let yoe := y - era * 400 in
  let doy := (153 * (if 2 <? m then m - 3 else m + 9) + 2) / 5 + d - 1 in
  let doe := yoe * 365 + yoe / 4 - yoe / 100 + doy in
  era * 146097 + doe - 719468.

Definition civil_from_days (z : Z) : Z * Z * Z :=
  let z := z + 719468 in
  let era := z / 146097 in
  let doe := z - era * 146097 in
  let yoe := (doe - doe / 1460 + doe / 36524 - doe / 146096) / 365 in
  let doy := doe - (365 * yoe + yoe / 4 - yoe / 100) in
  let mp := (5 * doy + 2) / 153 in
  let d := doy - (153 * mp + 2) / 5 + 1 in
  let m := if mp <? 10 then mp + 3 else mp - 9 in
  (if m <=? 2 then yoe + era * 400 + 1 else yoe + era * 400, m, d).

Definition ms_per_day : Z := 86400000.

Fixpoint digits (s : string) (acc : Z) : option Z :=
  match s with
  | EmptyString => Some acc
  | String c s' =>
      let n := Z.of_nat (nat_of_ascii c) in
      if (48 <=? n) && (n <=? 57) then digits s' (10 * acc + (n - 48))
      else None
  end.

(** [YYYY-MM-DD] *)
Definition Date_parse (s : string) : option Z :=
  if (String.length s =? 10)%nat &&
     String.eqb (substring 4 1 s) "-" && String.eqb (substring 7 1 s) "-"
  then
    match digits (substring 0 4 s) 0, digits (substring 5 2 s) 0,
          digits (substring 8 2 s) 0 with
    | Some y, Some m, Some d =>
        if (1 <=? m) && (m <=? 12) && (1 <=? d) && (d <=? 31)
        then Some (days_from_civil y m d * ms_per_day)
        else None
    | _, _, _ => None
    end
  else None.

Definition Date_minus_one_year (t : Z) : Z :=
  let day := t / ms_per_day in
  let '(y, m, d) := civil_from_days day in
  days_from_civil (y - 1) m d * ms_per_day + (t - day * ms_per_day).

(** The event loop of this host serves two waiting calls in turn, the
    one started first on the even turns: every response arrives at once
    and every timer fires when it is due. *)
#[export] Instance runtime : Js.Runtime :=
  {| Js.trim := trim;
     Js.encodeURIComponent := encodeURIComponent;
     Js.Date_parse := Date_parse;
     Js.Date_minus_one_year := Date_minus_one_year;
     Js.serves_first := Nat.even |}.

(** A network on which every request is answered [200] with [body]. *)
Definition always {J} (body : J) : Js.Network J :=
  fun _ _ => inr (Js.mkResponse true 200 (inr body)).

(** A network on which the first [n] requests are answered [503] and
    the later ones [200] with [body]. *)
Definition recovering {J} (n : nat) (body : J) : Js.Network J :=
  fun k _ =>
    if (k <? n)%nat then inr (Js.mkResponse false 503 (inr body))
    else inr (Js.mkResponse true 200 (inr body)).

(** A network on which every request fails in transport. *)
Definition never {J} : Js.Network J :=
  fun _ _ => inl (Js.mkError "Failed to fetch").

(** 2024-06-15T00:00:00Z, no request made, nothing logged. *)
Definition world0 : Js.World :=
  {| Js.clock := 1718409600000; Js.requests := []; Js.console := [] |}.

End Host.

(* ===================================================================== *)
(** * Sample data for the worked examples *)
(* ===================================================================== *)

Module Sample.
Import Js Types.

Definition item (itemId : Z) (title pubDate : string)
    (categoryName : option string) : Aladin.Item :=
  {| Aladin.itemId := itemId; Aladin.title := title;
     Aladin.author := "저자"; Aladin.publisher := "출판사";
     Aladin.pubDate := pubDate; Aladin.cover := "cover.jpg";
     Aladin.description := None; Aladin.isbn13 := "9788900000000";
     Aladin.priceStandard := 15000; Aladin.priceSales := 13500;
     Aladin.link := "https://www.aladin.co.kr/"; Aladin.categoryName := categoryName |}.

Definition novel : Aladin.Item :=
  item 1001 "소설" "2024-04-15" (Some "국내도서>소설").
Definition novel_reissue : Aladin.Item :=
  item 1001 "소설 (개정판)" "2024-05-01" (Some "국내도서>소설").
Definition essay : Aladin.Item :=
  item 2002 "수필" "2024-03-02" (Some "국내도서>에세이").
Definition comic : Aladin.Item :=
  item 3003 "만화책" "2024-05-20" (Some "국내도서>만화>순정만화").
Definition old_history : Aladin.Item :=
  item 4004 "옛 역사" "2023-05-15" (Some "국내도서>역사").
Definition undated : Aladin.Item :=
  item 5005 "날짜 없음" "" (Some "국내도서>역사").
Definition oddly_dated : Aladin.Item :=
  item 6006 "날짜 이상" "출간예정" (Some "국내도서>역사").

(** A catalogue body that lists [items]. *)
Definition listing (items : list Aladin.Item) : BookService.Json :=
  {| BookService.errorCode := None; BookService.errorMessage := None;
     BookService.item := Some items; BookService.response := None |}.

Definition comic_doc : Nlk.Wrapper :=
  {| Nlk.doc :=
       {| Nlk.no := 7; Nlk.bookname := "만화로 읽는 역사"; Nlk.authors := "저자";
          Nlk.publisher := "출판사"; Nlk.publication_year := "2024";
          Nlk.bookImageURL := "image.jpg"; Nlk.description := None;
          Nlk.isbn13 := "9788911111111"; Nlk.bookDtlUrl := "https://data4library.kr/";
          Nlk.class_nm := Some "예술 > 만화" |} |}.

(** A library body that lists [docs]. *)
Definition recommendation (docs : list Nlk.Wrapper) : BookService.Json :=
  {| BookService.errorCode := None; BookService.errorMessage := None;
     BookService.item := None;
     BookService.response := Some {| Nlk.error := None; Nlk.docs := Some docs |} |}.

(** A network that answers the new-special listing with one body and
    every other request with another. *)
Definition by_query_type (bestsellerBody newSpecialBody : BookService.Json)
    : Network BookService.Json :=
  fun _ url =>
    inr (mkResponse true 200
           (inr (if includes url "ItemNewSpecial" then newSpecialBody
                 else bestsellerBody))).

Definition keys : ApiKeys :=
  {| aladinTtb := "ttbsample0001"; nlkApiKey := Some "nlksample" |}.

Definition a_novel : Book := BookService.mapAladinItemToBook novel.

(** A book whose title holds a comma and a quoted word, and the same
    book filed under a category that holds a quoted word. *)
Definition quoted_word : string :=
  String dquote "큰글자" ++ String dquote EmptyString.

Definition titled : Book :=
  {| id := "7007"; title := "시, " ++ quoted_word ++ " 판"; author := "저자";
     publisher := "출판사"; pubDate := "2024-04-15"; cover := "cover.jpg";
     description := ""; isbn13 := "9788900000000"; priceStandard := 15000;
     priceSales := 13500; link := "https://www.aladin.co.kr/";
     categoryName := Some "국내도서>시"; status := Some confirmed |}.

Definition filed : Book :=
  {| id := "7007"; title := "시"; author := "저자";
     publisher := "출판사"; pubDate := "2024-04-15"; cover := "cover.jpg";
     description := ""; isbn13 := "9788900000000"; priceStandard := 15000;
     priceSales := 13500; link := "https://www.aladin.co.kr/";
     categoryName := Some ("국내도서>" ++ quoted_word ++ "도서");
     status := Some confirmed |}.

(** A session at the board.  The bestseller list, with the novel and the
    essay, has loaded; the novel is put under review; then it is either
    approved, or discarded and the list loaded once more. *)
Definition shop : Network BookService.Json := Host.always (listing [novel; essay]).
Definition loaded : App.Event := App.load_settle keys bestseller 1 shop Host.world0.
Definition in_review : Book := with_status a_novel review.
Definition in_confirmed : Book := with_status a_novel confirmed.

Definition reviewing : App.State :=
  App.run (rt:=Host.runtime) [loaded; App.click a_novel BookCard.add] App.initial.

Definition approved : App.State :=
  App.run (rt:=Host.runtime)
    [loaded; App.click a_novel BookCard.add; App.click in_review BookCard.approve]
    App.initial.

Definition reloaded : App.State :=
  App.run (rt:=Host.runtime)
    [loaded; App.click a_novel BookCard.add; App.click in_review BookCard.return';
     loaded]
    App.initial.

(** A catalogue body that refuses the key. *)
Definition refusal : BookService.Json :=
  {| BookService.errorCode := Some 100;
     BookService.errorMessage := Some "잘못된 ttbkey 입니다.";
     BookService.item := None; BookService.response := None |}.

(** A network whose first request fails in transport, whose second
    request is answered with the refusal, and whose later requests are
    answered with a listing. *)
Definition flaky : Network BookService.Json :=
  fun n _ =>
    match n with
    | O => inl (mkError "Failed to fetch")
    | S O => inr (mkResponse true 200 (inr refusal))
    | _ => inr (mkResponse true 200 (inr (listing [novel])))
    end.

(** A report of the analysis service. *)
Definition report : GeminiAnalysis :=
  {| summary := "소설과 수필"; budgetAnalysis := "적정";
     categoryBreakdown := "소설 1, 수필 1"; recommendationScore := 80 |}.

(** The essay as the catalogue lists it, and as it stands in review. *)
Definition an_essay : Book :=
  {| id := "2002"; title := "수필"; author := "저자"; publisher := "출판사";
     pubDate := "2024-03-02"; cover := "cover.jpg"; description := "";
     isbn13 := "9788900000000"; priceStandard := 15000; priceSales := 13500;
     link := "https://www.aladin.co.kr/";
     categoryName := Some "국내도서>에세이"; status := Some discovery |}.

Definition essay_in_review : Book :=
  {| id := "2002"; title := "수필"; author := "저자"; publisher := "출판사";
     pubDate := "2024-03-02"; cover := "cover.jpg"; description := "";
     isbn13 := "9788900000000"; priceStandard := 15000; priceSales := 13500;
     link := "https://www.aladin.co.kr/";
     categoryName := Some "국내도서>에세이"; status := Some review |}.

(** The session goes on: the novel is approved and a report on the
    confirmed list has arrived; then the essay is put under review. *)
Definition reported : App.State :=
  App.run (rt:=Host.runtime)
    [loaded; App.click a_novel BookCard.add; App.click in_review BookCard.approve;
     App.analyze_settle report]
    App.initial.

Definition analysed : App.State :=
  App.run (rt:=Host.runtime)
    [loaded; App.click a_novel BookCard.add; App.click in_review BookCard.approve;
     App.analyze_settle report; App.click an_essay BookCard.add]
    App.initial.

End Sample.

(* ===================================================================== *)
(** * Vocabulary of the statements *)
(* ===================================================================== *)

Import Js Types BookCard BookService GeminiService App.

(** ** The gateway *)

(** The urls of the attempts, in the order they are due: every proxy twice. *)
Definition attempt_urls (proxies : list (string -> string)) (targetUrl : string)
    : list string :=
  flat_map (fun proxyGenerator : string -> string =>
              [proxyGenerator targetUrl; proxyGenerator targetUrl]) proxies.

(** What one attempt makes of what [fetch] settled with: the body, when the
    transport succeeded, the status is ok and the body parsed; the error
    raised inside the [try] block otherwise. *)
Definition accept {J} (r : Error + Response J) : Error + J :=
  match r with
  | inl e => inl e
  | inr resp =>
      if ok resp then json resp
      else inl (mkError ("HTTP Error: " ++ pretty (Js.status resp)))
  end.

(** The outcome of the [k]-th attempt of a schedule [urls] whose first
    request is the [n]-th of the network. *)
Definition outcome {J} (net : Network J) (n : nat) (urls : list string)
    (k : nat) : Error + J :=
  accept (net (n + k)%nat (nth k urls "")).

(** A schedule run down to its first accepted attempt: how the loops are
    left, and how many requests were made. *)
Fixpoint schedule_exit {J} (net : Network J) (n : nat) (urls : list string)
    (lastError : option Error) : LoopExit (J:=J) * nat :=
  match urls with
  | [] => (Fallthrough lastError, O)
  | u :: rest =>
      match accept (net n u) with
      | inr data => (Return data, 1%nat)
      | inl e =>
          let (x, m) := schedule_exit net (S n) rest (Some e) in (x, S m)
      end
  end.

(** ** Two gateways joined *)

(** A gateway served by itself, [fuel] times. *)
Fixpoint serve_alone `{rt : Runtime} {J} (net : Network J) (fuel : nat)
    (p : Pending (J:=J)) (w : World) : Pending (J:=J) * World :=
  match fuel with
  | O => (p, w)
  | S fuel' => let (p', w') := serve net p w in serve_alone net fuel' p' w'
  end.

(** How a gateway that is over has left its loops. *)
Definition settled {J} (x : LoopExit (J:=J) * World) : Pending (J:=J) * World :=
  match x with
  | (Return data, w) => (returned data, w)
  | (Fallthrough lastError, w) =>
      (thrown (default all_proxies_failed lastError), w)
  end.

(** [url] is [targetUrl] sent through one of the proxies. *)
Definition proxied (proxies : list (string -> string)) (targetUrl url : string)
    : Prop :=
  exists proxyGenerator, In proxyGenerator proxies /\ url = proxyGenerator targetUrl.

(** [data] is the body of an accepted request of [w] that was made for
    [targetUrl] through one of the proxies. *)
Definition answered {J} (net : Network J) (proxies : list (string -> string))
    (targetUrl : string) (w : World) (data : J) : Prop :=
  exists i url,
    proxied proxies targetUrl url /\
    nth_error (requests w) i = Some url /\
    accept (net i url) = inr data.

(** What a gateway that runs for [targetUrl] holds is consistent with the
    requests made so far. *)
Definition tracked {J} (net : Network J) (proxies : list (string -> string))
    (targetUrl : string) (p : Pending (J:=J)) (w : World) : Prop :=
  match p with
  | fetching proxyUrl _ settles rest =>
      proxied proxies targetUrl proxyUrl /\
      (exists i, nth_error (requests w) i = Some proxyUrl /\
                 settles = accept (net i proxyUrl)) /\
      Forall (fun it => proxied proxies targetUrl (fst it)) rest
  | sleeping _ _ rest =>
      Forall (fun it => proxied proxies targetUrl (fst it)) rest
  | returned data => answered net proxies targetUrl w data
  | thrown _ => True
  end.

(** A gateway on a network on which every request fails with [e]. *)
Definition failing {J} (e : Error) (p : Pending (J:=J)) : Prop :=
  match p with
  | fetching _ _ settles _ => settles = inl e
  | sleeping _ error _ => error = e
  | returned _ => False
  | thrown error => error = e
  end.

(** The first proxy. *)
Definition first_proxy `{rt : Runtime} (url : string) : string :=
  "https://api.allorigins.win/raw?url=" ++ encodeURIComponent url.

(** The world after a request for [url]. *)
Definition requested (url : string) (w : World) : World :=
  {| clock := clock w; requests := requests w ++ [url]; console := console w |}.

(** ** The insertion-ordered [Map] *)

Definition keys {V} (m : list (string * V)) : list string := map fst m.

(** The loop of [new Map(entries)], from any map. *)
Definition Map_fill {V} (entries m : list (string * V)) : list (string * V) :=
  fold_left (fun m kv => Map_set (fst kv) (snd kv) m) entries m.

(** Every value carries its own key, for a key function [key]. *)
Definition keyed {V} (key : V -> string) (m : list (string * V)) : Prop :=
  forall k v, In (k, v) m -> k = key v.

(** ** The catalogue *)

(** The books of a catalogue body. *)
Definition listed (data : Json) : list Book :=
  match item data with
  | Some items => map mapAladinItemToBook items
  | None => []
  end.

(** The report that stands for an empty list. *)
Definition canned_report : GeminiAnalysis :=
  {| summary := "선택된 도서가 없습니다."; budgetAnalysis := "0원";
     categoryBreakdown := "없음"; recommendationScore := 0 |}.

(** The category path carries the comics marker. *)
Definition is_comic (book : Book) : Prop :=
  exists c, categoryName book = Some c /\ includes c "만화" = true.

Definition id_set (books : list Book) : gset string := list_to_set (ids books).

(** ** The board *)

Definition staged (s : State) : list Book := reviewBooks s ++ confirmedBooks s.

(** Each event of a run is enabled when its turn comes. *)
Fixpoint playable `{rt : Runtime} (evs : list Event) (s : State) : Prop :=
  match evs with
  | [] => True
  | ev :: evs' => enabled ev s /\ playable evs' (dispatch ev s)
  end.

(** The invariant of the board: every book carries the status of its
    column, no id occurs twice in review and confirmed together, no id of
    discovery occurs there, and the ref holds the ids of the two. *)
Record board_ok (s : State) : Prop := {
  ok_discovery : Forall (fun b => status b = Some discovery) (discoveryBooks s);
  ok_review : Forall (fun b => status b = Some review) (reviewBooks s);
  ok_confirmed : Forall (fun b => status b = Some confirmed) (confirmedBooks s);
  ok_staged_once : NoDup (ids (staged s));
  ok_disjoint : forall b, In b (discoveryBooks s) -> ~ In (id b) (ids (staged s));
  ok_ref : excludedIdsRef s = id_set (staged s)
}.

(** ** The order file, read back

    The reader against which the export is judged: comma-separated
    values after RFC 4180, records ended by a line feed, a leading
    byte-order mark skipped.  A field is bare or enclosed in double
    quotes; inside an enclosed field a double quote is written twice;
    anything else after a closing quote, a quote inside a bare field and
    an enclosed field left open are malformed ([None]). *)

Inductive CsvState := field_start | in_bare | in_quoted | after_quote.

Definition push (field : string) (c : ascii) : string :=
  field ++ String c EmptyString.

Fixpoint read_csv_from (s : string) (st : CsvState) (field : string)
    (record : list string) (records : list (list string))
    : option (list (list string)) :=
  match s with
  | EmptyString =>
      match st with
      | in_quoted => None
      | field_start | in_bare | after_quote =>
          Some (records ++ [record ++ [field]])%list
      end
  | String c s' =>
      let sees c' := Ascii.eqb c c' in
      match st with
      | field_start =>
          if sees dquote then read_csv_from s' in_quoted "" record records
          else if sees ","%char
          then read_csv_from s' field_start "" (record ++ [""])%list records
          else if sees "010"%char
          then read_csv_from s' field_start "" [] (records ++ [record ++ [""]])%list
          else read_csv_from s' in_bare (push "" c) record records
      | in_bare =>
          if sees dquote then None
          else if sees ","%char
          then read_csv_from s' field_start "" (record ++ [field])%list records
          else if sees "010"%char
          then read_csv_from s' field_start "" []
                 (records ++ [record ++ [field]])%list
          else read_csv_from s' in_bare (push field c) record records
      | in_quoted =>
          if sees dquote then read_csv_from s' after_quote field record records
          else read_csv_from s' in_quoted (push field c) record records
      | after_quote =>
          if sees dquote
          then read_csv_from s' in_quoted (push field dquote) record records
          else if sees ","%char
          then read_csv_from s' field_start "" (record ++ [field])%list records
          else if sees "010"%char
          then read_csv_from s' field_start "" []
                 (records ++ [record ++ [field]])%list
          else None
      end
  end.

Definition skip_bom (file : string) : string :=
  if String.prefix bom file
  then substring 3 (String.length file - 3) file
  else file.

Definition read_csv (file : string) : option (list (list string)) :=
  read_csv_from (skip_bom file) field_start "" [] [].

(** ** The console *)

(** The world after [console.error(msg, e)]. *)
Definition logged (msg : string) (e : Error) (w : World) : World :=
  snd (log (console_error msg e) w).

(** ** Characters and keys *)

(** Whether the character [c] occurs in [s]. *)
Fixpoint occurs (c : ascii) (s : string) : bool :=
  match s with
  | EmptyString => false
  | String c' s' => Ascii.eqb c' c || occurs c s'
  end.

(** Whether the key that [source] is fetched with is set. *)
Definition key_set (apiKeys : ApiKeys) (source : FetchSource) : bool :=
  match source with
  | editorRecommend => truthy_opt (nlkApiKey apiKeys)
  | _ => truthy (aladinTtb apiKeys)
  end.

(** ** What the order export is to hold *)

(** What a reader of the export is to find in the record of [book]. *)
Definition cells (book : Book) : list string :=
  [ title book; author book; publisher book; pubDate book;
    pretty (priceStandard book); pretty (priceSales book); isbn13 book;
    default "" (or_else (categoryName book) (Some "")) ].

(** The fields that the export writes between double quotes as they are
    hold no double quote. *)
Definition quote_free (book : Book) : Prop :=
  occurs dquote (pubDate book) = false /\
  occurs dquote (isbn13 book) = false /\
  occurs dquote (default "" (or_else (categoryName book) (Some ""))) = false.

(** A field that can stand bare: no double quote, comma or line feed. *)
Definition is_numeral (s : string) : Prop :=
  occurs dquote s = false /\ occurs "," s = false /\ occurs "010" s = false.

(* ===================================================================== *)
(** * Properties *)
(* ===================================================================== *)

(** ** Strings *)

Lemma append_cons (c : ascii) (a b : string) :
  String c a ++ b = String c (a ++ b).
Proof. reflexivity. Qed.

Lemma append_empty (s : string) : s ++ "" = s.
Proof.
  induction s as [| c s IH]; [reflexivity |].
  rewrite append_cons. now rewrite IH.
Qed.

Lemma prefix_append (a b : string) : String.prefix a (a ++ b) = true.
Proof.
  induction a as [| c a IH]; simpl; [now destruct b |].
  destruct (ascii_dec c c) as [_ | Hne]; [exact IH | contradiction].
Qed.

Lemma prefix_spec (sub s : string) :
  String.prefix sub s = true <-> exists rest, s = sub ++ rest.
Proof.
  revert s. induction sub as [| c sub IH]; intros s.
  - split; [intros _; now exists s | intros _; now destruct s].
  - destruct s as [| c' s]; simpl.
    + split; [discriminate | intros [rest H]; discriminate].
    + destruct (ascii_dec c c') as [<- | Hne].
      * rewrite IH. split; intros [rest H]; exists rest.
        -- rewrite append_cons. now f_equal.
        -- rewrite append_cons in H. now injection H.
      * split; [discriminate |]. intros [rest H].
        rewrite append_cons in H. injection H as H _. congruence.
Qed.

(** [includes] is containment: [s] is some text, then [sub], then some text. *)
Lemma includes_spec (s sub : string) :
  includes s sub = true <-> exists before after, s = before ++ sub ++ after.
Proof.
  induction s as [| c s IH].
  - cbn [includes]. rewrite orb_false_r, prefix_spec. split.
    + intros [rest H]. now exists "", rest.
    + intros (before & after & H). destruct before as [| c before].
      * now exists after.
      * rewrite append_cons in H. discriminate.
  - cbn [includes]. rewrite orb_true_iff, prefix_spec, IH. split.
    + intros [[rest H] | (before & after & H)].
      * now exists "", rest.
      * exists (String c before), after. rewrite append_cons. now f_equal.
    + intros (before & after & H). destruct before as [| c' before].
      * left. now exists after.
      * right. rewrite append_cons in H. injection H as _ H. now exists before, after.
Qed.

(** ** Action buttons and no-op transitions *)

(** C10. [moveBook] with action ['return'] on a book whose status is
    ['discovery'] or undefined is a no-op: the discovery, review and
    confirmed collections and the cached analysis report (indeed the whole
    state) are left unchanged. *)
Theorem moveBook_return_unstaged_noop (book : Book) (s : State) :
  status book = Some discovery \/ status book = None ->
  moveBook book return' s = s.
Proof.
  intros [H | H]; unfold moveBook; rewrite H; reflexivity.
Qed.

Lemma moveBook_return_unstaged_noop_witness :
  (status Sample.a_novel = Some discovery \/ status Sample.a_novel = None) /\
  moveBook Sample.a_novel return' initial = initial.
Proof.
  split.
  - left; reflexivity.
  - apply (moveBook_return_unstaged_noop Sample.a_novel initial).
    left; reflexivity.
Defined.

(** ** The analysis service *)

(** C9, the claim as stated fails: called with an empty list while no API
    key is configured, [analyzeAcquisitionList] raises the configuration
    error; it returns no report. *)
Lemma analyze_empty_without_key_throws :
  analyzeAcquisitionList None (fun _ _ => inr (Some "{}"))
    (fun _ => inr canned_report) (fun s => s) [] Host.world0
  = (inl (mkError "Gemini API Key is not configured."), Host.world0).
Proof. reflexivity. Qed.

(** C9, amended.  For every call with an empty book list: when an API key
    is configured the canned zero-value report is returned, when none is
    (absent or empty) the configuration error is raised; in both cases the
    world is unchanged, so the endpoint is not called. *)
Theorem analyze_empty_list
    (API_KEY : option string) (endpoint : nat -> string -> Error + option string)
    (JSON_parse : string -> Error + GeminiAnalysis)
    (substring_0_50 : string -> string) (w : World) :
  analyzeAcquisitionList API_KEY endpoint JSON_parse substring_0_50 [] w
  = (if truthy_opt API_KEY then inr canned_report
     else inl (mkError "Gemini API Key is not configured."), w).
Proof.
  unfold analyzeAcquisitionList.
  destruct (truthy_opt API_KEY); reflexivity.
Qed.

(** ** The recency filter of the search *)

Section Recency.
Context `{rt : Runtime}.

Lemma isWithinOneYear_false_iff (now : Z) (dateStr : string) :
  isWithinOneYear now dateStr = false <->
  dateStr = "" \/
  exists t, Date_parse dateStr = Some t /\ t < Date_minus_one_year now.
Proof.
  unfold isWithinOneYear.
  destruct dateStr as [| c rest]; simpl.
  - split; [now left | reflexivity].
  - destruct (Date_parse (String c rest)) as [t |] eqn:Hparse.
    + rewrite Z.leb_gt. split.
      * intros Hlt. right. exists t. split; [reflexivity | exact Hlt].
      * intros [Hempty | (t' & Ht' & Hlt)]; [discriminate | congruence].
    + split; [discriminate |].
      intros [Hempty | (t' & Ht' & _)]; discriminate.
Qed.

(** What a search whose request went through returns. *)
Lemma searchBooks_settled (net : Network Json) (query ttbKey : string)
    (target : SearchTarget) (page : Z) (w w1 : World) (data : Json) :
  truthy query = true -> truthy ttbKey = true ->
  fetchWithRetry net
    (itemSearchUrl (trim ttbKey) query target page (clock w)) w = (inr data, w1) ->
  truthy_num (errorCode data) = false ->
  searchBooks net query ttbKey target page w =
  (inr (match item data with
        | None => []
        | Some items =>
            List.filter isNotComic
              (List.filter (fun book => isWithinOneYear (clock w1) (pubDate book))
                 (map mapAladinItemToBook items))
        end), w1).
Proof.
  intros Hq Hk Hfetch Herr.
  unfold searchBooks. rewrite Hq, Hk. simpl.
  unfold bind, try_catch, Date_now. rewrite Hfetch, Herr.
  destruct (item data); reflexivity.
Qed.

End Recency.

(** C3, the claim as stated fails: a listed book whose publication date is
    the empty string, which is no date, is removed from the search results
    all the same. *)
Lemma search_drops_undated_book :
  @Date_parse Host.runtime (pubDate (mapAladinItemToBook Sample.undated)) = None /\
  fst (searchBooks (rt:=Host.runtime)
         (Host.always (Sample.listing [Sample.undated; Sample.essay]))
         "역사" "ttbsample0001" Keyword 1 Host.world0)
  = inr [mapAladinItemToBook Sample.essay].
Proof. split; vm_compute; reflexivity. Qed.

(** C3, amended.  In the results of a search whose request went through, a
    listed book that passes the comics filter is missing if and only if
    its publication-date string is empty, or parses to a real date older
    than one year before now.  So every book whose date string is not empty
    and does not parse to a real date is kept. *)
Theorem search_recency_filter `{rt : Runtime} (net : Network Json)
    (query ttbKey : string) (target : SearchTarget) (page : Z)
    (w w1 : World) (data : Json) (items : list Aladin.Item) :
  truthy query = true -> truthy ttbKey = true ->
  fetchWithRetry net
    (itemSearchUrl (trim ttbKey) query target page (clock w)) w = (inr data, w1) ->
  truthy_num (errorCode data) = false ->
  item data = Some items ->
  exists result,
    searchBooks net query ttbKey target page w = (inr result, w1) /\
    forall it, In it items ->
      let book := mapAladinItemToBook it in
      isNotComic book = true ->
      (~ In book result <->
       pubDate book = "" \/
       exists t, Date_parse (pubDate book) = Some t /\
                 t < Date_minus_one_year (clock w1)).
Proof.
  intros Hq Hk Hfetch Herr Hitem.
  eexists. split.
  - rewrite (searchBooks_settled _ _ _ _ _ _ _ _ Hq Hk Hfetch Herr), Hitem.
    reflexivity.
  - intros it Hin book Hcomic.
    rewrite <- isWithinOneYear_false_iff.
    rewrite !filter_In, in_map_iff. split.
    + intros Hnot. destruct (isWithinOneYear (clock w1) (pubDate book)) eqn:E;
        [| reflexivity].
      exfalso. apply Hnot. repeat split; eauto.
    + intros Hold [[_ Hkeep] _]. congruence.
Qed.

Lemma search_recency_filter_witness :
  let net := Host.always
    (Sample.listing [Sample.old_history; Sample.oddly_dated; Sample.essay]) in
  let w1 := snd (searchBooks (rt:=Host.runtime) net "역사" "ttbsample0001"
                   Keyword 1 Host.world0) in
  exists result,
    searchBooks (rt:=Host.runtime) net "역사" "ttbsample0001" Keyword 1 Host.world0
    = (inr result, w1) /\
    forall it,
      In it [Sample.old_history; Sample.oddly_dated; Sample.essay] ->
      let book := mapAladinItemToBook it in
      isNotComic book = true ->
      (~ In book result <->
       pubDate book = "" \/
       exists t, @Date_parse Host.runtime (pubDate book) = Some t /\
                 t < @Date_minus_one_year Host.runtime (clock w1)).
Proof.
  intros net w1.
  apply (search_recency_filter (rt:=Host.runtime) net
           "역사" "ttbsample0001" Keyword 1 Host.world0 w1
           (Sample.listing [Sample.old_history; Sample.oddly_dated; Sample.essay])
           [Sample.old_history; Sample.oddly_dated; Sample.essay]);
    reflexivity.
Defined.

(** ** The proxy fetch gateway *)

Section GatewayProps.
Context `{rt : Runtime} {J : Type}.
Variable net : Network J.

Lemma attempt_once_eq (proxyUrl : string) (w : World) :
  attempt_once net proxyUrl w =
  (accept (net (length (requests w)) proxyUrl),
   {| clock := clock w; requests := requests w ++ [proxyUrl];
      console := console w |}).
Proof.
  unfold attempt_once, bind, fetch, accept, throw.
  destruct (net (length (requests w)) proxyUrl) as [e | resp]; [reflexivity |].
  destruct (ok resp); reflexivity.
Qed.

Lemma outcome_cons (n : nat) (u : string) (urls : list string) (k : nat) :
  outcome net n (u :: urls) (S k) = outcome net (S n) urls k.
Proof. unfold outcome. simpl. now rewrite Nat.add_succ_r. Qed.

Lemma outcome_head (n : nat) (u : string) (urls : list string) :
  outcome net n (u :: urls) 0 = accept (net n u).
Proof. unfold outcome. simpl. now rewrite Nat.add_0_r. Qed.

(** The two loops run down the schedule [attempt_urls]. *)
Lemma proxy_loop_schedule (proxies : list (string -> string)) (targetUrl : string) :
  forall (lastError : option Error) (w : World),
    let (x, m) := schedule_exit net (length (requests w))
                    (attempt_urls proxies targetUrl) lastError in
    fst (proxy_loop net proxies targetUrl lastError w) = x /\
    requests (snd (proxy_loop net proxies targetUrl lastError w)) =
    (requests w ++ firstn m (attempt_urls proxies targetUrl))%list.
Proof.
  induction proxies as [| p rest IH]; intros lastError w.
  - simpl. split; [reflexivity | now rewrite app_nil_r].
  - cbn [attempt_urls flat_map app schedule_exit proxy_loop attempts].
    rewrite attempt_once_eq.
    destruct (accept (net (length (requests w)) (p targetUrl))) as [e1 | d1].
    2: { simpl. split; reflexivity. }
    cbn [log sleep snd clock requests console].
    rewrite attempt_once_eq. cbn [requests].
    replace (length (requests w ++ [p targetUrl])) with (S (length (requests w)))
      by (rewrite length_app; simpl; lia).
    destruct (accept (net (S (length (requests w))) (p targetUrl))) as [e2 | d2].
    2: { simpl. split; [reflexivity | now rewrite <- app_assoc]. }
    cbn [log sleep snd clock requests console].
    match goal with
    | |- context [proxy_loop net rest targetUrl (Some e2) ?w3] =>
        specialize (IH (Some e2) w3); cbn [requests] in IH;
        replace (length ((requests w ++ [p targetUrl]) ++ [p targetUrl]))
          with (S (S (length (requests w)))) in IH
          by (rewrite !length_app; simpl; lia)
    end.
    fold (attempt_urls rest targetUrl).
    destruct (schedule_exit net (S (S (length (requests w))))
                (attempt_urls rest targetUrl) (Some e2)) as [x m].
    destruct IH as [IH1 IH2]. split; [exact IH1 |].
    rewrite IH2. simpl. now rewrite <- !app_assoc.
Qed.

(** What running down a schedule amounts to. *)
Lemma schedule_exit_spec (urls : list string) :
  forall (n : nat) (lastError : option Error),
    match schedule_exit net n urls lastError with
    | (Return data, m) =>
        exists k, m = S k /\ (k < length urls)%nat /\
          outcome net n urls k = inr data /\
          (forall j, (j < k)%nat -> exists e, outcome net n urls j = inl e)
    | (Fallthrough lastError', m) =>
        m = length urls /\
        (forall j, (j < length urls)%nat -> exists e, outcome net n urls j = inl e) /\
        (urls = [] /\ lastError' = lastError \/
         exists e, lastError' = Some e /\
                   outcome net n urls (pred (length urls)) = inl e)
    end.
Proof.
  induction urls as [| u rest IH]; intros n lastError.
  - simpl. split; [reflexivity |]. split; [intros j Hj; lia | now left].
  - simpl. destruct (accept (net n u)) as [e | data] eqn:Hhead.
    + specialize (IH (S n) (Some e)).
      destruct (schedule_exit net (S n) rest (Some e)) as [[data | last'] m]
        eqn:Hsched.
      * destruct IH as (k & -> & Hk & Hdata & Hbefore).
        exists (S k). split; [reflexivity |]. split; [lia |].
        split; [now rewrite outcome_cons |].
        intros [| j] Hj.
        -- exists e. now rewrite outcome_head.
        -- rewrite outcome_cons. apply Hbefore. lia.
      * destruct IH as (-> & Hall & Hlast).
        split; [reflexivity |]. split.
        -- intros [| j] Hj.
           ++ exists e. now rewrite outcome_head.
           ++ rewrite outcome_cons. apply Hall. lia.
        -- right. destruct Hlast as [[-> ->] | (e' & -> & He')].
           ++ exists e. split; [reflexivity |]. simpl. now rewrite outcome_head.
           ++ destruct rest as [| u' rest'].
              ** simpl in Hsched. inversion Hsched; subst e'.
                 exists e. split; [reflexivity |]. simpl. now rewrite outcome_head.
              ** exists e'. split; [reflexivity |].
                 simpl. simpl in He'. now rewrite outcome_cons.
    + exists 0%nat. split; [reflexivity |]. split; [lia |].
      split; [now rewrite outcome_head | intros j Hj; lia].
Qed.

End GatewayProps.

(** C4.  [fetchWithRetry] makes its requests down the schedule of the
    configured proxies, each proxy twice and in order, and never beyond it.
    It returns the body of the first attempt whose transport succeeds,
    whose status is ok and whose body parses, having made no request after
    it; it raises an error only when every attempt of the schedule has
    failed, and the error is then the one of the last attempt, or the
    generic all-proxies-failed error when there was no attempt at all.
    The statement is for any list of proxies; the gateway of the
    application is the one over [PROXIES], which has two. *)
Theorem fetchWithRetry_gateway `{rt : Runtime} {J : Type} (net : Network J)
    (proxies : list (string -> string)) (targetUrl : string) (w : World) :
  let urls := attempt_urls proxies targetUrl in
  let n := length (requests w) in
  fetchWithRetry net targetUrl = fetchWithRetry_over net PROXIES targetUrl /\
  length (PROXIES (rt:=rt)) = 2%nat /\
  length urls = (2 * length proxies)%nat /\
  match fetchWithRetry_over net proxies targetUrl w with
  | (inr data, w') =>
      exists k, (k < length urls)%nat /\
        outcome net n urls k = inr data /\
        (forall j, (j < k)%nat -> exists e, outcome net n urls j = inl e) /\
        requests w' = (requests w ++ firstn (S k) urls)%list
  | (inl error, w') =>
      (forall j, (j < length urls)%nat -> exists e, outcome net n urls j = inl e) /\
      requests w' = (requests w ++ urls)%list /\
      (proxies = [] /\ error = all_proxies_failed \/
       outcome net n urls (pred (length urls)) = inl error)
  end.
Proof.
  intros urls n. split; [reflexivity |]. split; [reflexivity |]. split.
  { subst urls. induction proxies as [| p rest IH]; simpl; [reflexivity | lia]. }
  unfold fetchWithRetry_over.
  pose proof (proxy_loop_schedule net proxies targetUrl None w) as Hloop.
  pose proof (schedule_exit_spec net urls n None) as Hspec.
  fold urls n in Hloop.
  destruct (schedule_exit net n urls None) as [x m].
  destruct (proxy_loop net proxies targetUrl None w) as [x' w'].
  simpl in Hloop. destruct Hloop as [-> Hreq].
  destruct x as [data | lastError].
  - destruct Hspec as (k & -> & Hk & Hdata & Hbefore).
    exists k. repeat split; assumption.
  - destruct Hspec as (-> & Hall & Hlast).
    rewrite firstn_all in Hreq.
    split; [exact Hall |]. split; [exact Hreq |].
    destruct Hlast as [[Hnil ->] | (e & -> & He)].
    + left. split; [| reflexivity].
      subst urls. destruct proxies; [reflexivity | discriminate].
    + right. exact He.
Qed.

(** ** Two gateways joined by [Promise.all] *)

Section JoinProps.
Context `{rt : Runtime} {J : Type}.
Variable net : Network J.

Lemma begin_iteration_cons (lastError : option Error) (proxyUrl : string)
    (attempt : nat) (rest : list (string * nat)) (w : World) :
  begin_iteration net lastError ((proxyUrl, attempt) :: rest) w =
  (fetching proxyUrl attempt (accept (net (length (requests w)) proxyUrl)) rest,
   requested proxyUrl w).
Proof. cbn [begin_iteration]. now rewrite attempt_once_eq. Qed.

Lemma begin_iteration_steps (lastError : option Error)
    (rest : list (string * nat)) (w : World) :
  steps_left (fst (begin_iteration net lastError rest w)) = (2 * length rest)%nat.
Proof.
  destruct rest as [| [proxyUrl attempt] rest]; [reflexivity |].
  rewrite begin_iteration_cons. simpl. lia.
Qed.

(** Serving a call that still runs uses up one of its steps. *)
Lemma serve_steps (p : Pending) (w : World) :
  (0 < steps_left p)%nat ->
  (steps_left (fst (serve net p w)) < steps_left p)%nat.
Proof.
  destruct p as [proxyUrl attempt [e | data] rest | due e rest | data | e];
    cbn [serve steps_left fst]; try lia.
  intros _. rewrite begin_iteration_steps. lia.
Qed.

Lemma steps_left_0 (p : Pending (J:=J)) :
  steps_left p = 0%nat <-> (exists data, p = returned data) \/ (exists e, p = thrown e).
Proof.
  destruct p; cbn [steps_left]; split; try lia; eauto;
    intros [[? H] | [? H]]; discriminate.
Qed.

(** The join never runs out of turns. *)
Lemma Promise_all_loop_fuel (fuel1 : nat) :
  forall fuel2 turn p1 p2 w,
    (steps_left p1 + steps_left p2 <= fuel1)%nat ->
    (steps_left p1 + steps_left p2 <= fuel2)%nat ->
    Promise_all_loop net fuel1 turn p1 p2 w = Promise_all_loop net fuel2 turn p1 p2 w.
Proof.
  induction fuel1 as [| fuel1 IH]; intros fuel2 turn p1 p2 w H1 H2.
  - assert (H10 : steps_left p1 = 0%nat) by lia.
    assert (H20 : steps_left p2 = 0%nat) by lia.
    apply steps_left_0 in H10 as [[a ->] | [e ->]];
      apply steps_left_0 in H20 as [[b ->] | [e' ->]];
      destruct fuel2; reflexivity.
  - destruct fuel2 as [| fuel2].
    + assert (H10 : steps_left p1 = 0%nat) by lia.
      assert (H20 : steps_left p2 = 0%nat) by lia.
      apply steps_left_0 in H10 as [[a ->] | [e ->]];
        apply steps_left_0 in H20 as [[b ->] | [e' ->]]; reflexivity.
    + destruct p1 as [u1 a1 s1 r1 | d1 e1 r1 | data1 | e1];
        destruct p2 as [u2 a2 s2 r2 | d2 e2 r2 | data2 | e2];
        try reflexivity;
        cbn [Promise_all_loop];
        try (destruct (serves_first turn));
        match goal with
        | |- (let (_, _) := serve net ?p ?w in _) = _ =>
            let Hs := fresh "Hs" in
            pose proof (serve_steps p w ltac:(cbn [steps_left]; lia)) as Hs;
            destruct (serve net p w) as [p' w'];
            cbn [fst] in Hs; apply IH; cbn [steps_left] in *; lia
        end.
Qed.

(** A gateway served by itself runs as [fetchWithRetry_over] does. *)
Lemma serve_alone_over (n m : nat) (p : Pending) (w : World) :
  serve_alone net (n + m) p w =
  let (p', w') := serve_alone net n p w in serve_alone net m p' w'.
Proof.
  revert p w. induction n as [| n IH]; intros p w; cbn [Nat.add serve_alone].
  - reflexivity.
  - destruct (serve net p w) as [p' w']. apply IH.
Qed.

Lemma serve_alone_over_done (fuel : nat) (x : LoopExit * World) :
  serve_alone net fuel (fst (settled x)) (snd (settled x)) = settled x.
Proof.
  destruct x as [[data | lastError] w]; cbn [settled fst snd];
    induction fuel as [| fuel IH]; cbn [serve_alone serve]; auto.
Qed.

(** A failed attempt, served twice: the warning, the sleep, and the next
    iteration begun. *)
Lemma serve_failed (proxyUrl : string) (attempt : nat) (e : Error)
    (rest : list (string * nat)) (w : World) :
  serve_alone net 2 (fetching proxyUrl attempt (inl e) rest) w =
  serve_alone net 0
    (fst (begin_iteration net (Some e) rest
            (snd (sleep 1000 (snd (log (console_warn
               ("Attempt " ++ pretty (S attempt) ++
                " failed for proxy " ++ proxyUrl ++ ":") e) w))))))
    (snd (begin_iteration net (Some e) rest
            (snd (sleep 1000 (snd (log (console_warn
               ("Attempt " ++ pretty (S attempt) ++
                " failed for proxy " ++ proxyUrl ++ ":") e) w)))))).
Proof.
  cbn [serve_alone serve].
  set (w1 := snd (log _ w)).
  replace (Z.max (clock w1) (clock w1 + 1000)) with (clock w1 + 1000) by lia.
  change {| clock := clock w1 + 1000; requests := requests w1;
            console := console w1 |} with (snd (sleep 1000 w1)).
  now destruct (begin_iteration net (Some e) rest (snd (sleep 1000 w1))).
Qed.

Lemma gateway_alone (proxies : list (string -> string)) (targetUrl : string) :
  forall (lastError : option Error) (w : World),
    let start := begin_iteration net lastError (iterations proxies targetUrl) w in
    serve_alone net (steps_left (fst start)) (fst start) (snd start) =
    settled (proxy_loop net proxies targetUrl lastError w).
Proof.
  induction proxies as [| g rest IH]; intros lastError w start; subst start.
  - reflexivity.
  - rewrite begin_iteration_steps.
    cbn [iterations flat_map app proxy_loop attempts].
    fold (iterations rest targetUrl).
    rewrite begin_iteration_cons, attempt_once_eq. cbn [fst snd].
    fold (requested (g targetUrl) w).
    destruct (accept (net (length (requests w)) (g targetUrl))) as [e1 | d1].
    2: { exact (serve_alone_over_done _ (Return d1, requested (g targetUrl) w)). }
    cbn [length]. replace (2 * S (S (length (iterations rest targetUrl))))%nat
      with (2 + (2 + 2 * length (iterations rest targetUrl)))%nat by lia.
    rewrite serve_alone_over, serve_failed. cbn [serve_alone].
    set (w3 := snd (sleep 1000 _)).
    rewrite begin_iteration_cons, attempt_once_eq. cbn [fst snd].
    fold (requested (g targetUrl) w3).
    destruct (accept (net (length (requests w3)) (g targetUrl))) as [e2 | d2].
    2: { exact (serve_alone_over_done _ (Return d2, requested (g targetUrl) w3)). }
    rewrite serve_alone_over, serve_failed. cbn [serve_alone].
    set (w5 := snd (sleep 1000 _)).
    specialize (IH (Some e2) w5). cbv zeta in IH.
    rewrite begin_iteration_steps in IH.
    destruct (begin_iteration net (Some e2) (iterations rest targetUrl) w5)
      as [p5 w5']. exact IH.
Qed.


(** Started by itself and served to its end, a gateway settles as
    [fetchWithRetry_over] does, in the same world. *)
Lemma fetchWithRetry_served_alone (proxies : list (string -> string))
    (targetUrl : string) (w : World) :
  let start := fetchWithRetry_start net proxies targetUrl w in
  serve_alone net (steps_left (fst start)) (fst start) (snd start) =
  match fetchWithRetry_over net proxies targetUrl w with
  | (inr data, w') => (returned data, w')
  | (inl error, w') => (thrown error, w')
  end.
Proof.
  cbv zeta. unfold fetchWithRetry_start, fetchWithRetry_over.
  rewrite (gateway_alone proxies targetUrl None w).
  now destruct (proxy_loop net proxies targetUrl None w) as [[data | lastError] w'].
Qed.

(** *** What the bodies of a resolved join are *)

Lemma iterations_proxied (proxies : list (string -> string)) (targetUrl : string) :
  Forall (fun it => proxied proxies targetUrl (fst it)) (iterations proxies targetUrl).
Proof.
  unfold iterations. apply List.Forall_forall. intros [url attempt] Hin.
  apply in_flat_map in Hin as (g & Hg & Hin).
  exists g. split; [exact Hg |].
  destruct Hin as [[= <- _] | [[= <- _] | []]]; reflexivity.
Qed.

Lemma tracked_later (proxies : list (string -> string)) (targetUrl : string)
    (p : Pending) (w w' : World) :
  (exists l, requests w' = (requests w ++ l)%list) ->
  tracked net proxies targetUrl p w -> tracked net proxies targetUrl p w'.
Proof.
  intros [l Hl].
  assert (Hnth : forall i url, nth_error (requests w) i = Some url ->
                               nth_error (requests w') i = Some url).
  { intros i url H. rewrite Hl. rewrite nth_error_app1; [exact H |].
    apply nth_error_Some. congruence. }
  destruct p as [u a settles rest | due e rest | data | e]; cbn [tracked]; auto.
  - intros (Hu & (i & Hi & Hs) & Hrest). repeat split; auto. exists i. auto.
  - intros (i & url & Hurl & Hi & Hdata). exists i, url. auto.
Qed.

Lemma begin_iteration_tracked (proxies : list (string -> string))
    (targetUrl : string) (lastError : option Error)
    (rest : list (string * nat)) (w : World) :
  Forall (fun it => proxied proxies targetUrl (fst it)) rest ->
  tracked net proxies targetUrl (fst (begin_iteration net lastError rest w))
    (snd (begin_iteration net lastError rest w)) /\
  exists l, requests (snd (begin_iteration net lastError rest w))
            = (requests w ++ l)%list.
Proof.
  intros Hrest. destruct rest as [| [url attempt] rest].
  - cbn [begin_iteration fst snd tracked]. split; [exact I |].
    exists []. now rewrite app_nil_r.
  - rewrite begin_iteration_cons. cbn [fst snd tracked requested requests].
    split; [| now exists [url]].
    split; [exact (Forall_inv Hrest) |]. split; [| exact (Forall_inv_tail Hrest)].
    exists (length (requests w)). split; [| reflexivity].
    rewrite nth_error_app2 by lia. now rewrite Nat.sub_diag.
Qed.

Lemma serve_tracked (proxies : list (string -> string)) (targetUrl : string)
    (p : Pending) (w : World) :
  tracked net proxies targetUrl p w ->
  tracked net proxies targetUrl (fst (serve net p w)) (snd (serve net p w)) /\
  exists l, requests (snd (serve net p w)) = (requests w ++ l)%list.
Proof.
  destruct p as [u a [e | data] rest | due e rest | data | e];
    cbn [serve tracked fst snd log requests].
  - intros (_ & _ & Hrest). split; [exact Hrest |].
    exists []. now rewrite app_nil_r.
  - intros (Hu & (i & Hi & Hs) & _). split.
    + exists i, u. auto.
    + exists []. now rewrite app_nil_r.
  - intros Hrest.
    exact (begin_iteration_tracked proxies targetUrl (Some e) rest _ Hrest).
  - intros H. split; [exact H |]. exists []. now rewrite app_nil_r.
  - intros _. split; [exact I |]. exists []. now rewrite app_nil_r.
Qed.

(** When the join resolves, each of the two bodies is the body of an
    accepted request made for its url, whatever the order in which the two
    calls were served. *)
Lemma Promise_all_loop_answered (proxies : list (string -> string))
    (targetUrl1 targetUrl2 : string) (fuel : nat) :
  forall turn p1 p2 w data1 data2 w',
    tracked net proxies targetUrl1 p1 w ->
    tracked net proxies targetUrl2 p2 w ->
    Promise_all_loop net fuel turn p1 p2 w = (inr (data1, data2), w') ->
    answered net proxies targetUrl1 w' data1 /\
    answered net proxies targetUrl2 w' data2 /\
    exists l, requests w' = (requests w ++ l)%list.
Proof.
  induction fuel as [| fuel IH]; intros turn p1 p2 w data1 data2 w' H1 H2 H.
  - destruct p1 as [u1 a1 s1 r1 | d1 e1 r1 | b1 | e1];
      destruct p2 as [u2 a2 s2 r2 | d2 e2 r2 | b2 | e2];
      cbn [Promise_all_loop] in H; try discriminate.
    injection H as <- <- <-. repeat split; auto.
    exists []. now rewrite app_nil_r.
  - assert (Hstep1 : forall p2' : Pending,
              tracked net proxies targetUrl2 p2' w ->
              (let (p1', w1) := serve net p1 w in
               Promise_all_loop net fuel (S turn) p1' p2' w1)
              = (inr (data1, data2), w') ->
              answered net proxies targetUrl1 w' data1 /\
              answered net proxies targetUrl2 w' data2 /\
              exists l, requests w' = (requests w ++ l)%list).
    { intros p2' H2' Hrun. destruct (serve_tracked proxies targetUrl1 p1 w H1)
        as [Ht [l Hl]].
      destruct (serve net p1 w) as [p1' w1]. cbn [fst snd] in Ht, Hl.
      destruct (IH _ _ _ _ _ _ _ Ht
                  (tracked_later proxies targetUrl2 p2' w w1
                     (ex_intro _ l Hl) H2') Hrun) as (Ha & Hb & l' & Hl').
      repeat split; auto. exists (l ++ l')%list.
      now rewrite Hl', Hl, app_assoc. }
    assert (Hstep2 : forall p1' : Pending,
              tracked net proxies targetUrl1 p1' w ->
              (let (p2', w1) := serve net p2 w in
               Promise_all_loop net fuel (S turn) p1' p2' w1)
              = (inr (data1, data2), w') ->
              answered net proxies targetUrl1 w' data1 /\
              answered net proxies targetUrl2 w' data2 /\
              exists l, requests w' = (requests w ++ l)%list).
    { intros p1' H1' Hrun. destruct (serve_tracked proxies targetUrl2 p2 w H2)
        as [Ht [l Hl]].
      destruct (serve net p2 w) as [p2' w1]. cbn [fst snd] in Ht, Hl.
      destruct (IH _ _ _ _ _ _ _
                  (tracked_later proxies targetUrl1 p1' w w1
                     (ex_intro _ l Hl) H1') Ht Hrun) as (Ha & Hb & l' & Hl').
      repeat split; auto. exists (l ++ l')%list.
      now rewrite Hl', Hl, app_assoc. }
    destruct p1 as [u1 a1 s1 r1 | d1 e1 r1 | b1 | e1];
      destruct p2 as [u2 a2 s2 r2 | d2 e2 r2 | b2 | e2];
      cbn [Promise_all_loop] in H; try discriminate;
      try (destruct (serves_first turn));
      try (now apply (Hstep1 _ H2 H)); try (now apply (Hstep2 _ H1 H)).
    all: injection H as <- <- <-; repeat split; auto;
      exists []; now rewrite app_nil_r.
Qed.

Lemma Promise_all_answered (proxies : list (string -> string))
    (targetUrl1 targetUrl2 : string) (w w' : World) (data1 data2 : J) :
  Promise_all_over net proxies targetUrl1 targetUrl2 w = (inr (data1, data2), w') ->
  answered net proxies targetUrl1 w' data1 /\
  answered net proxies targetUrl2 w' data2 /\
  exists l, requests w' = (requests w ++ l)%list.
Proof.
  unfold Promise_all_over, fetchWithRetry_start. intros H.
  destruct (begin_iteration_tracked proxies targetUrl1 None
              (iterations proxies targetUrl1) w
              (iterations_proxied proxies targetUrl1)) as [H1 [l1 Hl1]].
  destruct (begin_iteration net None (iterations proxies targetUrl1) w)
    as [p1 w1]. cbn [fst snd] in H1, Hl1.
  destruct (begin_iteration_tracked proxies targetUrl2 None
              (iterations proxies targetUrl2) w1
              (iterations_proxied proxies targetUrl2)) as [H2 [l2 Hl2]].
  destruct (begin_iteration net None (iterations proxies targetUrl2) w1)
    as [p2 w2]. cbn [fst snd] in H2, Hl2.
  destruct (Promise_all_loop_answered proxies targetUrl1 targetUrl2 _ _ _ _ _ _ _ _
              (tracked_later proxies targetUrl1 p1 w1 w2 (ex_intro _ l2 Hl2) H1)
              H2 H) as (Ha & Hb & l & Hl).
  repeat split; auto. exists (l1 ++ l2 ++ l)%list.
  now rewrite Hl, Hl2, Hl1, !app_assoc.
Qed.

(** *** When the first request of each call is accepted *)

Lemma Promise_all_loop_done (fuel turn : nat) (data1 data2 : J) (w : World) :
  Promise_all_loop net fuel turn (returned data1) (returned data2) w
  = (inr (data1, data2), w).
Proof. now destruct fuel. Qed.

Lemma Promise_all_at_once (g : string -> string) (rest : list (string -> string))
    (targetUrl1 targetUrl2 : string) (w : World) (data1 data2 : J) :
  accept (net (length (requests w)) (g targetUrl1)) = inr data1 ->
  accept (net (S (length (requests w))) (g targetUrl2)) = inr data2 ->
  Promise_all_over net (g :: rest) targetUrl1 targetUrl2 w =
  (inr (data1, data2), requested (g targetUrl2) (requested (g targetUrl1) w)).
Proof.
  intros H1 H2. unfold Promise_all_over, fetchWithRetry_start.
  cbn [iterations flat_map app]. rewrite begin_iteration_cons, H1.
  rewrite begin_iteration_cons.
  replace (length (requests (requested (g targetUrl1) w)))
    with (S (length (requests w)))
    by (cbn [requested requests]; rewrite length_app; simpl; lia).
  rewrite H2. cbn [steps_left].
  match goal with
  | |- Promise_all_loop net ?fuel _ _ _ _ = _ =>
      replace fuel with (S (S (fuel - 2))) by (cbn [length]; lia)
  end.
  cbn [Promise_all_loop].
  destruct (serves_first 0); cbn [serve Promise_all_loop];
    apply Promise_all_loop_done.
Qed.

(** *** When every request fails *)

Lemma serve_failing (e : Error) (p : Pending) (w : World) :
  (forall n url, net n url = inl e) ->
  failing e p -> failing e (fst (serve net p w)).
Proof.
  intros Hdead.
  destruct p as [u a [e' | data] rest | due e' rest | data | e'];
    cbn [serve failing fst]; try discriminate; auto.
  - intros [= ->]. reflexivity.
  - intros Heq. subst e'. destruct rest as [| [url attempt] rest]; [reflexivity |].
    rewrite begin_iteration_cons, Hdead. reflexivity.
Qed.

Lemma Promise_all_loop_failing (e : Error) (fuel : nat) :
  (forall n url, net n url = inl e) ->
  forall turn p1 p2 w,
    (steps_left p1 + steps_left p2 <= fuel)%nat ->
    failing e p1 -> failing e p2 ->
    fst (Promise_all_loop net fuel turn p1 p2 w) = inl e.
Proof.
  intros Hdead. induction fuel as [| fuel IH]; intros turn p1 p2 w Hfuel H1 H2.
  - destruct p1 as [u1 a1 s1 r1 | d1 e1 r1 | b1 | e1];
      destruct p2 as [u2 a2 s2 r2 | d2 e2 r2 | b2 | e2];
      cbn [steps_left failing] in *; try lia; try contradiction; subst;
      reflexivity.
  - assert (Hstep : forall p (q : Pending) (first : bool),
              failing e p -> failing e q -> (0 < steps_left p)%nat ->
              (steps_left p + steps_left q <= S fuel)%nat ->
              (fst (let (p', w') := serve net p w in
                    Promise_all_loop net fuel (S turn) p' q w') = inl e) /\
              (fst (let (p', w') := serve net p w in
                    Promise_all_loop net fuel (S turn) q p' w') = inl e)).
    { intros p q _ Hp Hq Hpos Hle.
      pose proof (serve_failing e p w Hdead Hp) as Hp'.
      pose proof (serve_steps p w Hpos) as Hlt.
      destruct (serve net p w) as [p' w']. cbn [fst] in Hp', Hlt.
      split; apply IH; auto; lia. }
    destruct p1 as [u1 a1 s1 r1 | d1 e1 r1 | b1 | e1];
      destruct p2 as [u2 a2 s2 r2 | d2 e2 r2 | b2 | e2];
      cbn [failing] in H1, H2; try contradiction; subst;
      try reflexivity;
      cbn [Promise_all_loop]; try (destruct (serves_first turn));
      first [ apply (Hstep _ _ true); cbn [failing steps_left] in *; auto; lia
            | apply (proj2 (Hstep _ _ true ltac:(cbn [failing]; reflexivity)
                              ltac:(cbn [failing]; reflexivity)
                              ltac:(cbn [steps_left]; lia)
                              ltac:(cbn [steps_left] in *; lia))) ].
Qed.

Lemma Promise_all_failing (e : Error) (g : string -> string)
    (rest : list (string -> string)) (targetUrl1 targetUrl2 : string) (w : World) :
  (forall n url, net n url = inl e) ->
  fst (Promise_all_over net (g :: rest) targetUrl1 targetUrl2 w) = inl e.
Proof.
  intros Hdead. unfold Promise_all_over, fetchWithRetry_start.
  cbn [iterations flat_map app]. rewrite !begin_iteration_cons, !Hdead.
  apply Promise_all_loop_failing; auto; reflexivity.
Qed.

End JoinProps.

(** ** The insertion-ordered [Map] *)

Section MapProps.
Context {V : Type}.
Implicit Types (m : list (string * V)) (k : string) (v : V).

Lemma Map_set_in_keys k v m :
  In k (keys m) -> keys (Map_set k v m) = keys m.
Proof.
  induction m as [| [k' v'] m IH]; simpl; [tauto |].
  intros Hin. destruct (String.eqb k' k) eqn:E; [reflexivity |].
  simpl. f_equal. apply IH.
  destruct Hin as [-> | Hin]; [| exact Hin].
  rewrite String.eqb_refl in E. discriminate.
Qed.

Lemma Map_set_new_key k v m :
  ~ In k (keys m) -> keys (Map_set k v m) = (keys m ++ [k])%list.
Proof.
  induction m as [| [k' v'] m IH]; simpl; [reflexivity |].
  intros Hnot. destruct (String.eqb k' k) eqn:E.
  - apply String.eqb_eq in E. tauto.
  - simpl. f_equal. apply IH. tauto.
Qed.

Lemma Map_set_keys_In k v m k' :
  In k' (keys (Map_set k v m)) <-> k' = k \/ In k' (keys m).
Proof.
  destruct (in_dec string_dec k (keys m)) as [Hin | Hnot].
  - rewrite Map_set_in_keys by exact Hin. split; [tauto |].
    intros [-> | H]; assumption.
  - rewrite Map_set_new_key by exact Hnot. rewrite in_app_iff. simpl.
    split; [intros [H | [H | []]]; auto | intros [-> | H]; auto].
Qed.

Lemma Map_set_NoDup k v m : NoDup (keys m) -> NoDup (keys (Map_set k v m)).
Proof.
  intros Hnd. destruct (in_dec string_dec k (keys m)) as [Hin | Hnot].
  - now rewrite Map_set_in_keys.
  - rewrite Map_set_new_key by exact Hnot.
    apply NoDup_app; repeat split.
    + exact Hnd.
    + intros x Hx Hk. apply list_elem_of_In in Hx.
      apply list_elem_of_In in Hk. simpl in Hk.
      destruct Hk as [<- | []]. tauto.
    + apply NoDup_singleton.
Qed.

Lemma Map_get_set_eq k v m : Map_get k (Map_set k v m) = Some v.
Proof.
  induction m as [| [k' v'] m IH]; simpl.
  - now rewrite String.eqb_refl.
  - destruct (String.eqb k' k) eqn:E; simpl; rewrite E; [reflexivity | exact IH].
Qed.

Lemma Map_get_set_ne k k' v m :
  k <> k' -> Map_get k' (Map_set k v m) = Map_get k' m.
Proof.
  intros Hne. induction m as [| [k0 v0] m IH]; simpl.
  - destruct (String.eqb k k') eqn:E; [| reflexivity].
    apply String.eqb_eq in E. contradiction.
  - destruct (String.eqb k0 k) eqn:E; simpl.
    + apply String.eqb_eq in E. subst k0.
      destruct (String.eqb k k') eqn:E'; [| reflexivity].
      apply String.eqb_eq in E'. contradiction.
    + now rewrite IH.
Qed.

Lemma Map_set_keyed key k v m :
  k = key v -> keyed key m -> keyed key (Map_set k v m).
Proof.
  intros Hk. induction m as [| [k' v'] m IH]; intros Hm k0 v0; simpl.
  - intros [[= <- <-] | []]. exact Hk.
  - destruct (String.eqb k' k) eqn:E; simpl.
    + apply String.eqb_eq in E. subst k'.
      intros [[= <- <-] | Hin]; [exact Hk | apply Hm; now right].
    + intros [[= <- <-] | Hin]; [apply Hm; now left |].
      apply IH; [| exact Hin]. intros k1 v1 H1. apply Hm. now right.
Qed.

Lemma Map_set_values v0 k v m :
  In v0 (Map_values (Map_set k v m)) -> v0 = v \/ In v0 (Map_values m).
Proof.
  unfold Map_values.
  induction m as [| [k' v'] m IH]; simpl.
  - intros [<- | []]. now left.
  - destruct (String.eqb k' k); simpl.
    + intros [<- | H]; auto.
    + intros [<- | H]; auto. destruct (IH H); auto.
Qed.

Lemma Map_get_In k v m : Map_get k m = Some v -> In (k, v) m.
Proof.
  induction m as [| [k' v'] m IH]; simpl; [discriminate |].
  destruct (String.eqb k' k) eqn:E.
  - apply String.eqb_eq in E. intros [= <-]. left. now subst.
  - intros H. right. now apply IH.
Qed.

Lemma In_Map_get k v m : NoDup (keys m) -> In (k, v) m -> Map_get k m = Some v.
Proof.
  induction m as [| [k' v'] m IH]; simpl; [tauto |].
  intros Hnd [[= -> ->] | Hin].
  - now rewrite String.eqb_refl.
  - apply NoDup_cons in Hnd as [Hnot Hnd].
    destruct (String.eqb k' k) eqn:E.
    + apply String.eqb_eq in E. subst k'. exfalso. apply Hnot.
      apply list_elem_of_In. apply (in_map fst) in Hin. exact Hin.
    + now apply IH.
Qed.

(** ** Filling a map from a list of entries *)

Lemma Map_fill_keys_In entries : forall m k,
  In k (keys (Map_fill entries m)) <-> In k (keys m) \/ In k (map fst entries).
Proof.
  induction entries as [| [k0 v0] entries IH]; intros m k; simpl.
  - tauto.
  - rewrite IH, Map_set_keys_In. intuition congruence.
Qed.

Lemma Map_fill_NoDup entries : forall m,
  NoDup (keys m) -> NoDup (keys (Map_fill entries m)).
Proof.
  induction entries as [| [k0 v0] entries IH]; intros m Hnd; simpl.
  - exact Hnd.
  - apply IH. now apply Map_set_NoDup.
Qed.

Lemma Map_fill_keyed key entries : forall m,
  (forall k v, In (k, v) entries -> k = key v) ->
  keyed key m -> keyed key (Map_fill entries m).
Proof.
  induction entries as [| [k0 v0] entries IH]; intros m He Hm; simpl.
  - exact Hm.
  - apply IH.
    + intros k v Hin. apply He. now right.
    + apply Map_set_keyed; [apply He; now left | exact Hm].
Qed.

Lemma Map_fill_values entries : forall m v,
  In v (Map_values (Map_fill entries m)) ->
  In v (Map_values m) \/ In v (map snd entries).
Proof.
  induction entries as [| [k0 v0] entries IH]; intros m v; simpl.
  - now left.
  - intros H. apply IH in H as [H | H]; [| auto].
    apply Map_set_values in H as [-> | H]; auto.
Qed.

Lemma Map_fill_get_other entries : forall m k,
  ~ In k (map fst entries) -> Map_get k (Map_fill entries m) = Map_get k m.
Proof.
  induction entries as [| [k0 v0] entries IH]; intros m k Hnot; simpl.
  - reflexivity.
  - simpl in Hnot. rewrite IH by tauto.
    apply Map_get_set_ne. tauto.
Qed.

(** The value set last wins: with entries of distinct keys, each entry
    is what the filled map holds under its key, whatever was there. *)
Lemma Map_fill_get entries : forall m k v,
  NoDup (map fst entries) -> In (k, v) entries ->
  Map_get k (Map_fill entries m) = Some v.
Proof.
  induction entries as [| [k0 v0] entries IH]; intros m k v Hnd Hin; simpl.
  - destruct Hin.
  - simpl in Hnd. apply NoDup_cons in Hnd as [Hnot Hnd].
    destruct Hin as [[= -> ->] | Hin].
    + rewrite Map_fill_get_other.
      * apply Map_get_set_eq.
      * intros H. apply Hnot. now apply list_elem_of_In.
    + now apply IH.
Qed.

Lemma Map_fill_app e1 e2 m : Map_fill (e1 ++ e2) m = Map_fill e2 (Map_fill e1 m).
Proof. unfold Map_fill. apply fold_left_app. Qed.

End MapProps.

(** ** Awaiting and rethrowing *)

Section AsyncProps.
Context {A B : Type}.

Lemma bind_inr (m : Async A) (k : A -> Async B) (w w' : World) (b : B) :
  bind m k w = (inr b, w') ->
  exists a w1, m w = (inr a, w1) /\ k a w1 = (inr b, w').
Proof.
  unfold bind. destruct (m w) as [[e | a] w1]; [discriminate |].
  intros H. exists a, w1. split; [reflexivity | exact H].
Qed.

Lemma try_rethrow_inr (m : Async A) (msg : string) (w w' : World) (a : A) :
  try_catch m (fun error => bind (log (console_error msg error))
                              (fun _ => throw error)) w = (inr a, w') ->
  m w = (inr a, w').
Proof.
  unfold try_catch. destruct (m w) as [[e | a0] w1]; [discriminate |].
  intros H. exact H.
Qed.
End AsyncProps.

(** ** The catalogue client *)

Lemma listed_status (data : Json) :
  Forall (fun b => status b = Some discovery) (listed data).
Proof.
  unfold listed. destruct (item data); [| constructor].
  apply Forall_map. apply List.Forall_forall. intros; reflexivity.
Qed.

Lemma mergeUnique_In (B N : list Book) (b : Book) :
  In b (mergeUnique B N) -> In b (B ++ N).
Proof.
  unfold mergeUnique, Map_new. intros H.
  apply (Map_fill_values _ []) in H as [[] | H].
  rewrite map_map in H. simpl in H. now rewrite map_id in H.
Qed.

Lemma includes_nil (sub : string) : sub <> "" -> includes "" sub = false.
Proof. destruct sub; [congruence | reflexivity]. Qed.

Lemma isNotComic_true_iff (book : Book) :
  isNotComic book = true <-> ~ is_comic book.
Proof.
  unfold isNotComic, is_comic.
  destruct (categoryName book) as [c |].
  - destruct (truthy c) eqn:Hc; cbn [negb].
    + destruct (includes c "만화") eqn:E; cbn [negb].
      * split; [discriminate |]. intros H. exfalso. apply H. eauto.
      * split; [| reflexivity]. intros _ (c' & [= <-] & H'). congruence.
    + split; [| reflexivity]. intros _ (c' & [= <-] & H').
      destruct c; [discriminate H' | discriminate Hc].
  - split; [| reflexivity]. intros _ (c' & H & _). discriminate.
Qed.

Section CatalogProps.
Context `{rt : Runtime}.
Variable net : Network Json.

Lemma itemList_result (url prefix : string) (w w' : World) (books : list Book) :
  itemList net url prefix w = (inr books, w') ->
  exists data, fetchWithRetry net url w = (inr data, w') /\
               truthy_num (errorCode data) = false /\ books = listed data.
Proof.
  unfold itemList. intros H. apply bind_inr in H as (data & w1 & Hfetch & H).
  destruct (truthy_num (errorCode data)) eqn:E; [discriminate |].
  injection H as <- <-. exists data. repeat split; assumption.
Qed.

(** Whatever a catalogue source returns went through the comics filter,
    and was mapped with status [discovery]. *)
Lemma fetchBooks_catalog_result (source : FetchSource)
    (ttbKey nlkKey : option string) (page : Z) (w w' : World)
    (result : list Book) :
  source <> editorRecommend ->
  fetchBooks net source ttbKey nlkKey page w = (inr result, w') ->
  exists books, result = List.filter isNotComic books /\
                Forall (fun b => status b = Some discovery) books.
Proof.
  intros Hsrc H. unfold fetchBooks in H. apply try_rethrow_inr in H.
  destruct source; try contradiction;
    (destruct (negb (truthy_opt ttbKey));
     [injection H as <- _; exists []; split; [reflexivity | constructor] |]);
    apply bind_inr in H as (t & w1 & _ & H);
    apply bind_inr in H as (books & w2 & Hbooks & H);
    injection H as <- _; exists books; (split; [reflexivity |]).
  - apply bind_inr in Hbooks as (both & w3 & _ & Hbooks). cbv zeta in Hbooks.
    destruct (truthy_num (errorCode (fst both))); [discriminate |].
    destruct (truthy_num (errorCode (snd both))); [discriminate |].
    injection Hbooks as <- _.
    apply List.Forall_forall. intros b Hb.
    change (In b (mergeUnique (listed (fst both)) (listed (snd both)))) in Hb.
    apply mergeUnique_In in Hb. apply in_app_iff in Hb.
    pose proof (listed_status (fst both)) as Ha.
    pose proof (listed_status (snd both)) as Ha0.
    rewrite List.Forall_forall in Ha, Ha0. destruct Hb; auto.
  - apply itemList_result in Hbooks as (data & _ & _ & ->). apply listed_status.
  - apply itemList_result in Hbooks as (data & _ & _ & ->). apply listed_status.
Qed.

(** What the library source returns when its request went through. *)
Lemma fetchBooks_library_settled (ttbKey : option string) (key : string)
    (page : Z) (w w1 : World) (data : Json) :
  truthy key = true ->
  fetchWithRetry net (recommandListUrl (trim key) page (clock w)) w
  = (inr data, w1) ->
  truthy_opt (response data ≫= Nlk.error) = false ->
  fetchBooks net editorRecommend ttbKey (Some key) page w =
  (inr (match response data ≫= Nlk.docs with
        | Some docs => map mapNlkWrapperToBook docs
        | None => []
        end), w1).
Proof.
  intros Hkey Hfetch Herr.
  unfold fetchBooks, try_catch, bind, Date_now. simpl.
  rewrite Hkey. simpl. rewrite Hfetch, Herr.
  destruct (response data ≫= Nlk.docs); reflexivity.
Qed.

Lemma fetchBooks_library_result (ttbKey nlkKey : option string) (page : Z)
    (w w' : World) (result : list Book) :
  fetchBooks net editorRecommend ttbKey nlkKey page w = (inr result, w') ->
  Forall (fun b => status b = Some discovery) result.
Proof.
  intros H. unfold fetchBooks in H. apply try_rethrow_inr in H.
  destruct (negb (truthy_opt nlkKey)); [discriminate |].
  apply bind_inr in H as (t & w1 & _ & H).
  apply bind_inr in H as (data & w2 & _ & H).
  destruct (truthy_opt (response data ≫= Nlk.error)); [discriminate |].
  destruct (response data ≫= Nlk.docs) as [docs |];
    injection H as <- _; [| constructor].
  apply Forall_map. apply List.Forall_forall. intros; reflexivity.
Qed.

Lemma searchBooks_result (query ttbKey : string) (target : SearchTarget)
    (page : Z) (w w' : World) (result : list Book) :
  searchBooks net query ttbKey target page w = (inr result, w') ->
  exists books, result = List.filter isNotComic books /\
                Forall (fun b => status b = Some discovery) books.
Proof.
  unfold searchBooks. intros H.
  destruct (negb (truthy query) || negb (truthy ttbKey)).
  - injection H as <- _. exists []. split; [reflexivity | constructor].
  - apply bind_inr in H as (t & w1 & _ & H).
    apply try_rethrow_inr in H.
    apply bind_inr in H as (data & w2 & _ & H).
    destruct (truthy_num (errorCode data)); [discriminate |].
    destruct (item data) as [items |]; injection H as <- _.
    + eexists. split; [reflexivity |].
      apply List.Forall_forall. intros b Hb.
      apply filter_In in Hb as [Hb _]. apply in_map_iff in Hb as (it & <- & _).
      reflexivity.
    + exists []. split; [reflexivity | constructor].
Qed.

(** What the combined source makes of the two bodies when the join has
    resolved. *)
Lemma fetchBooks_combined_settled (key : string) (nlkKey : option string)
    (page : Z) (w w2 : World) (bestsellerData newSpecialData : Json) :
  truthy key = true ->
  let commonParams := commonParams_of (trim key) page (clock w) in
  Promise_all net (itemListUrl commonParams "Bestseller")
    (itemListUrl commonParams "ItemNewSpecial") w
  = (inr (bestsellerData, newSpecialData), w2) ->
  fetchBooks net combined (Some key) nlkKey page w =
  if truthy_num (errorCode bestsellerData)
  then let e := mkError ("Aladin Bestseller Error: " ++
                         template (errorMessage bestsellerData)) in
       (inl e, snd (log (console_error "Fetching books failed" e) w2))
  else if truthy_num (errorCode newSpecialData)
  then let e := mkError ("Aladin NewSpecial Error: " ++
                         template (errorMessage newSpecialData)) in
       (inl e, snd (log (console_error "Fetching books failed" e) w2))
  else (inr (List.filter isNotComic
               (mergeUnique (listed bestsellerData) (listed newSpecialData))), w2).
Proof.
  intros Hkey commonParams Hall.
  unfold fetchBooks, try_catch, bind, Date_now. simpl.
  rewrite Hkey. simpl. fold commonParams. rewrite Hall. cbn [fst snd].
  destruct (truthy_num (errorCode bestsellerData)); [reflexivity |].
  destruct (truthy_num (errorCode newSpecialData)); reflexivity.
Qed.

(** The combined source when the first request of each listing is
    accepted: two requests are made, the bestseller one first, whatever
    the order in which the two calls are served. *)
Lemma fetchBooks_combined_at_once (key : string) (nlkKey : option string)
    (page : Z) (w : World) (bestsellerData newSpecialData : Json) :
  truthy key = true ->
  let commonParams := commonParams_of (trim key) page (clock w) in
  let bestsellerUrl := itemListUrl commonParams "Bestseller" in
  let newSpecialUrl := itemListUrl commonParams "ItemNewSpecial" in
  accept (net (length (requests w)) (first_proxy bestsellerUrl))
  = inr bestsellerData ->
  accept (net (S (length (requests w))) (first_proxy newSpecialUrl))
  = inr newSpecialData ->
  Promise_all net bestsellerUrl newSpecialUrl w =
  (inr (bestsellerData, newSpecialData),
   requested (first_proxy newSpecialUrl) (requested (first_proxy bestsellerUrl) w)).
Proof.
  intros Hkey commonParams bestsellerUrl newSpecialUrl HB HN.
  unfold Promise_all, PROXIES.
  exact (Promise_all_at_once net first_proxy _ bestsellerUrl newSpecialUrl w
           bestsellerData newSpecialData HB HN).
Qed.

(** Whatever the combined source resolves with is the filtered merge of
    two bodies without error code, each the body of an accepted request
    for its listing. *)
Lemma fetchBooks_combined_result (ttbKey nlkKey : option string) (page : Z)
    (w w' : World) (result : list Book) :
  fetchBooks net combined ttbKey nlkKey page w = (inr result, w') ->
  (truthy_opt ttbKey = false /\ result = [] /\ w' = w) \/
  exists bestsellerData newSpecialData,
    let commonParams := commonParams_of (trim (default "" ttbKey)) page (clock w) in
    answered net PROXIES (itemListUrl commonParams "Bestseller") w' bestsellerData /\
    answered net PROXIES (itemListUrl commonParams "ItemNewSpecial") w'
      newSpecialData /\
    truthy_num (errorCode bestsellerData) = false /\
    truthy_num (errorCode newSpecialData) = false /\
    result = List.filter isNotComic
               (mergeUnique (listed bestsellerData) (listed newSpecialData)).
Proof.
  intros H. unfold fetchBooks in H. apply try_rethrow_inr in H.
  destruct (truthy_opt ttbKey) eqn:Hkey; cbn [negb] in H.
  2: { injection H as <- <-. now left. }
  apply bind_inr in H as (t & w1 & Ht & H). injection Ht as <- <-.
  apply bind_inr in H as (books & w2 & Hbooks & H).
  injection H as <- <-.
  apply bind_inr in Hbooks as ([bestsellerData newSpecialData] & w3 & Hall & Hbooks).
  cbv zeta in Hbooks. cbn [fst snd] in Hbooks.
  destruct (truthy_num (errorCode bestsellerData)) eqn:HeB; [discriminate |].
  destruct (truthy_num (errorCode newSpecialData)) eqn:HeN; [discriminate |].
  injection Hbooks as <- <-.
  apply Promise_all_answered in Hall as (Ha & Hb & _).
  right. exists bestsellerData, newSpecialData. repeat split; auto.
Qed.

End CatalogProps.

(** C7.  Whatever a commercial-catalogue source ([bestseller],
    [itemNewSpecial], [combined]) or the search returns contains no book
    whose category path carries the comics marker; the library source
    ([editorRecommend]) returns every listed document, with its category
    kept as it is, the marker included. *)
Theorem comic_filter_by_source `{rt : Runtime} (net : Network Json)
    (ttbKey nlkKey : option string) (page : Z) (w : World) :
  (forall source w' result,
     source <> editorRecommend ->
     fetchBooks net source ttbKey nlkKey page w = (inr result, w') ->
     forall b, In b result -> ~ is_comic b) /\
  (forall query key target w' result,
     searchBooks net query key target page w = (inr result, w') ->
     forall b, In b result -> ~ is_comic b) /\
  (forall key data w1 docs,
     nlkKey = Some key -> truthy key = true ->
     fetchWithRetry net (recommandListUrl (trim key) page (clock w)) w
     = (inr data, w1) ->
     truthy_opt (response data ≫= Nlk.error) = false ->
     response data ≫= Nlk.docs = Some docs ->
     exists result,
       fetchBooks net editorRecommend ttbKey nlkKey page w = (inr result, w1) /\
       forall wrapper, In wrapper docs ->
         In (mapNlkWrapperToBook wrapper) result /\
         categoryName (mapNlkWrapperToBook wrapper) = Nlk.class_nm (Nlk.doc wrapper)).
Proof.
  split; [| split].
  - intros source w' result Hsrc H b Hb.
    apply fetchBooks_catalog_result in H as (books & -> & _); [| exact Hsrc].
    apply filter_In in Hb as [_ Hb]. now apply isNotComic_true_iff.
  - intros query key target w' result H b Hb.
    apply searchBooks_result in H as (books & -> & _).
    apply filter_In in Hb as [_ Hb]. now apply isNotComic_true_iff.
  - intros key data w1 docs -> Hkey Hfetch Herr Hdocs.
    eexists. split.
    + rewrite (fetchBooks_library_settled net ttbKey key page w w1 data
                 Hkey Hfetch Herr), Hdocs. reflexivity.
    + intros wrapper Hin. split; [now apply in_map | reflexivity].
Qed.

Lemma comic_filter_by_source_witness :
  let shop := Host.always (Sample.listing [Sample.comic; Sample.novel]) in
  let library := Host.always (Sample.recommendation [Sample.comic_doc]) in
  let w1 := snd (fetchBooks (rt:=Host.runtime) library editorRecommend None
                   (Some "nlksample") 1 Host.world0) in
  (forall b, In b [Sample.a_novel] -> ~ is_comic b) /\
  (is_comic (mapNlkWrapperToBook Sample.comic_doc) /\
   exists result,
     fetchBooks (rt:=Host.runtime) library editorRecommend None (Some "nlksample")
       1 Host.world0 = (inr result, w1) /\
     forall wrapper, In wrapper [Sample.comic_doc] ->
       In (mapNlkWrapperToBook wrapper) result /\
       categoryName (mapNlkWrapperToBook wrapper) = Nlk.class_nm (Nlk.doc wrapper)).
Proof.
  intros shop library w1. split; [| split].
  - apply (proj1 (comic_filter_by_source (rt:=Host.runtime) shop
                    (Some "ttbsample0001") None 1 Host.world0)
             bestseller
             (snd (fetchBooks (rt:=Host.runtime) shop bestseller
                     (Some "ttbsample0001") None 1 Host.world0))
             [Sample.a_novel]);
      [discriminate | reflexivity].
  - exists "예술 > 만화". split; reflexivity.
  - apply (proj2 (proj2 (comic_filter_by_source (rt:=Host.runtime) library
                           None (Some "nlksample") 1 Host.world0))
             "nlksample" (Sample.recommendation [Sample.comic_doc]) w1
             [Sample.comic_doc]); reflexivity.
Defined.

(** ** The combined source *)

Lemma mergeUnique_entries (books : list Book) :
  map fst (map (fun item : Book => (id item, item)) books) = ids books.
Proof. rewrite map_map. reflexivity. Qed.

(** The merged list has one entry for every id of either list. *)
Lemma mergeUnique_length (B N : list Book) :
  length (mergeUnique B N) = size (id_set B ∪ id_set N).
Proof.
  unfold mergeUnique, Map_new, Map_values. fold (Map_fill
    (map (fun item : Book => (id item, item)) (B ++ N)) []).
  set (m := Map_fill _ _).
  rewrite length_map, <- (length_map fst m). fold (keys m).
  assert (Hnd : NoDup (keys m)) by (apply Map_fill_NoDup; constructor).
  rewrite <- (size_list_to_set (C:=gset string) (keys m) Hnd).
  f_equal. apply set_eq. intros k.
  rewrite elem_of_list_to_set, elem_of_union. unfold id_set.
  rewrite !elem_of_list_to_set, !list_elem_of_In.
  subst m. rewrite Map_fill_keys_In, mergeUnique_entries.
  unfold ids. rewrite map_app, in_app_iff. simpl. tauto.
Qed.

(** Among entries of the same id, the one of the second list is kept. *)
Lemma mergeUnique_last_wins (B N : list Book) (b n : Book) :
  NoDup (ids N) -> In b (mergeUnique B N) -> In n N -> id b = id n -> b = n.
Proof.
  intros HN Hb Hn Hid.
  unfold mergeUnique, Map_new, Map_values in Hb.
  fold (Map_fill (map (fun item : Book => (id item, item)) (B ++ N)) []) in Hb.
  set (m := Map_fill _ _) in Hb.
  assert (Hnd : NoDup (keys m)) by (apply Map_fill_NoDup; constructor).
  assert (Hkeyed : keyed id m).
  { apply Map_fill_keyed; [| intros k v []].
    intros k v Hin. apply in_map_iff in Hin as (x & [= <- <-] & _). reflexivity. }
  apply in_map_iff in Hb as ([k b'] & Hsnd & Hin). simpl in Hsnd. subst b'.
  pose proof (Hkeyed _ _ Hin) as ->.
  apply (In_Map_get _ _ _ Hnd) in Hin.
  assert (Hget : Map_get (id n) m = Some n).
  { subst m. rewrite map_app, Map_fill_app. apply Map_fill_get.
    - now rewrite mergeUnique_entries.
    - apply in_map_iff. exists n. split; [reflexivity | exact Hn]. }
  rewrite Hid in Hin. congruence.
Qed.

(** Every entry of the second list is in the merged list. *)
Lemma mergeUnique_keeps_second (B N : list Book) (n : Book) :
  NoDup (ids N) -> In n N -> In n (mergeUnique B N).
Proof.
  intros HN Hn. unfold mergeUnique, Map_new, Map_values.
  fold (Map_fill (map (fun item : Book => (id item, item)) (B ++ N)) []).
  apply in_map_iff. exists (id n, n). split; [reflexivity |].
  apply Map_get_In. rewrite map_app, Map_fill_app. apply Map_fill_get.
  - now rewrite mergeUnique_entries.
  - apply in_map_iff. exists n. split; [reflexivity | exact Hn].
Qed.

(** So is every entry of the first list whose id the second list does
    not name. *)
Lemma mergeUnique_keeps_first (B N : list Book) (b : Book) :
  NoDup (ids B) -> In b B -> ~ In (id b) (ids N) -> In b (mergeUnique B N).
Proof.
  intros HB Hb Hnot. unfold mergeUnique, Map_new, Map_values.
  fold (Map_fill (map (fun item : Book => (id item, item)) (B ++ N)) []).
  apply in_map_iff. exists (id b, b). split; [reflexivity |].
  apply Map_get_In. rewrite map_app, Map_fill_app.
  rewrite Map_fill_get_other by now rewrite mergeUnique_entries.
  apply Map_fill_get.
  - now rewrite mergeUnique_entries.
  - apply in_map_iff. exists b. split; [reflexivity | exact Hb].
Qed.

Lemma size_union_inclusion_exclusion (X Y : gset string) :
  size (X ∪ Y) = (size X + size Y - size (X ∩ Y))%nat.
Proof.
  rewrite size_union_alt, size_difference_alt.
  rewrite (comm_L (∩) Y X).
  pose proof (subseteq_size _ _ (intersection_subseteq_r X Y)). lia.
Qed.

(** C2, the claim as stated fails: with a bestseller list that names one
    id twice, the two lists share no id, yet the merged list is shorter
    than the two lists together. *)
Lemma combined_merge_repeated_id :
  let B := map mapAladinItemToBook [Sample.novel; Sample.novel_reissue] in
  let N := map mapAladinItemToBook [Sample.essay] in
  let result := [mapAladinItemToBook Sample.novel_reissue;
                 mapAladinItemToBook Sample.essay] in
  fst (fetchBooks (rt:=Host.runtime)
         (Sample.by_query_type
            (Sample.listing [Sample.novel; Sample.novel_reissue])
            (Sample.listing [Sample.essay]))
         combined (Some "ttbsample0001") None 1 Host.world0) = inr result /\
  size (id_set B ∩ id_set N) = 0%nat /\
  length result <> (length B + length N - size (id_set B ∩ id_set N))%nat.
Proof.
  intros B N result.
  assert (Hk : size (id_set B ∩ id_set N) = 0%nat) by (vm_compute; reflexivity).
  split; [vm_compute; reflexivity |]. split; [exact Hk |].
  rewrite Hk. simpl. lia.
Qed.

(** C2, amended.  For the [combined] source, with the catalogue key set.
    Whatever the call resolves with, and in whatever order the event loop
    served the two listing calls that [Promise.all] joins, is the merge of
    a bestseller body and a new-special body, each the body of an
    accepted request for its listing, with the comics filter applied.  The
    call does resolve so, after two requests, when the first request of
    each listing is accepted and neither body carries an error code.  And
    the merge of a list [B] and a list [N] neither of which repeats an
    id, sharing [k] ids, has [|B| + |N| - k] entries; it holds every
    record of [N], every record of [B] whose id is not in [N], and for an
    id of [N] no other record than the one of [N]. *)
Theorem combined_merge `{rt : Runtime} (net : Network Json) (key : string)
    (nlkKey : option string) (page : Z) (w : World) :
  let commonParams := commonParams_of (trim key) page (clock w) in
  let bestsellerUrl := itemListUrl commonParams "Bestseller" in
  let newSpecialUrl := itemListUrl commonParams "ItemNewSpecial" in
  truthy key = true ->
  (forall result w',
     fetchBooks net combined (Some key) nlkKey page w = (inr result, w') ->
     exists bestsellerData newSpecialData,
       answered net PROXIES bestsellerUrl w' bestsellerData /\
       answered net PROXIES newSpecialUrl w' newSpecialData /\
       truthy_num (errorCode bestsellerData) = false /\
       truthy_num (errorCode newSpecialData) = false /\
       result = List.filter isNotComic
                  (mergeUnique (listed bestsellerData) (listed newSpecialData))) /\
  (forall bestsellerData newSpecialData,
     accept (net (length (requests w)) (first_proxy bestsellerUrl))
     = inr bestsellerData ->
     accept (net (S (length (requests w))) (first_proxy newSpecialUrl))
     = inr newSpecialData ->
     truthy_num (errorCode bestsellerData) = false ->
     truthy_num (errorCode newSpecialData) = false ->
     fetchBooks net combined (Some key) nlkKey page w =
     (inr (List.filter isNotComic
             (mergeUnique (listed bestsellerData) (listed newSpecialData))),
      requested (first_proxy newSpecialUrl)
        (requested (first_proxy bestsellerUrl) w))) /\
  (forall B N : list Book,
     NoDup (ids B) -> NoDup (ids N) ->
     let k := size (id_set B ∩ id_set N) in
     let merged := mergeUnique B N in
     length merged = (length B + length N - k)%nat /\
     (forall n, In n N -> In n merged) /\
     (forall b, In b B -> ~ In (id b) (ids N) -> In b merged) /\
     (forall b n, In b merged -> In n N -> id b = id n -> b = n)).
Proof.
  intros commonParams bestsellerUrl newSpecialUrl Hkey. split; [| split].
  - intros result w' H.
    apply fetchBooks_combined_result in H
      as [(Hno & _) | (bestsellerData & newSpecialData & H)].
    + cbn [truthy_opt] in Hno. congruence.
    + exists bestsellerData, newSpecialData. exact H.
  - intros bestsellerData newSpecialData HB HN HeB HeN.
    rewrite (fetchBooks_combined_settled net key nlkKey page w _
               bestsellerData newSpecialData Hkey
               (fetchBooks_combined_at_once net key nlkKey page w
                  bestsellerData newSpecialData Hkey HB HN)).
    now rewrite HeB, HeN.
  - intros B N HndB HndN k merged. repeat apply conj.
    + subst merged k. rewrite mergeUnique_length, size_union_inclusion_exclusion.
      unfold id_set. rewrite !size_list_to_set by assumption.
      unfold ids. now rewrite !length_map.
    + intros n Hn. now apply mergeUnique_keeps_second.
    + intros b Hb Hnot. now apply mergeUnique_keeps_first.
    + intros b n Hb Hn Hid. exact (mergeUnique_last_wins B N b n HndN Hb Hn Hid).
Qed.

Lemma combined_merge_witness :
  let bestsellerData := Sample.listing [Sample.novel; Sample.comic] in
  let newSpecialData := Sample.listing [Sample.essay; Sample.novel_reissue] in
  let net := Sample.by_query_type bestsellerData newSpecialData in
  let B := listed bestsellerData in
  let N := listed newSpecialData in
  fst (fetchBooks (rt:=Host.runtime) net combined (Some "ttbsample0001") None 1
         Host.world0)
  = inr [mapAladinItemToBook Sample.novel_reissue; mapAladinItemToBook Sample.essay] /\
  length (mergeUnique B N) = (length B + length N - size (id_set B ∩ id_set N))%nat /\
  (forall n, In n N -> In n (mergeUnique B N)) /\
  (forall b n, In b (mergeUnique B N) -> In n N -> id b = id n -> b = n).
Proof.
  intros bestsellerData newSpecialData net B N.
  destruct (combined_merge (rt:=Host.runtime) net "ttbsample0001" None 1
              Host.world0 eq_refl) as (_ & Hrun & Hmerge).
  split.
  - rewrite (Hrun bestsellerData newSpecialData eq_refl eq_refl eq_refl eq_refl).
    vm_compute. reflexivity.
  - assert (HB : NoDup (ids B)) by (apply (bool_decide_unpack _); vm_compute; exact I).
    assert (HN : NoDup (ids N)) by (apply (bool_decide_unpack _); vm_compute; exact I).
    destruct (Hmerge B N HB HN) as (Hlen & Hsecond & _ & Hlast).
    exact (conj Hlen (conj Hsecond Hlast)).
Defined.

(** ** The board *)

Lemma without_In (book b : Book) (l : list Book) :
  In b (without book l) <-> In b l /\ id b <> id book.
Proof.
  unfold without. rewrite filter_In, negb_true_iff.
  split; intros [H1 H2]; (split; [exact H1 |]).
  - intros Heq. rewrite Heq, String.eqb_refl in H2. discriminate.
  - destruct (String.eqb (id b) (id book)) eqn:E; [| reflexivity].
    apply String.eqb_eq in E. contradiction.
Qed.

Lemma ids_without (book : Book) (l : list Book) (k : string) :
  In k (ids (without book l)) <-> In k (ids l) /\ k <> id book.
Proof.
  unfold ids. rewrite !in_map_iff. split.
  - intros (b & <- & Hb). apply without_In in Hb as [Hb Hne]. eauto.
  - intros [(b & <- & Hb) Hne]. exists b. split; [reflexivity |].
    apply without_In. auto.
Qed.

Lemma ids_without_filter (book : Book) (l : list Book) :
  ids (without book l) =
  List.filter (fun k => negb (String.eqb k (id book))) (ids l).
Proof.
  unfold ids, without. induction l as [| b l IH]; simpl; [reflexivity |].
  destruct (negb (String.eqb (id b) (id book))); simpl; now rewrite IH.
Qed.

Lemma NoDup_ids_without (book : Book) (l : list Book) :
  NoDup (ids l) -> NoDup (ids (without book l)).
Proof.
  intros H. rewrite ids_without_filter.
  apply NoDup_ListNoDup, List.NoDup_filter, NoDup_ListNoDup, H.
Qed.

Lemma Forall_without (P : Book -> Prop) (book : Book) (l : list Book) :
  Forall P l -> Forall P (without book l).
Proof.
  rewrite !List.Forall_forall. intros H b Hb. apply H.
  now apply without_In in Hb as [Hb _].
Qed.

Lemma fresh_In (excluded : gset string) (data : list Book) (b : Book) :
  In b (fresh excluded data) <-> In b data /\ id b ∉ excluded.
Proof.
  unfold fresh. rewrite filter_In, negb_true_iff, bool_decide_eq_false. tauto.
Qed.

Lemma in_id_set (books : list Book) (k : string) :
  k ∈ id_set books <-> In k (ids books).
Proof. unfold id_set. now rewrite elem_of_list_to_set, list_elem_of_In. Qed.

Lemma ids_app (l1 l2 : list Book) : ids (l1 ++ l2) = (ids l1 ++ ids l2)%list.
Proof. apply map_app. Qed.

Lemma without_absent (book : Book) (l : list Book) :
  ~ In (id book) (ids l) -> without book l = l.
Proof.
  unfold without, ids. induction l as [| b l IH]; simpl; [reflexivity |].
  intros Hnot. destruct (String.eqb (id b) (id book)) eqn:E.
  - apply String.eqb_eq in E. tauto.
  - simpl. f_equal. apply IH. tauto.
Qed.

Lemma without_head (book card : Book) (l : list Book) :
  id card = id book -> without book (card :: l) = without book l.
Proof.
  intros Heq. unfold without. simpl. now rewrite Heq, String.eqb_refl.
Qed.

(** In a list that names no id twice, removing the entries with the id of
    one of its books removes that book and nothing else. *)
Lemma without_only (book : Book) (l : list Book) :
  NoDup (ids l) -> In book l ->
  exists before after,
    l = (before ++ book :: after)%list /\
    without book l = (before ++ after)%list.
Proof.
  intros Hnd Hin. apply in_split in Hin as (before & after & ->).
  exists before, after. split; [reflexivity |].
  rewrite ids_app in Hnd. cbn [ids map] in Hnd.
  apply NoDup_app in Hnd as (_ & Hcross & Hnd).
  apply NoDup_cons in Hnd as [Hafter _].
  assert (Hbefore : ~ In (id book) (ids before)).
  { intros H. apply (Hcross (id book)); [now apply list_elem_of_In |].
    apply list_elem_of_In. now left. }
  unfold without. rewrite List.filter_app. cbn [List.filter].
  rewrite String.eqb_refl. cbn [negb].
  fold (without book before). fold (without book after).
  rewrite !without_absent; auto.
  intros H. apply Hafter. now apply list_elem_of_In.
Qed.

(** [{ ...book, status: st }] is [book] when [st] is its status. *)
Lemma with_status_same (book : Book) (st : BookStatus) :
  status book = Some st -> with_status book st = book.
Proof. destruct book. cbn [status with_status]. now intros ->. Qed.

Lemma board_ok_initial : board_ok initial.
Proof.
  constructor; simpl; try constructor. intros b [].
Qed.

(** The lists of a well-formed board tell the stage of a book by its status. *)
Lemma board_ok_stage (s : State) (book : Book) :
  board_ok s ->
  In book (discoveryBooks s ++ reviewBooks s ++ confirmedBooks s) ->
  (In book (discoveryBooks s) /\ status book = Some discovery) \/
  (In book (reviewBooks s) /\ status book = Some review) \/
  (In book (confirmedBooks s) /\ status book = Some confirmed).
Proof.
  intros [Hd Hr Hc _ _ _] Hin.
  rewrite List.Forall_forall in Hd, Hr, Hc.
  rewrite !in_app_iff in Hin. destruct Hin as [H | [H | H]]; auto 6.
Qed.

Section BoardSteps.
Variable s : State.
Hypothesis Hok : board_ok s.

Lemma staged_ids_NoDup : NoDup (ids (reviewBooks s) ++ ids (confirmedBooks s)).
Proof. rewrite <- ids_app. apply (ok_staged_once s Hok). Qed.

Lemma staged_review_not_confirmed (k : string) :
  In k (ids (reviewBooks s)) -> ~ In k (ids (confirmedBooks s)).
Proof.
  pose proof staged_ids_NoDup as Hnd'.
  apply NoDup_app in Hnd' as (_ & H & _). intros Hr Hc.
  apply (H k); now apply list_elem_of_In.
Qed.

Lemma add_ok (book : Book) :
  In book (discoveryBooks s) -> board_ok (excludedIdsEffect (moveBook book add s)).
Proof.
  intros Hin. destruct Hok as [Hd Hr Hc Hs Hdis Href].
  constructor; simpl.
  - now apply Forall_without.
  - constructor; [reflexivity | exact Hr].
  - exact Hc.
  - unfold staged in *. simpl. constructor; [| exact Hs].
    intros H. apply list_elem_of_In in H. now apply (Hdis book).
  - intros b Hb. apply without_In in Hb as [Hb Hne].
    unfold staged in *. simpl. intros [Heq | H].
    + now apply Hne.
    + now apply (Hdis b).
  - reflexivity.
Qed.

Lemma approve_ok (book : Book) :
  In book (reviewBooks s) ->
  board_ok (excludedIdsEffect (moveBook book approve s)).
Proof.
  intros Hin. pose proof staged_ids_NoDup as Hnd'. destruct Hok as [Hd Hr Hc Hs Hdis Href].
  assert (Hk : In (id book) (ids (reviewBooks s))) by now apply in_map.
  apply NoDup_app in Hnd' as (Hnr & Hrc & Hnc).
  constructor; simpl.
  - exact Hd.
  - now apply Forall_without.
  - constructor; [reflexivity | exact Hc].
  - unfold staged. simpl. rewrite ids_app. simpl. apply NoDup_app. repeat split.
    + now apply NoDup_ids_without.
    + intros k Hk1 Hk2. apply list_elem_of_In in Hk1, Hk2.
      apply ids_without in Hk1 as [Hk1 Hne]. destruct Hk2 as [Heq | Hk2].
      * now apply Hne.
      * apply (Hrc k); now apply list_elem_of_In.
    + constructor; [| exact Hnc].
      intros H. apply (Hrc (id book)); [now apply list_elem_of_In | exact H].
  - intros b Hb. unfold staged in *. simpl. rewrite ids_app, in_app_iff. simpl.
    specialize (Hdis b Hb). rewrite ids_app, in_app_iff in Hdis.
    intros [H | [Heq | H]].
    + apply ids_without in H as [H _]. tauto.
    + rewrite <- Heq in Hdis. tauto.
    + tauto.
  - reflexivity.
Qed.

Lemma discard_ok (book : Book) :
  status book = Some review ->
  board_ok (excludedIdsEffect (moveBook book return' s)).
Proof.
  intros Hst. pose proof staged_ids_NoDup as Hnd'. destruct Hok as [Hd Hr Hc Hs Hdis Href].
  apply NoDup_app in Hnd' as (Hnr & Hrc & Hnc).
  unfold moveBook. rewrite Hst.
  constructor; simpl.
  - exact Hd.
  - now apply Forall_without.
  - exact Hc.
  - unfold staged. simpl. rewrite ids_app. apply NoDup_app. repeat split.
    + now apply NoDup_ids_without.
    + intros k Hk1. apply list_elem_of_In in Hk1.
      apply ids_without in Hk1 as [Hk1 _]. apply Hrc. now apply list_elem_of_In.
    + exact Hnc.
  - intros b Hb. unfold staged in *. simpl. rewrite ids_app, in_app_iff.
    specialize (Hdis b Hb). rewrite ids_app, in_app_iff in Hdis.
    intros [H | H]; [apply ids_without in H as [H _] |]; tauto.
  - reflexivity.
Qed.

Lemma return_ok (book : Book) :
  In book (confirmedBooks s) -> status book = Some confirmed ->
  board_ok (excludedIdsEffect (moveBook book return' s)).
Proof.
  intros Hin Hst. pose proof staged_ids_NoDup as Hnd'. destruct Hok as [Hd Hr Hc Hs Hdis Href].
  assert (Hk : In (id book) (ids (confirmedBooks s))) by now apply in_map.
  apply NoDup_app in Hnd' as (Hnr & Hrc & Hnc).
  unfold moveBook. rewrite Hst.
  constructor; simpl.
  - exact Hd.
  - constructor; [reflexivity | exact Hr].
  - now apply Forall_without.
  - unfold staged. simpl. constructor.
    + rewrite list_elem_of_In, ids_app, in_app_iff. intros [H | H].
      * apply (Hrc (id book)); now apply list_elem_of_In.
      * apply ids_without in H as [_ H]. now apply H.
    + rewrite ids_app. apply NoDup_app. repeat split.
      * exact Hnr.
      * intros k Hk1 Hk2. apply list_elem_of_In in Hk2.
        apply ids_without in Hk2 as [Hk2 _].
        apply (Hrc k); [exact Hk1 | now apply list_elem_of_In].
      * now apply NoDup_ids_without.
  - intros b Hb. unfold staged in *. simpl. rewrite ids_app, in_app_iff.
    specialize (Hdis b Hb). rewrite ids_app, in_app_iff in Hdis.
    intros [Heq | [H | H]].
    + rewrite <- Heq in Hdis. tauto.
    + tauto.
    + apply ids_without in H as [H _]. tauto.
  - reflexivity.
Qed.

(** Installing a list of fresh discovery books. *)
Lemma install_ok (data : list Book) (s' : State) :
  Forall (fun b => status b = Some discovery) data ->
  discoveryBooks s' = fresh (excludedIdsRef s) data ->
  reviewBooks s' = reviewBooks s -> confirmedBooks s' = confirmedBooks s ->
  board_ok (excludedIdsEffect s').
Proof.
  intros Hdata Hd' Hr' Hc'. destruct Hok as [Hd Hr Hc Hs Hdis Href].
  constructor; unfold staged in *; simpl; rewrite ?Hd', ?Hr', ?Hc'; try assumption.
  - rewrite List.Forall_forall in *. intros b Hb.
    apply fresh_In in Hb as [Hb _]. now apply Hdata.
  - intros b Hb. apply fresh_In in Hb as [_ Hb].
    rewrite Href, in_id_set in Hb. exact Hb.
  - reflexivity.
Qed.

(** Keeping or emptying the discovery list. *)
Lemma keep_ok (s' : State) :
  (discoveryBooks s' = discoveryBooks s \/ discoveryBooks s' = []) ->
  reviewBooks s' = reviewBooks s -> confirmedBooks s' = confirmedBooks s ->
  board_ok (excludedIdsEffect s').
Proof.
  intros Hd' Hr' Hc'. destruct Hok as [Hd Hr Hc Hs Hdis Href].
  constructor; unfold staged in *; simpl; rewrite ?Hr', ?Hc'; try assumption.
  - destruct Hd' as [-> | ->]; [exact Hd | constructor].
  - destruct Hd' as [-> | ->]; [exact Hdis | intros b []].
  - reflexivity.
Qed.

End BoardSteps.

Section BoardInvariant.
Context `{rt : Runtime}.

Lemma fetchBooks_status (net : Network Json) (source : FetchSource)
    (ttbKey nlkKey : option string) (page : Z) (w w' : World)
    (result : list Book) :
  fetchBooks net source ttbKey nlkKey page w = (inr result, w') ->
  Forall (fun b => status b = Some discovery) result.
Proof.
  intros H. destruct source.
  1-3: apply fetchBooks_catalog_result in H as (books & -> & Hst);
       [| discriminate];
       rewrite List.Forall_forall in *; intros b Hb;
       apply filter_In in Hb as [Hb _]; now apply Hst.
  now apply fetchBooks_library_result in H.
Qed.

Lemma board_ok_dispatch (s : State) (ev : Event) :
  board_ok s -> enabled ev s -> board_ok (dispatch ev s).
Proof.
  intros Hok Hen. unfold dispatch. destruct ev; simpl handle.
  - destruct Hen as [Hin Hact].
    unfold renderActions, currentStatus in Hact.
    destruct (board_ok_stage s book Hok Hin) as [[Hb Hst] | [[Hb Hst] | [Hb Hst]]];
      rewrite Hst in Hact; simpl in Hact.
    + destruct Hact as [<- | []]. now apply add_ok.
    + destruct Hact as [<- | [<- | []]];
        [now apply discard_ok | now apply approve_ok].
    + destruct Hact as [<- | []]. now apply return_ok.
  - unfold loadDiscoveryBooks_begin.
    destruct source;
      match goal with
      | |- context [if ?c then _ else _] => destruct c
      end; simpl; apply (keep_ok s Hok); simpl; auto.
  - destruct (fetchBooks net source (Some (aladinTtb apiKeys)) (nlkApiKey apiKeys)
                currentPage w) as [[error | data] w'] eqn:Hfetch; simpl.
    + apply (keep_ok s Hok); simpl; auto.
    + apply (install_ok s Hok data); simpl; auto.
      now apply fetchBooks_status in Hfetch.
  - unfold handleSearch_begin.
    destruct (negb (truthy (trim searchQuery)) || negb (truthy (aladinTtb apiKeys)));
      simpl; [apply (keep_ok s Hok); auto |].
    destruct (targetPage =? 1); apply (keep_ok s Hok); simpl; auto.
  - destruct (searchBooks net searchQuery (aladinTtb apiKeys) searchTarget
                targetPage w) as [[error | data] w'] eqn:Hsearch; simpl.
    + apply (keep_ok s Hok); simpl; auto.
    + apply searchBooks_result in Hsearch as (books & -> & Hst).
      apply (install_ok s Hok (List.filter isNotComic books)).
      * rewrite List.Forall_forall in *. intros b Hb.
        apply filter_In in Hb as [Hb _]. now apply Hst.
      * unfold handleSearch_settle.
        destruct (length (List.filter isNotComic books) =? 0)%nat; reflexivity.
      * unfold handleSearch_settle.
        destruct (length (List.filter isNotComic books) =? 0)%nat; reflexivity.
      * unfold handleSearch_settle.
        destruct (length (List.filter isNotComic books) =? 0)%nat; reflexivity.
  - apply (keep_ok s Hok); simpl; auto.
  - apply (keep_ok s Hok); simpl; auto.
  - apply (keep_ok s Hok); simpl; auto.
Qed.

(** Every state the application reaches is a well-formed board. *)
Lemma reachable_ok (s : State) : reachable s -> board_ok s.
Proof.
  induction 1 as [| s ev _ IH Hen].
  - apply board_ok_initial.
  - now apply board_ok_dispatch.
Qed.

End BoardInvariant.

Lemma reachable_run `{rt : Runtime} (evs : list Event) :
  forall s, reachable s -> playable evs s -> reachable (run evs s).
Proof.
  induction evs as [| ev evs IH]; intros s Hs Hen; simpl.
  - exact Hs.
  - destruct Hen as [H1 H2]. apply IH; [| exact H2].
    now apply reachable_dispatch.
Qed.

Lemma reachable_reviewing : reachable (rt:=Host.runtime) Sample.reviewing.
Proof.
  apply (reachable_run (rt:=Host.runtime)); [apply reachable_initial |].
  vm_compute. repeat split; auto.
Qed.

Lemma reachable_approved : reachable (rt:=Host.runtime) Sample.approved.
Proof.
  apply (reachable_run (rt:=Host.runtime)); [apply reachable_initial |].
  vm_compute. repeat split; auto.
Qed.

Lemma reachable_reported : reachable (rt:=Host.runtime) Sample.reported.
Proof.
  apply (reachable_run (rt:=Host.runtime)); [apply reachable_initial |].
  vm_compute. repeat split; auto.
Qed.

Lemma reachable_analysed : reachable (rt:=Host.runtime) Sample.analysed.
Proof.
  apply (reachable_run (rt:=Host.runtime)); [apply reachable_initial |].
  vm_compute. repeat split; auto.
Qed.

(** ** Approving *)



(** ** Returning *)

Lemma staged_not_in_discovery (s : State) (k : string) :
  board_ok s -> In k (ids (staged s)) -> ~ In k (ids (discoveryBooks s)).
Proof.
  intros Hok Hk Hd. apply in_map_iff in Hd as (b & <- & Hb).
  exact (ok_disjoint s Hok b Hb Hk).
Qed.

(** C6.  [moveBook] with action ['return'] on a book whose status is
    ['confirmed'] removes the entries with its id from confirmed and puts
    the same record, its status now ['review'], at the head of review,
    leaves discovery as it is and clears the cached analysis report; on a
    book whose status is ['review'] it removes the entries with its id
    from review and changes nothing else.  In every state the application
    reaches, the books of confirmed and of review have these statuses,
    what is removed is that book and nothing else, a returned book of
    confirmed is not put into discovery, and after the return of a book
    of review its id is in none of the three collections. *)
Theorem return_book `{rt : Runtime} (s : State) (book : Book) :
  (status book = Some confirmed ->
   let s' := moveBook book return' s in
   confirmedBooks s' =
     List.filter (fun b => negb (String.eqb (id b) (id book))) (confirmedBooks s) /\
   ~ In (id book) (ids (confirmedBooks s')) /\
   reviewBooks s' =
     {| id := id book; title := title book; author := author book;
        publisher := publisher book; pubDate := pubDate book;
        cover := cover book; description := description book;
        isbn13 := isbn13 book; priceStandard := priceStandard book;
        priceSales := priceSales book; link := link book;
        categoryName := categoryName book; status := Some review |}
     :: reviewBooks s /\
   discoveryBooks s' = discoveryBooks s /\
   analysis s' = None) /\
  (status book = Some review ->
   let s' := moveBook book return' s in
   reviewBooks s' =
     List.filter (fun b => negb (String.eqb (id b) (id book))) (reviewBooks s) /\
   ~ In (id book) (ids (reviewBooks s')) /\
   discoveryBooks s' = discoveryBooks s /\
   confirmedBooks s' = confirmedBooks s /\
   analysis s' = analysis s) /\
  (reachable s -> In book (confirmedBooks s) ->
   let s' := moveBook book return' s in
   status book = Some confirmed /\
   (exists before after,
      confirmedBooks s = (before ++ book :: after)%list /\
      confirmedBooks s' = (before ++ after)%list) /\
   ~ In (id book) (ids (discoveryBooks s'))) /\
  (reachable s -> In book (reviewBooks s) ->
   let s' := moveBook book return' s in
   status book = Some review /\
   (exists before after,
      reviewBooks s = (before ++ book :: after)%list /\
      reviewBooks s' = (before ++ after)%list) /\
   ~ In (id book) (ids (discoveryBooks s' ++ reviewBooks s' ++ confirmedBooks s'))).
Proof.
  repeat apply conj.
  - intros Hst s'. subst s'. unfold moveBook. rewrite Hst. simpl.
    repeat split. intros H. apply ids_without in H as [_ H]. now apply H.
  - intros Hst s'. subst s'. unfold moveBook. rewrite Hst. simpl.
    repeat split. intros H. apply ids_without in H as [_ H]. now apply H.
  - intros Hreach Hin s'. subst s'. pose proof (reachable_ok s Hreach) as Hok.
    assert (Hst : status book = Some confirmed).
    { destruct Hok as [_ _ Hc _ _ _]. rewrite List.Forall_forall in Hc.
      now apply Hc. }
    assert (Hnc : NoDup (ids (confirmedBooks s))).
    { pose proof (staged_ids_NoDup s Hok) as H.
      now apply NoDup_app in H as (_ & _ & H). }
    split; [exact Hst |]. unfold moveBook. rewrite Hst. simpl. split.
    + exact (without_only book (confirmedBooks s) Hnc Hin).
    + apply (staged_not_in_discovery s _ Hok). unfold staged.
      rewrite ids_app, in_app_iff. right. now apply in_map.
  - intros Hreach Hin s'. subst s'. pose proof (reachable_ok s Hreach) as Hok.
    assert (Hst : status book = Some review).
    { destruct Hok as [_ Hr _ _ _ _]. rewrite List.Forall_forall in Hr.
      now apply Hr. }
    assert (Hnr : NoDup (ids (reviewBooks s))).
    { pose proof (staged_ids_NoDup s Hok) as H.
      now apply NoDup_app in H as (H & _). }
    split; [exact Hst |]. unfold moveBook. rewrite Hst. simpl. split.
    + exact (without_only book (reviewBooks s) Hnr Hin).
    + assert (Hk : In (id book) (ids (reviewBooks s))) by now apply in_map.
      rewrite !ids_app, !in_app_iff. intros [H | [H | H]].
      * revert H. apply (staged_not_in_discovery s _ Hok). unfold staged.
        rewrite ids_app, in_app_iff. now left.
      * apply ids_without in H as [_ H]. now apply H.
      * exact (staged_review_not_confirmed s Hok _ Hk H).
Qed.

Lemma return_book_witness :
  (let s' := moveBook Sample.in_confirmed return' Sample.analysed in
   analysis Sample.analysed = Some Sample.report /\
   confirmedBooks s' = [] /\
   reviewBooks s' =
     [ {| id := "1001"; title := "소설"; author := "저자"; publisher := "출판사";
          pubDate := "2024-04-15"; cover := "cover.jpg"; description := "";
          isbn13 := "9788900000000"; priceStandard := 15000; priceSales := 13500;
          link := "https://www.aladin.co.kr/";
          categoryName := Some "국내도서>소설"; status := Some review |};
       Sample.essay_in_review ] /\
   analysis s' = None) /\
  (let s' := moveBook Sample.essay_in_review return' Sample.analysed in
   reviewBooks s' = [] /\ confirmedBooks s' = [Sample.in_confirmed] /\
   analysis s' = Some Sample.report /\
   ~ In (id Sample.essay_in_review)
       (ids (discoveryBooks s' ++ reviewBooks s' ++ confirmedBooks s'))).
Proof.
  split.
  - destruct (return_book (rt:=Host.runtime) Sample.analysed Sample.in_confirmed)
      as (H & _ & _ & _).
    destruct (H eq_refl) as (Hc & _ & Hr & _ & Ha).
    cbv zeta. rewrite Hc, Hr, Ha. repeat split.
  - destruct (return_book (rt:=Host.runtime) Sample.analysed Sample.essay_in_review)
      as (_ & H & _ & H').
    destruct (H eq_refl) as (Hr & _ & _ & Hc & Ha).
    destruct (H' reachable_analysed ltac:(vm_compute; auto)) as (_ & _ & Hnone).
    cbv zeta. rewrite Hr, Hc, Ha. repeat split. exact Hnone.
Defined.

(** ** Discovery against the later stages *)




(** ** The order export *)

(** The file begins with the byte-order mark. *)
Lemma csvContent_bom (books : list Book) :
  String.prefix bom (csvContent books) = true.
Proof. unfold csvContent. apply prefix_append. Qed.

Lemma push_append (field : string) (c : ascii) (s : string) :
  push field c ++ s = field ++ String c s.
Proof.
  unfold push. induction field as [| c' field IH]; [reflexivity |].
  rewrite !append_cons. now rewrite IH.
Qed.

(** A field written the way the title, the author and the publisher are
    written, with its double quotes doubled, reads back as it was,
    whatever it holds. *)
Lemma escaped_field_reads_back (s : string) :
  forall (rest field : string) (record : list string)
         (records : list (list string)),
    read_csv_from (double_quotes s ++ String dquote rest) in_quoted
      field record records
    = read_csv_from rest after_quote (field ++ s) record records.
Proof.
  induction s as [| c s IH]; intros rest field record records.
  - cbn [double_quotes]. change ("" ++ String dquote rest) with (String dquote rest).
    cbn [read_csv_from]. change (Ascii.eqb dquote dquote) with true.
    cbv iota. now rewrite append_empty.
  - cbn [double_quotes]. destruct (Ascii.eqb c dquote) eqn:E.
    + apply Ascii.eqb_eq in E. subst c.
      rewrite !append_cons. cbn [read_csv_from].
      change (Ascii.eqb dquote dquote) with true. cbv iota.
      rewrite IH. now rewrite push_append.
    + rewrite append_cons. cbn [read_csv_from]. rewrite E.
      rewrite IH. now rewrite push_append.
Qed.

(** An order whose title holds a comma and double quotes reads back. *)
Example export_reads_back :
  read_csv (csvContent [Sample.titled]) =
  Some [headers;
        [title Sample.titled; author Sample.titled; publisher Sample.titled;
         pubDate Sample.titled; "15000"; "13500"; isbn13 Sample.titled;
         "국내도서>시"]].
Proof. vm_compute. reflexivity. Qed.

(** C8, on an order whose book is filed under a category that holds a
    double quote.  The file is produced and begins with the byte-order
    mark, but the category is written between double quotes as it is,
    its own quotes not doubled, and the file is malformed: the category
    does not read back. *)
Theorem export_category_not_escaped :
  let s := setConfirmedBooks (fun _ => [Sample.filed]) initial in
  handleDownloadOrder s = Some (csvContent [Sample.filed]) /\
  String.prefix bom (csvContent [Sample.filed]) = true /\
  nth 7 (row Sample.filed) "" = quoted (default "" (categoryName Sample.filed)) /\
  nth 0 (row Sample.titled) "" = quoted (double_quotes (title Sample.titled)) /\
  read_csv (csvContent [Sample.filed]) = None.
Proof. vm_compute. repeat split. Qed.

(** ** Worked examples *)

(** Every request fails: four requests, two through each proxy, one
    second slept after each, four warnings, and the error of the last
    attempt raised. *)
Example gateway_exhausted :
  let r := fetchWithRetry (rt:=Host.runtime) (J:=Json) Host.never
             "https://example.org/a?b=1" Host.world0 in
  fst r = inl (mkError "Failed to fetch") /\
  requests (snd r) =
    [ "https://api.allorigins.win/raw?url=https%3A%2F%2Fexample.org%2Fa%3Fb%3D1";
      "https://api.allorigins.win/raw?url=https%3A%2F%2Fexample.org%2Fa%3Fb%3D1";
      "https://corsproxy.io/?https%3A%2F%2Fexample.org%2Fa%3Fb%3D1";
      "https://corsproxy.io/?https%3A%2F%2Fexample.org%2Fa%3Fb%3D1" ] /\
  clock (snd r) = clock Host.world0 + 4000 /\
  length (console (snd r)) = 4%nat.
Proof. vm_compute. repeat split. Qed.

(** The first proxy answers 503 twice, the second proxy answers at once:
    three requests, and the body of the third returned. *)
Example gateway_second_proxy :
  let r := fetchWithRetry (rt:=Host.runtime)
             (Host.recovering 2 (Sample.listing [Sample.novel]))
             "https://example.org/" Host.world0 in
  fst r = inr (Sample.listing [Sample.novel]) /\
  length (requests (snd r)) = 3%nat /\
  console (snd r) =
    [ console_warn
        "Attempt 1 failed for proxy https://api.allorigins.win/raw?url=https%3A%2F%2Fexample.org%2F:"
        (mkError "HTTP Error: 503");
      console_warn
        "Attempt 2 failed for proxy https://api.allorigins.win/raw?url=https%3A%2F%2Fexample.org%2F:"
        (mkError "HTTP Error: 503") ].
Proof. vm_compute. repeat split. Qed.

(** A search on 2024-06-15 that lists a book published thirteen months
    before, a book with a date that is no date, a comic and a book
    published three months before: the first and the comic are dropped. *)
Example search_one_year :
  fst (searchBooks (rt:=Host.runtime)
         (Host.always (Sample.listing
            [Sample.old_history; Sample.oddly_dated; Sample.comic; Sample.essay]))
         "역사" "ttbsample0001" Keyword 1 Host.world0)
  = inr [mapAladinItemToBook Sample.oddly_dated; mapAladinItemToBook Sample.essay].
Proof. vm_compute. reflexivity. Qed.

(** The session of [Sample]: what the columns hold after each step. *)
Example session_columns :
  (discoveryBooks Sample.reviewing = [mapAladinItemToBook Sample.essay] /\
   reviewBooks Sample.reviewing = [Sample.in_review] /\
   confirmedBooks Sample.reviewing = []) /\
  (discoveryBooks Sample.approved = [mapAladinItemToBook Sample.essay] /\
   reviewBooks Sample.approved = [] /\
   confirmedBooks Sample.approved = [Sample.in_confirmed]) /\
  (discoveryBooks Sample.reloaded =
     [Sample.a_novel; mapAladinItemToBook Sample.essay] /\
   reviewBooks Sample.reloaded = [] /\
   confirmedBooks Sample.reloaded = []).
Proof. vm_compute. repeat split. Qed.

(* ===================================================================== *)
(** * Further properties *)
(* ===================================================================== *)

(** ** The gateway: what a call costs *)

Section GatewayCost.
Context `{rt : Runtime} {J : Type}.
Variable net : Network J.

(** How many attempts failed, given how the loops were left and how many
    requests were made. *)
Lemma proxy_loop_cost (proxies : list (string -> string)) (targetUrl : string) :
  forall (lastError : option Error) (w : World),
    let r := proxy_loop net proxies targetUrl lastError w in
    exists (failed : nat) (warnings : list ConsoleEntry),
      length (requests (snd r)) =
        (length (requests w) + failed +
         match fst r with Return _ => 1 | Fallthrough _ => 0 end)%nat /\
      clock (snd r) = clock w + 1000 * Z.of_nat failed /\
      console (snd r) = (console w ++ warnings)%list /\
      length warnings = failed /\
      match fst r with
      | Return _ => (failed < 2 * length proxies)%nat
      | Fallthrough _ => failed = (2 * length proxies)%nat
      end.
Proof.
  induction proxies as [| p rest IH]; intros lastError w.
  - exists 0%nat, []. simpl. rewrite app_nil_r. repeat split; lia.
  - cbn [proxy_loop attempts]. rewrite attempt_once_eq.
    destruct (accept (net (length (requests w)) (p targetUrl))) as [e1 | d1].
    2: { exists 0%nat, []. simpl. rewrite app_nil_r, length_app. simpl.
         repeat split; lia. }
    cbn [log sleep snd clock requests console].
    rewrite attempt_once_eq. cbn [requests clock console].
    destruct (accept (net _ (p targetUrl))) as [e2 | d2].
    2: { eexists 1%nat, [_]. simpl. rewrite !length_app. simpl.
         repeat split; lia. }
    cbn [log sleep snd clock requests console].
    match goal with
    | |- context [proxy_loop net rest targetUrl (Some e2) ?w3] =>
        destruct (IH (Some e2) w3) as (failed & warnings & Hreq & Hclock & Hcon & Hlen & Hend)
    end.
    cbn [requests clock console] in Hreq, Hclock, Hcon.
    eexists (2 + failed)%nat, (_ :: _ :: warnings).
    cbv zeta in *. rewrite Hreq, Hclock, Hcon. rewrite !length_app. simpl length.
    repeat split.
    + lia.
    + lia.
    + now rewrite <- !app_assoc.
    + simpl. lia.
    + destruct (fst (proxy_loop net rest targetUrl (Some e2) _)); simpl in *; lia.
Qed.

End GatewayCost.

(** X1.  A call of the gateway sleeps one second and logs one warning for
    every failed attempt and for nothing else: with [failed] the number
    of requests made, less the accepted one if there is one, the clock has
    advanced by [1000 * failed] milliseconds and the console has grown by
    [failed] entries.  A call that returns has failed fewer than two times
    the number of proxies; a call that raises, exactly that many times. *)
Theorem fetchWithRetry_cost `{rt : Runtime} {J : Type} (net : Network J)
    (proxies : list (string -> string)) (targetUrl : string) (w : World) :
  let r := fetchWithRetry_over net proxies targetUrl w in
  let made := (length (requests (snd r)) - length (requests w))%nat in
  let failed := match fst r with inr _ => (made - 1)%nat | inl _ => made end in
  clock (snd r) = clock w + 1000 * Z.of_nat failed /\
  (exists warnings, console (snd r) = (console w ++ warnings)%list /\
                    length warnings = failed) /\
  match fst r with
  | inr _ => (made = failed + 1 /\ failed < 2 * length proxies)%nat
  | inl _ => failed = (2 * length proxies)%nat
  end.
Proof.
  intros r made failed. subst r made failed. unfold fetchWithRetry_over.
  destruct (proxy_loop_cost net proxies targetUrl None w)
    as (failed & warnings & Hreq & Hclock & Hcon & Hlen & Hend).
  cbv zeta in *.
  destruct (proxy_loop net proxies targetUrl None w) as [[data | lastError] w'];
    cbn [fst snd] in *; rewrite Hreq, Hclock.
  - replace (length (requests w) + failed + 1 - length (requests w) - 1)%nat
      with failed by lia.
    split; [reflexivity |]. split; [exists warnings; auto |]. lia.
  - replace (length (requests w) + failed + 0 - length (requests w))%nat
      with failed by lia.
    split; [reflexivity |]. split; [exists warnings; auto |]. exact Hend.
Qed.

(** ** Validating a key *)

(** X2.  [validateTtbKey] never rejects.  Its answer is [true] exactly
    when the key is not empty, the request went through, the body carries
    no error code and its [item] is an array; with an empty key it
    answers [false] without a request. *)
Theorem validateTtbKey_verdict `{rt : Runtime} (net : Network Json)
    (ttbKey : string) (w : World) :
  exists (isValid : bool) (w' : World),
    validateTtbKey net ttbKey w = (inr isValid, w') /\
    (isValid = true <->
     truthy ttbKey = true /\
     exists data,
       fetchWithRetry net (ttbProbeUrl (trim ttbKey) (clock w)) w = (inr data, w') /\
       truthy_num (errorCode data) = false /\ is_Some (item data)) /\
    (truthy ttbKey = false -> w' = w).
Proof.
  unfold validateTtbKey.
  destruct (truthy ttbKey) eqn:Hkey; cbn [negb].
  2: { exists false, w. split; [reflexivity |]. split; [| reflexivity].
       split; [discriminate | intros [H _]; discriminate]. }
  unfold try_catch, bind, Date_now, resolve.
  destruct (fetchWithRetry net (ttbProbeUrl (trim ttbKey) (clock w)) w)
    as [[e | data] w1] eqn:Hfetch.
  - exists false, w1. split; [reflexivity |]. split; [| discriminate].
    split; [discriminate |]. intros [_ (data & Hd & _)]. discriminate.
  - destruct (truthy_num (errorCode data)) eqn:Herr.
    + exists false, w1. split; [reflexivity |]. split; [| discriminate].
      split; [discriminate |]. intros [_ (data' & Hd & He & _)].
      injection Hd as <-. congruence.
    + destruct (item data) as [items |] eqn:Hitem.
      * exists true, w1. split; [reflexivity |]. split; [| discriminate].
        split; [| reflexivity]. intros _. split; [reflexivity |].
        exists data. rewrite Hitem. eauto.
      * exists false, w1. split; [reflexivity |]. split; [| discriminate].
        split; [discriminate |]. intros [_ (data' & Hd & _ & Hi)].
        injection Hd as <-. rewrite Hitem in Hi. now destruct Hi.
Qed.

(** X3.  [validateNlkKey] never rejects.  Its answer is [true] exactly
    when the key is not empty, the request went through, the body's
    [response.error] is falsy and its [response.docs] is truthy; with an
    empty key it answers [false] without a request. *)
Theorem validateNlkKey_verdict `{rt : Runtime} (net : Network NlkProbe)
    (authKey : string) (w : World) :
  exists (isValid : bool) (w' : World),
    validateNlkKey net authKey w = (inr isValid, w') /\
    (isValid = true <->
     truthy authKey = true /\
     exists data,
       fetchWithRetry net (nlkProbeUrl (trim authKey) (clock w)) w = (inr data, w') /\
       error_truthy data = false /\ docs_truthy data = true) /\
    (truthy authKey = false -> w' = w).
Proof.
  unfold validateNlkKey.
  destruct (truthy authKey) eqn:Hkey; cbn [negb].
  2: { exists false, w. split; [reflexivity |]. split; [| reflexivity].
       split; [discriminate | intros [H _]; discriminate]. }
  unfold try_catch, bind, Date_now, resolve.
  destruct (fetchWithRetry net (nlkProbeUrl (trim authKey) (clock w)) w)
    as [[e | data] w1] eqn:Hfetch.
  - exists false, w1. split; [reflexivity |]. split; [| discriminate].
    split; [discriminate |]. intros [_ (data & Hd & _)]. discriminate.
  - destruct (error_truthy data) eqn:Herr.
    + exists false, w1. split; [reflexivity |]. split; [| discriminate].
      split; [discriminate |]. intros [_ (data' & Hd & He & _)].
      injection Hd as <-. congruence.
    + destruct (docs_truthy data) eqn:Hdocs.
      * exists true, w1. split; [reflexivity |]. split; [| discriminate].
        split; [| reflexivity]. intros _. split; [reflexivity |].
        exists data. eauto.
      * exists false, w1. split; [reflexivity |]. split; [| discriminate].
        split; [discriminate |]. intros [_ (data' & Hd & _ & Hi)].
        injection Hd as <-. congruence.
Qed.

(** ** The catalogue client: missing input, provider errors, network errors *)

(** X4.  Without the input it needs, the client sends nothing.  A search
    with an empty query or an empty key resolves to the empty list and
    leaves the world as it is; so does a catalogue source without its key;
    the library source without its key rejects with the key-required
    message, which it logs, and makes no request. *)
Theorem no_credential_no_request `{rt : Runtime} (net : Network Json)
    (page : Z) (w : World) :
  (forall query ttbKey target,
     truthy query = false \/ truthy ttbKey = false ->
     searchBooks net query ttbKey target page w = (inr [], w)) /\
  (forall source ttbKey nlkKey,
     source <> editorRecommend -> truthy_opt ttbKey = false ->
     fetchBooks net source ttbKey nlkKey page w = (inr [], w)) /\
  (forall ttbKey nlkKey,
     truthy_opt nlkKey = false ->
     let e := mkError "국립중앙도서관 API 키가 필요합니다." in
     fetchBooks net editorRecommend ttbKey nlkKey page w
     = (inl e, logged "Fetching books failed" e w) /\
     requests (logged "Fetching books failed" e w) = requests w).
Proof.
  repeat apply conj.
  - intros query ttbKey target H. unfold searchBooks.
    destruct H as [-> | ->]; [reflexivity |].
    now rewrite orb_true_r.
  - intros source ttbKey nlkKey Hsrc Hkey. unfold fetchBooks, try_catch.
    destruct source; try contradiction; rewrite Hkey; reflexivity.
  - intros ttbKey nlkKey Hkey e. unfold fetchBooks, try_catch.
    rewrite Hkey. split; reflexivity.
Qed.

Lemma no_credential_no_request_witness :
  searchBooks (rt:=Host.runtime) Sample.shop "" "ttbsample0001" Keyword 1
    Host.world0 = (inr [], Host.world0) /\
  fetchBooks (rt:=Host.runtime) Sample.shop combined (Some "") None 1
    Host.world0 = (inr [], Host.world0).
Proof.
  destruct (no_credential_no_request (rt:=Host.runtime) Sample.shop 1
              Host.world0) as (Hsearch & Hfetch & _).
  split.
  - apply Hsearch. left. reflexivity.
  - apply Hfetch; [discriminate | reflexivity].
Defined.


(** X5.  A business error of the provider turns into a rejection that
    carries the provider's words.  The search rejects with the error
    message, or with the error code when there is no message.  The
    combined source, once the two listing calls joined by [Promise.all]
    have both returned, tests the bestseller body first: it rejects with
    the bestseller error when that body carries an error code, whatever
    the other body holds, and with the new-special error when only the
    other body carries one.  The library source rejects with the text of
    [response.error].  Each logs its error once. *)
Theorem provider_error_rejects `{rt : Runtime} (net : Network Json)
    (page : Z) (w w1 : World) :
  (forall query ttbKey target data,
     truthy query = true -> truthy ttbKey = true ->
     fetchWithRetry net
       (itemSearchUrl (trim ttbKey) query target page (clock w)) w = (inr data, w1) ->
     truthy_num (errorCode data) = true ->
     let e := mkError ("Aladin Search Error: " ++
                (if truthy_opt (errorMessage data) then template (errorMessage data)
                 else pretty (default 0 (errorCode data)))) in
     searchBooks net query ttbKey target page w
     = (inl e, logged "Search failed" e w1)) /\
  (forall key nlkKey bestsellerData newSpecialData,
     truthy key = true ->
     let commonParams := commonParams_of (trim key) page (clock w) in
     Promise_all net (itemListUrl commonParams "Bestseller")
       (itemListUrl commonParams "ItemNewSpecial") w
     = (inr (bestsellerData, newSpecialData), w1) ->
     (truthy_num (errorCode bestsellerData) = true ->
      let e := mkError ("Aladin Bestseller Error: " ++
                        template (errorMessage bestsellerData)) in
      fetchBooks net combined (Some key) nlkKey page w
      = (inl e, logged "Fetching books failed" e w1)) /\
     (truthy_num (errorCode bestsellerData) = false ->
      truthy_num (errorCode newSpecialData) = true ->
      let e := mkError ("Aladin NewSpecial Error: " ++
                        template (errorMessage newSpecialData)) in
      fetchBooks net combined (Some key) nlkKey page w
      = (inl e, logged "Fetching books failed" e w1))) /\
  (forall ttbKey key data,
     truthy key = true ->
     fetchWithRetry net (recommandListUrl (trim key) page (clock w)) w
     = (inr data, w1) ->
     truthy_opt (response data ≫= Nlk.error) = true ->
     let e := mkError (template (response data ≫= Nlk.error)) in
     fetchBooks net editorRecommend ttbKey (Some key) page w
     = (inl e, logged "Fetching books failed" e w1)).
Proof.
  repeat apply conj.
  - intros query ttbKey target data Hq Hk Hfetch Herr e.
    unfold searchBooks. rewrite Hq, Hk. cbn [negb orb].
    unfold bind, try_catch, Date_now. rewrite Hfetch, Herr. reflexivity.
  - intros key nlkKey bestsellerData newSpecialData Hkey commonParams Hall.
    pose proof (fetchBooks_combined_settled net key nlkKey page w w1
                  bestsellerData newSpecialData Hkey Hall) as Hrun.
    split.
    + intros HeB e. rewrite Hrun, HeB. reflexivity.
    + intros HeB HeN e. rewrite Hrun, HeB, HeN. reflexivity.
  - intros ttbKey key data Hkey Hfetch Herr e.
    unfold fetchBooks, try_catch, bind, Date_now. simpl.
    rewrite Hkey. simpl. rewrite Hfetch, Herr. reflexivity.
Qed.

Lemma provider_error_rejects_witness :
  (let net := Host.always Sample.refusal in
   let url := itemSearchUrl (rt:=Host.runtime)
                (trim (Runtime:=Host.runtime) "ttbsample0001") "시" Keyword 1
                (clock Host.world0) in
   let w1 := snd (fetchWithRetry (rt:=Host.runtime) net url Host.world0) in
   let e := mkError "Aladin Search Error: 잘못된 ttbkey 입니다." in
   searchBooks (rt:=Host.runtime) net "시" "ttbsample0001" Keyword 1 Host.world0
   = (inl e, logged "Search failed" e w1)) /\
  (let commonParams := commonParams_of
                         (trim (Runtime:=Host.runtime) "ttbsample0001") 1
                         (clock Host.world0) in
   let w1 := snd (Promise_all (rt:=Host.runtime) Sample.flaky
                    (itemListUrl commonParams "Bestseller")
                    (itemListUrl commonParams "ItemNewSpecial") Host.world0) in
   let e := mkError "Aladin NewSpecial Error: 잘못된 ttbkey 입니다." in
   fetchBooks (rt:=Host.runtime) Sample.flaky combined (Some "ttbsample0001")
     None 1 Host.world0
   = (inl e, logged "Fetching books failed" e w1) /\
   length (requests w1) = 3%nat).
Proof.
  split.
  - intros net url w1 e.
    apply (proj1 (provider_error_rejects (rt:=Host.runtime) net 1 Host.world0
                    w1) "시" "ttbsample0001" Keyword Sample.refusal).
    + reflexivity.
    + reflexivity.
    + vm_compute. reflexivity.
    + reflexivity.
  - intros commonParams w1 e. split; [| vm_compute; reflexivity].
    apply (proj2 (proj1 (proj2 (provider_error_rejects (rt:=Host.runtime)
                    Sample.flaky 1 Host.world0 w1))
             "ttbsample0001" None (Sample.listing [Sample.novel]) Sample.refusal
             eq_refl ltac:(vm_compute; reflexivity))).
    + reflexivity.
    + reflexivity.
Defined.

Section GatewayErrors.
Context `{rt : Runtime}.
Variable net : Network Json.

Lemma searchBooks_gateway_error (query ttbKey : string) (target : SearchTarget)
    (page : Z) (w w1 : World) (e : Error) :
  truthy query = true -> truthy ttbKey = true ->
  fetchWithRetry net
    (itemSearchUrl (trim ttbKey) query target page (clock w)) w = (inl e, w1) ->
  searchBooks net query ttbKey target page w
  = (inl e, logged "Search failed" e w1).
Proof.
  intros Hq Hk Hfetch.
  unfold searchBooks. rewrite Hq, Hk. cbn [negb orb].
  unfold bind, try_catch, Date_now. rewrite Hfetch. reflexivity.
Qed.

Lemma fetchBooks_gateway_error (source : FetchSource) (queryType key : string)
    (nlkKey : option string) (page : Z) (w w1 : World) (e : Error) :
  (source = bestseller /\ queryType = "Bestseller" \/
   source = itemNewSpecial /\ queryType = "ItemNewSpecial") ->
  truthy key = true ->
  fetchWithRetry net
    (itemListUrl (commonParams_of (trim key) page (clock w)) queryType) w
  = (inl e, w1) ->
  fetchBooks net source (Some key) nlkKey page w
  = (inl e, logged "Fetching books failed" e w1).
Proof.
  intros Hsrc Hkey Hfetch.
  destruct Hsrc as [[-> ->] | [-> ->]];
    unfold fetchBooks, itemList, try_catch, bind, Date_now;
    simpl; rewrite Hkey; simpl; rewrite Hfetch; reflexivity.
Qed.

Lemma fetchBooks_library_gateway_error (ttbKey : option string) (key : string)
    (page : Z) (w w1 : World) (e : Error) :
  truthy key = true ->
  fetchWithRetry net (recommandListUrl (trim key) page (clock w)) w = (inl e, w1) ->
  fetchBooks net editorRecommend ttbKey (Some key) page w
  = (inl e, logged "Fetching books failed" e w1).
Proof.
  intros Hkey Hfetch.
  unfold fetchBooks, try_catch, bind, Date_now. simpl.
  rewrite Hkey. simpl. rewrite Hfetch. reflexivity.
Qed.

End GatewayErrors.

(** X6.  An error of the gateway passes through the client unchanged: the
    search and the sources that make one request reject with the very
    error [fetchWithRetry] raised, after logging it once. *)
Theorem gateway_error_passes_through `{rt : Runtime} (net : Network Json)
    (page : Z) (w w1 : World) (e : Error) :
  (forall query ttbKey target,
     truthy query = true -> truthy ttbKey = true ->
     fetchWithRetry net
       (itemSearchUrl (trim ttbKey) query target page (clock w)) w = (inl e, w1) ->
     searchBooks net query ttbKey target page w
     = (inl e, logged "Search failed" e w1)) /\
  (forall source queryType key nlkKey,
     (source = bestseller /\ queryType = "Bestseller" \/
      source = itemNewSpecial /\ queryType = "ItemNewSpecial") ->
     truthy key = true ->
     fetchWithRetry net
       (itemListUrl (commonParams_of (trim key) page (clock w)) queryType) w
     = (inl e, w1) ->
     fetchBooks net source (Some key) nlkKey page w
     = (inl e, logged "Fetching books failed" e w1)) /\
  (forall ttbKey key,
     truthy key = true ->
     fetchWithRetry net (recommandListUrl (trim key) page (clock w)) w = (inl e, w1) ->
     fetchBooks net editorRecommend ttbKey (Some key) page w
     = (inl e, logged "Fetching books failed" e w1)).
Proof.
  repeat apply conj.
  - intros query ttbKey target. apply searchBooks_gateway_error.
  - intros source queryType key nlkKey. apply fetchBooks_gateway_error.
  - intros ttbKey key. apply fetchBooks_library_gateway_error.
Qed.

Lemma gateway_error_passes_through_witness :
  let url := itemSearchUrl (rt:=Host.runtime)
               (trim (Runtime:=Host.runtime) "ttbsample0001") "시" Keyword 1
               (clock Host.world0) in
  let w1 := snd (fetchWithRetry (rt:=Host.runtime) (J:=Json) Host.never url
                   Host.world0) in
  let e := mkError "Failed to fetch" in
  searchBooks (rt:=Host.runtime) Host.never "시" "ttbsample0001" Keyword 1
    Host.world0
  = (inl e, logged "Search failed" e w1).
Proof.
  intros url w1 e.
  apply (proj1 (gateway_error_passes_through (rt:=Host.runtime) Host.never 1
                  Host.world0 w1 e) "시" "ttbsample0001" Keyword).
  - reflexivity.
  - reflexivity.
  - vm_compute. reflexivity.
Defined.

(** ** Identifiers *)

Lemma pretty_N_go_not_n (x : N) (s s' : string) :
  s <> String "n" s' -> pretty_N_go x s <> String "n" s'.
Proof.
  revert s. induction (N.lt_wf_0 x) as [x _ IH]; intros s Hs.
  assert (x = 0 \/ 0 < x)%N as [-> | Hpos] by lia.
  - now rewrite pretty_N_go_0.
  - rewrite pretty_N_go_step by exact Hpos. apply IH.
    + now apply N.div_lt.
    + unfold pretty_N_char. repeat case_match; discriminate.
Qed.

Lemma pretty_Z_not_n (z : Z) (s : string) : pretty z <> String "n" s.
Proof.
  destruct z as [| p | p]; [discriminate | | discriminate].
  unfold pretty, pretty_Z, pretty, pretty_positive, pretty, pretty_N.
  case_decide; [discriminate |]. now apply pretty_N_go_not_n.
Qed.

(** X7.  A record of the library is priced 0 twice and its id begins
    with [nlk-]; the id of a record of the catalogue, a decimal numeral,
    does not.  So a library book and a catalogue book never share an id,
    and the exclusion of one never hides the other. *)
Theorem library_ids_are_namespaced (wrapper : Nlk.Wrapper) (item : Aladin.Item) :
  let b := mapNlkWrapperToBook wrapper in
  priceStandard b = 0 /\ priceSales b = 0 /\
  String.prefix "nlk-" (id b) = true /\
  String.prefix "nlk-" (id (mapAladinItemToBook item)) = false /\
  id (mapAladinItemToBook item) <> id b.
Proof.
  cbv zeta. split; [reflexivity |]. split; [reflexivity |].
  assert (Hlib : String.prefix "nlk-" (id (mapNlkWrapperToBook wrapper)) = true).
  { unfold mapNlkWrapperToBook. cbn [id]. apply prefix_append. }
  assert (Hcat : String.prefix "nlk-" (id (mapAladinItemToBook item)) = false).
  { unfold mapAladinItemToBook. cbn [id].
    destruct (pretty (Aladin.itemId item)) as [| c s] eqn:E; [reflexivity |].
    destruct (String.prefix "nlk-" (String c s)) eqn:P; [| reflexivity].
    apply prefix_spec in P as [rest P]. exfalso.
    apply (pretty_Z_not_n (Aladin.itemId item) ("lk-" ++ rest)).
    rewrite E, P. reflexivity. }
  split; [exact Hlib |]. split; [exact Hcat |].
  intros Heq. rewrite Heq in Hcat. congruence.
Qed.

Lemma mapped_id_inj (i j : Aladin.Item) :
  id (mapAladinItemToBook i) = id (mapAladinItemToBook j) <->
  Aladin.itemId i = Aladin.itemId j.
Proof.
  unfold mapAladinItemToBook. cbn [id]. split.
  - apply pretty_Z_inj.
  - now intros ->.
Qed.

(** X8.  [String(item.itemId)] tells items apart: two mapped books have
    the same id exactly when their items have the same [itemId], and a
    body whose items have pairwise distinct [itemId]s lists books with
    pairwise distinct ids. *)
Theorem listed_ids_distinct (data : Json) (items : list Aladin.Item) :
  item data = Some items ->
  (forall i j, id (mapAladinItemToBook i) = id (mapAladinItemToBook j) <->
               Aladin.itemId i = Aladin.itemId j) /\
  (NoDup (map Aladin.itemId items) <-> NoDup (ids (listed data))).
Proof.
  intros Hitem. split; [exact mapped_id_inj |].
  unfold listed, ids. rewrite Hitem, map_map.
  change (map (fun x => id (mapAladinItemToBook x)) items)
    with (map (fun x => pretty (Aladin.itemId x)) items).
  rewrite <- (map_map Aladin.itemId pretty).
  symmetry. apply (NoDup_fmap pretty).
Qed.

Lemma listed_ids_distinct_witness :
  let data := Sample.listing [Sample.novel; Sample.essay; Sample.comic] in
  (forall i j, id (mapAladinItemToBook i) = id (mapAladinItemToBook j) <->
               Aladin.itemId i = Aladin.itemId j) /\
  (NoDup (map Aladin.itemId [Sample.novel; Sample.essay; Sample.comic]) <->
   NoDup (ids (listed data))).
Proof.
  apply (listed_ids_distinct
           (Sample.listing [Sample.novel; Sample.essay; Sample.comic])).
  reflexivity.
Defined.

(** ** Merging *)

Lemma Map_set_fresh {V} (k : string) (v : V) (m : list (string * V)) :
  ~ In k (keys m) -> Map_set k v m = (m ++ [(k, v)])%list.
Proof.
  induction m as [| [k' v'] m IH]; simpl; [reflexivity |].
  intros Hnot. destruct (String.eqb k' k) eqn:E.
  - apply String.eqb_eq in E. tauto.
  - f_equal. apply IH. tauto.
Qed.

Lemma Map_fill_fresh {V} (entries : list (string * V)) :
  forall m, NoDup (keys m ++ map fst entries) ->
            Map_fill entries m = (m ++ entries)%list.
Proof.
  induction entries as [| [k v] entries IH]; intros m Hnd; simpl.
  - now rewrite app_nil_r.
  - simpl in Hnd. rewrite Map_set_fresh.
    + rewrite IH.
      * now rewrite <- app_assoc.
      * unfold keys in *. rewrite map_app. simpl. now rewrite <- app_assoc.
    + apply NoDup_app in Hnd as (_ & Hdis & _). intros Hin.
      apply (Hdis k); [now apply list_elem_of_In | left].
Qed.

Lemma NoDup_ids_filter (p : Book -> bool) (l : list Book) :
  NoDup (ids l) -> NoDup (ids (List.filter p l)).
Proof.
  unfold ids. induction l as [| b l IH]; simpl; [trivial |].
  intros Hnd. apply NoDup_cons in Hnd as [Hnot Hnd].
  destruct (p b); simpl; [| now apply IH].
  apply NoDup_cons. split; [| now apply IH].
  intros Hin. apply Hnot. apply list_elem_of_In in Hin.
  apply in_map_iff in Hin as (x & Hx & Hf). apply filter_In in Hf as [Hf _].
  apply list_elem_of_In. rewrite <- Hx. now apply in_map.
Qed.

(** The ids of the merged list are the keys of the map, in its order. *)
Lemma mergeUnique_ids_keys (B N : list Book) :
  ids (mergeUnique B N) =
  keys (Map_fill (map (fun item : Book => (id item, item)) (B ++ N)) []).
Proof.
  unfold mergeUnique, Map_new, Map_values.
  fold (Map_fill (map (fun item : Book => (id item, item)) (B ++ N)) []).
  set (m := Map_fill _ _).
  assert (Hkeyed : keyed id m).
  { apply Map_fill_keyed; [| intros k v []].
    intros k v Hin. apply in_map_iff in Hin as (x & [= <- <-] & _). reflexivity. }
  unfold ids, keys. rewrite map_map. apply map_ext_in.
  intros [k v] Hin. simpl. symmetry. exact (Hkeyed k v Hin).
Qed.

Lemma mergeUnique_ids_NoDup (B N : list Book) : NoDup (ids (mergeUnique B N)).
Proof. rewrite mergeUnique_ids_keys. apply Map_fill_NoDup. constructor. Qed.

(** X9.  Whatever the two lists, the merged list names no id twice, names
    exactly the ids of the two lists, and holds only books of the two
    lists; and when the two lists together name no id twice, merging is
    appending: nothing is dropped and the order is kept. *)
Theorem mergeUnique_dedups (B N : list Book) :
  NoDup (ids (mergeUnique B N)) /\
  (forall k, In k (ids (mergeUnique B N)) <-> In k (ids B) \/ In k (ids N)) /\
  (forall b, In b (mergeUnique B N) -> In b B \/ In b N) /\
  (NoDup (ids (B ++ N)) -> mergeUnique B N = (B ++ N)%list).
Proof.
  repeat apply conj.
  - apply mergeUnique_ids_NoDup.
  - intros k. rewrite mergeUnique_ids_keys, Map_fill_keys_In, mergeUnique_entries.
    unfold ids. rewrite map_app, in_app_iff. simpl. tauto.
  - intros b Hb. apply mergeUnique_In in Hb. now apply in_app_iff.
  - intros Hnd. unfold mergeUnique, Map_new, Map_values.
    fold (Map_fill (map (fun item : Book => (id item, item)) (B ++ N)) []).
    rewrite Map_fill_fresh.
    + simpl. rewrite map_map. simpl. apply map_id.
    + simpl. now rewrite mergeUnique_entries.
Qed.

Lemma mergeUnique_dedups_witness :
  let B := listed (Sample.listing [Sample.novel; Sample.comic]) in
  let N := listed (Sample.listing [Sample.essay]) in
  NoDup (ids (mergeUnique B N)) /\
  (forall k, In k (ids (mergeUnique B N)) <-> In k (ids B) \/ In k (ids N)) /\
  (forall b, In b (mergeUnique B N) -> In b B \/ In b N) /\
  mergeUnique B N = (B ++ N)%list.
Proof.
  intros B N.
  destruct (mergeUnique_dedups B N) as (H1 & H2 & H3 & H4).
  refine (conj H1 (conj H2 (conj H3 (H4 _)))).
  apply (bool_decide_unpack _). vm_compute. exact I.
Defined.

(** X10.  Whatever the network answers, the list the combined source
    returns names no id twice. *)
Theorem combined_result_ids_distinct `{rt : Runtime} (net : Network Json)
    (ttbKey nlkKey : option string) (page : Z) (w w' : World)
    (result : list Book) :
  fetchBooks net combined ttbKey nlkKey page w = (inr result, w') ->
  NoDup (ids result).
Proof.
  intros H.
  apply fetchBooks_combined_result in H
    as [(_ & -> & _) | (a & b & _ & _ & _ & _ & ->)].
  - constructor.
  - apply NoDup_ids_filter, mergeUnique_ids_NoDup.
Qed.

Lemma combined_result_ids_distinct_witness :
  let net := Sample.by_query_type
               (Sample.listing [Sample.novel; Sample.novel_reissue])
               (Sample.listing [Sample.essay; Sample.novel]) in
  NoDup (ids [mapAladinItemToBook Sample.novel; mapAladinItemToBook Sample.essay]).
Proof.
  intros net.
  apply (combined_result_ids_distinct (rt:=Host.runtime) net
           (Some "ttbsample0001") None 1 Host.world0
           (snd (fetchBooks (rt:=Host.runtime) net combined
                   (Some "ttbsample0001") None 1 Host.world0))).
  vm_compute. reflexivity.
Defined.

(** ** The board: the remaining transition, the invariant, round trips *)

Lemma id_set_ext (l1 l2 : list Book) :
  (forall k, In k (ids l1) <-> In k (ids l2)) -> id_set l1 = id_set l2.
Proof.
  intros H. apply set_eq. intros k. rewrite !in_id_set. apply H.
Qed.

Section BoardMore.
Context `{rt : Runtime}.

Lemma reachable_click (s : State) (book : Book) (action : Action) :
  reachable s -> enabled (click book action) s ->
  (In book (discoveryBooks s) /\ status book = Some discovery /\ action = add) \/
  (In book (reviewBooks s) /\ status book = Some review /\
   (action = return' \/ action = approve)) \/
  (In book (confirmedBooks s) /\ status book = Some confirmed /\ action = return').
Proof.
  intros Hreach [Hin Hact]. pose proof (reachable_ok s Hreach) as Hok.
  unfold renderActions, currentStatus in Hact.
  destruct (board_ok_stage s book Hok Hin) as [[Hb Hst] | [[Hb Hst] | [Hb Hst]]];
    rewrite Hst in Hact; simpl in Hact.
  - left. destruct Hact as [<- | []]. auto.
  - right; left. destruct Hact as [<- | [<- | []]]; auto.
  - right; right. destruct Hact as [<- | []]. auto.
Qed.

Lemma review_card_enabled (s : State) (book : Book) (action : Action) :
  reachable s -> In book (reviewBooks s) ->
  action = return' \/ action = approve -> enabled (click book action) s.
Proof.
  intros Hreach Hin Hact. pose proof (reachable_ok s Hreach) as Hok.
  assert (Hst : status book = Some review).
  { destruct Hok as [_ Hr _ _ _ _]. rewrite List.Forall_forall in Hr. now apply Hr. }
  split; [rewrite !in_app_iff; auto |].
  unfold renderActions, currentStatus. rewrite Hst. simpl.
  destruct Hact as [-> | ->]; auto.
Qed.

Lemma discovery_card_enabled (s : State) (book : Book) :
  reachable s -> In book (discoveryBooks s) -> enabled (click book add) s.
Proof.
  intros Hreach Hin. pose proof (reachable_ok s Hreach) as Hok.
  assert (Hst : status book = Some discovery).
  { destruct Hok as [Hd _ _ _ _ _]. rewrite List.Forall_forall in Hd. now apply Hd. }
  split; [rewrite !in_app_iff; auto |].
  unfold renderActions, currentStatus. rewrite Hst. simpl. auto.
Qed.

Lemma confirmed_card_enabled (s : State) (book : Book) :
  reachable s -> In book (confirmedBooks s) -> enabled (click book return') s.
Proof.
  intros Hreach Hin. pose proof (reachable_ok s Hreach) as Hok.
  assert (Hst : status book = Some confirmed).
  { destruct Hok as [_ _ Hc _ _ _]. rewrite List.Forall_forall in Hc. now apply Hc. }
  split; [rewrite !in_app_iff; auto |].
  unfold renderActions, currentStatus. rewrite Hst. simpl. auto.
Qed.

End BoardMore.

(** X11.  In every state the application reaches, the card of a book of
    the discovery column offers one action, ['add'].  Taking it removes
    every entry with the book's id from discovery, puts the same record,
    its status now ['review'], at the head of review, leaves confirmed and
    a cached analysis report as they are, and enters the id into the
    exclusion set, so that what a fetch settling next installs does not
    hold it. *)
Theorem add_discovery_book `{rt : Runtime} (s : State) (book : Book) :
  reachable s -> In book (discoveryBooks s) ->
  let s' := dispatch (click book add) s in
  renderActions book = [add] /\
  discoveryBooks s' =
    List.filter (fun b => negb (String.eqb (id b) (id book))) (discoveryBooks s) /\
  ~ In (id book) (ids (discoveryBooks s')) /\
  reviewBooks s' =
    {| id := id book; title := title book; author := author book;
       publisher := publisher book; pubDate := pubDate book;
       cover := cover book; description := description book;
       isbn13 := isbn13 book; priceStandard := priceStandard book;
       priceSales := priceSales book; link := link book;
       categoryName := categoryName book; status := Some review |}
    :: reviewBooks s /\
  confirmedBooks s' = confirmedBooks s /\
  analysis s' = analysis s /\
  id book ∈ excludedIdsRef s' /\
  (forall r x, In x (discoveryBooks (loadDiscoveryBooks_settle r s')) ->
               id x <> id book).
Proof.
  intros Hreach Hin s'. pose proof (reachable_ok s Hreach) as Hok.
  assert (Hst : status book = Some discovery).
  { destruct Hok as [Hd _ _ _ _ _]. rewrite List.Forall_forall in Hd. now apply Hd. }
  assert (Href : id book ∈ excludedIdsRef s').
  { subst s'. unfold dispatch, excludedIdsEffect. cbn [excludedIdsRef].
    apply elem_of_list_to_set, list_elem_of_In. simpl. now left. }
  split; [unfold renderActions, currentStatus; now rewrite Hst |].
  split; [reflexivity |].
  split; [intros H; apply ids_without in H as [_ H]; now apply H |].
  split; [reflexivity |]. split; [reflexivity |]. split; [reflexivity |].
  split; [exact Href |].
  intros [error | data] x Hx; simpl in Hx; [destruct Hx |].
  apply fresh_In in Hx as [_ Hx]. intros Heq. apply Hx. now rewrite Heq.
Qed.

Lemma add_discovery_book_witness :
  let s' := dispatch (rt:=Host.runtime) (click Sample.an_essay add) Sample.reported in
  (discoveryBooks Sample.reported = [Sample.an_essay] /\
   analysis Sample.reported = Some Sample.report) /\
  renderActions Sample.an_essay = [add] /\
  discoveryBooks s' = [] /\
  reviewBooks s' = [Sample.essay_in_review] /\
  confirmedBooks s' = confirmedBooks Sample.reported /\
  analysis s' = Some Sample.report /\
  id Sample.an_essay ∈ excludedIdsRef s' /\
  (forall r x, In x (discoveryBooks (loadDiscoveryBooks_settle r s')) ->
               id x <> id Sample.an_essay).
Proof.
  intros s'.
  destruct (add_discovery_book (rt:=Host.runtime) Sample.reported Sample.an_essay
              reachable_reported ltac:(vm_compute; auto))
    as (Hact & Hdis & _ & Hrev & Hconf & Han & Href & Hnext).
  split; [split; reflexivity |].
  split; [exact Hact |]. split; [exact Hdis |]. split; [exact Hrev |].
  split; [exact Hconf |]. split; [exact Han |]. split; [exact Href | exact Hnext].
Defined.





(** ** Round trips on the board *)





(** ** The total of the confirmed column *)

Lemma fold_prices_shift (l : list Book) (a : Z) :
  fold_left (fun sum item => sum + priceSales item) l a =
  a + fold_left (fun sum item => sum + priceSales item) l 0.
Proof.
  revert a. induction l as [| b l IH]; intros a; cbn [fold_left]; [lia |].
  rewrite (IH (a + priceSales b)), (IH (0 + priceSales b)). lia.
Qed.

Lemma fold_prices_cons (b : Book) (l : list Book) :
  fold_left (fun sum item => sum + priceSales item) (b :: l) 0 =
  priceSales b + fold_left (fun sum item => sum + priceSales item) l 0.
Proof. cbn [fold_left]. rewrite fold_prices_shift. lia. Qed.

Lemma without_cons (book b : Book) (l : list Book) :
  without book (b :: l) =
  if String.eqb (id b) (id book) then without book l else b :: without book l.
Proof. unfold without. simpl. now destruct (String.eqb (id b) (id book)). Qed.

Lemma total_without (book : Book) (l : list Book) :
  NoDup (ids l) -> In book l ->
  fold_left (fun sum item => sum + priceSales item) (without book l) 0 =
  fold_left (fun sum item => sum + priceSales item) l 0 - priceSales book.
Proof.
  induction l as [| b l IH]; intros Hnd Hin; [destruct Hin |].
  simpl in Hnd. apply NoDup_cons in Hnd as [Hnot Hnd].
  rewrite list_elem_of_In in Hnot.
  rewrite without_cons, fold_prices_cons.
  destruct (String.eqb (id b) (id book)) eqn:E.
  - apply String.eqb_eq in E.
    assert (b = book) as ->.
    { destruct Hin as [-> | Hin]; [reflexivity |].
      exfalso. apply Hnot. rewrite E. now apply in_map. }
    rewrite without_absent by exact Hnot. lia.
  - destruct Hin as [-> | Hin]; [rewrite String.eqb_refl in E; discriminate |].
    rewrite fold_prices_cons, (IH Hnd Hin). lia.
Qed.



(** ** A dead network, seen from the board *)

Lemma proxy_loop_dead `{rt : Runtime} {J : Type} (net : Network J)
    (e : Error) (targetUrl : string) (proxies : list (string -> string)) :
  (forall n url, net n url = inl e) ->
  forall (lastError : option Error) (w : World),
    fst (proxy_loop net proxies targetUrl lastError w) =
    Fallthrough (match proxies with [] => lastError | _ => Some e end).
Proof.
  intros Hdead. induction proxies as [| p rest IH]; intros lastError w.
  - reflexivity.
  - cbn [proxy_loop attempts].
    rewrite attempt_once_eq, Hdead. cbn [accept].
    rewrite attempt_once_eq, Hdead. cbn [accept].
    rewrite IH. now destruct rest.
Qed.

Lemma fetchWithRetry_dead `{rt : Runtime} {J : Type} (net : Network J)
    (e : Error) (targetUrl : string) (w : World) :
  (forall n url, net n url = inl e) ->
  fst (fetchWithRetry net targetUrl w) = inl e.
Proof.
  intros Hdead. unfold fetchWithRetry, fetchWithRetry_over.
  pose proof (proxy_loop_dead net e targetUrl PROXIES Hdead None w) as Hloop.
  destruct (proxy_loop net PROXIES targetUrl None w) as [x w'].
  simpl in Hloop. subst x. reflexivity.
Qed.

Lemma fetchBooks_dead `{rt : Runtime} (net : Network Json) (e : Error)
    (source : FetchSource) (key : string) (nlkKey : option string) (page : Z)
    (w : World) :
  (forall n url, net n url = inl e) ->
  source <> editorRecommend -> truthy key = true ->
  fst (fetchBooks net source (Some key) nlkKey page w) = inl e.
Proof.
  intros Hdead Hsrc Hkey.
  set (commonParams := commonParams_of (trim key) page (clock w)).
  destruct source; try contradiction.
  - assert (Hall : fst (Promise_all net (itemListUrl commonParams "Bestseller")
                          (itemListUrl commonParams "ItemNewSpecial") w) = inl e).
    { unfold Promise_all, PROXIES. now apply Promise_all_failing. }
    destruct (Promise_all net _ _ w) as [r w1] eqn:E. simpl in Hall. subst r.
    unfold fetchBooks, try_catch, bind, Date_now.
    simpl. rewrite Hkey. simpl. fold commonParams. rewrite E. reflexivity.
  - pose proof (fetchWithRetry_dead net e (itemListUrl commonParams "Bestseller")
                  w Hdead) as Hfetch.
    destruct (fetchWithRetry net _ w) as [r w1] eqn:E. simpl in Hfetch. subst r.
    unfold fetchBooks, itemList, try_catch, bind, Date_now.
    simpl. rewrite Hkey. simpl. fold commonParams. rewrite E. reflexivity.
  - pose proof (fetchWithRetry_dead net e (itemListUrl commonParams "ItemNewSpecial")
                  w Hdead) as Hfetch.
    destruct (fetchWithRetry net _ w) as [r w1] eqn:E. simpl in Hfetch. subst r.
    unfold fetchBooks, itemList, try_catch, bind, Date_now.
    simpl. rewrite Hkey. simpl. fold commonParams. rewrite E. reflexivity.
Qed.

Lemma searchBooks_dead `{rt : Runtime} (net : Network Json) (e : Error)
    (query ttbKey : string) (target : SearchTarget) (page : Z) (w : World) :
  (forall n url, net n url = inl e) ->
  truthy query = true -> truthy ttbKey = true ->
  fst (searchBooks net query ttbKey target page w) = inl e.
Proof.
  intros Hdead Hq Hkey.
  pose proof (fetchWithRetry_dead net e
                (itemSearchUrl (trim ttbKey) query target page (clock w))
                w Hdead) as Hfetch.
  destruct (fetchWithRetry net _ w) as [r w1] eqn:E. simpl in Hfetch. subst r.
  now rewrite (searchBooks_gateway_error net query ttbKey target page w w1 e
                 Hq Hkey E).
Qed.

(** X17.  When every request fails in transport with an error [e] and the
    catalogue key is set: a load of a catalogue source that settles empties
    the discovery column, clears the loading flag and shows the load
    message with the text of [e]; a search that settles keeps the
    discovery column as it is, clears both flags and shows the search
    message with the text of [e].  Review and confirmed are untouched. *)
Theorem dead_network_on_board `{rt : Runtime} (net : Network Json) (e : Error)
    (apiKeys : ApiKeys) (page : Z) (w : World) (s : State) :
  (forall n url, net n url = inl e) ->
  truthy (aladinTtb apiKeys) = true ->
  (forall source, source <> editorRecommend ->
     let s' := handle (load_settle apiKeys source page net w) s in
     discoveryBooks s' = [] /\
     fetchError s' =
       Some ("도서 정보를 불러오는데 실패했습니다. (" ++ message e ++ ")") /\
     isLoading s' = false /\
     reviewBooks s' = reviewBooks s /\ confirmedBooks s' = confirmedBooks s) /\
  (forall query target, truthy query = true ->
     let s' := handle (search_settle apiKeys query target page net w) s in
     discoveryBooks s' = discoveryBooks s /\
     fetchError s' = Some ("검색에 실패했습니다. (" ++ message e ++ ")") /\
     isLoading s' = false /\ isSearching s' = false /\
     reviewBooks s' = reviewBooks s /\ confirmedBooks s' = confirmedBooks s).
Proof.
  intros Hdead Hkey. split.
  - intros source Hsrc s'. subst s'. cbn [handle].
    rewrite (fetchBooks_dead net e source (aladinTtb apiKeys) (nlkApiKey apiKeys)
               page w Hdead Hsrc Hkey).
    repeat split.
  - intros query target Hq s'. subst s'. cbn [handle].
    rewrite (searchBooks_dead net e query (aladinTtb apiKeys) target page w
               Hdead Hq Hkey).
    repeat split.
Qed.

Lemma dead_network_on_board_witness :
  let e := mkError "Failed to fetch" in
  (forall source, source <> editorRecommend ->
     let s' := handle (rt:=Host.runtime)
                 (load_settle Sample.keys source 1 Host.never Host.world0)
                 Sample.reviewing in
     discoveryBooks s' = [] /\
     fetchError s' =
       Some ("도서 정보를 불러오는데 실패했습니다. (" ++ message e ++ ")") /\
     isLoading s' = false /\
     reviewBooks s' = reviewBooks Sample.reviewing /\
     confirmedBooks s' = confirmedBooks Sample.reviewing) /\
  (forall query target, truthy query = true ->
     let s' := handle (rt:=Host.runtime)
                 (search_settle Sample.keys query target 1 Host.never Host.world0)
                 Sample.reviewing in
     discoveryBooks s' = discoveryBooks Sample.reviewing /\
     fetchError s' = Some ("검색에 실패했습니다. (" ++ message e ++ ")") /\
     isLoading s' = false /\ isSearching s' = false /\
     reviewBooks s' = reviewBooks Sample.reviewing /\
     confirmedBooks s' = confirmedBooks Sample.reviewing).
Proof.
  apply (dead_network_on_board (rt:=Host.runtime) Host.never
           (mkError "Failed to fetch") Sample.keys 1 Host.world0 Sample.reviewing).
  - reflexivity.
  - reflexivity.
Defined.

(** ** The analysis service *)

(** X18.  Called with a key and a list that is not empty, the analysis
    service calls the endpoint exactly once, for the model
    [gemini-2.5-flash] and with the prompt of the list.  It returns the
    parsed report when the call succeeds, the text is not empty and
    parses; in every other case it raises one and the same error, and the
    cause is only logged. *)
Theorem analyze_calls_once
    (API_KEY : option string) (endpoint : nat -> string -> Error + option string)
    (JSON_parse : string -> Error + GeminiAnalysis)
    (substring_0_50 : string -> string) (books : list Book) (w : World) :
  truthy_opt API_KEY = true -> books <> [] ->
  let r := analyzeAcquisitionList API_KEY endpoint JSON_parse substring_0_50
             books w in
  let answer := endpoint (length (requests w)) (prompt_of substring_0_50 books) in
  requests (snd r) = (requests w ++ ["gemini-2.5-flash"])%list /\
  clock (snd r) = clock w /\
  match answer with
  | inr (Some text) =>
      match (if truthy text then JSON_parse text else inl (mkError "")) with
      | inr report => truthy text = true /\ fst r = inr report /\
                      console (snd r) = console w
      | inl _ =>
          fst r = inl (mkError "AI 분석에 실패했습니다. 잠시 후 다시 시도해주세요.") /\
          length (console (snd r)) = S (length (console w))
      end
  | _ =>
      fst r = inl (mkError "AI 분석에 실패했습니다. 잠시 후 다시 시도해주세요.") /\
      length (console (snd r)) = S (length (console w))
  end.
Proof.
  intros Hkey Hbooks r answer. subst r answer.
  unfold analyzeAcquisitionList. rewrite Hkey. cbn [negb].
  destruct books as [| b books]; [contradiction |]. cbn [length Nat.eqb].
  unfold try_catch, bind, generateContent, throw, log.
  destruct (endpoint (length (requests w))
              (prompt_of substring_0_50 (b :: books))) as [e | [text |]];
    cbn [fst snd requests clock console].
  - repeat split. rewrite length_app. simpl. lia.
  - destruct (truthy text) eqn:Ht; cbn [negb].
    + destruct (JSON_parse text) as [e | report]; cbn [fst snd requests clock console].
      * repeat split. rewrite length_app. simpl. lia.
      * repeat split.
    + cbn [fst snd requests clock console]. repeat split.
      rewrite length_app. simpl. lia.
  - repeat split. rewrite length_app. simpl. lia.
Qed.

Lemma analyze_calls_once_witness :
  let report := {| summary := "요약"; budgetAnalysis := "적정";
                   categoryBreakdown := "소설 1"; recommendationScore := 80 |} in
  let endpoint := fun (_ : nat) (_ : string) =>
                    inr (Some "{}") : Error + option string in
  let parse := fun _ : string => inr report : Error + GeminiAnalysis in
  let r := analyzeAcquisitionList (Some "key") endpoint parse (fun s => s)
             [Sample.in_confirmed] Host.world0 in
  requests (snd r) = (requests Host.world0 ++ ["gemini-2.5-flash"])%list /\
  clock (snd r) = clock Host.world0 /\
  truthy "{}" = true /\ fst r = inr report /\
  console (snd r) = console Host.world0.
Proof.
  intros report endpoint parse r.
  exact (analyze_calls_once (Some "key") endpoint parse (fun s => s)
           [Sample.in_confirmed] Host.world0 eq_refl ltac:(discriminate)).
Defined.

(** ** The analysis button *)

Ltac analyze_case :=
  split; [repeat split; reflexivity |];
  split; [discriminate |]; intros _;
  split; [reflexivity |];
  split; [unfold log; cbn [fst snd requests]; rewrite ?length_app; simpl; lia |];
  split;
  [ first [ left; eexists; repeat split; reflexivity
          | right; split; reflexivity ]
  | first [ intros H; discriminate H | auto ] ].

(** X19.  A click on the analysis button never touches the three
    columns.  With nothing confirmed it does nothing at all.  Otherwise it
    ends with [isAnalyzing] off and makes at most one request; either the
    service returned a report, which is then shown, and nothing is
    alerted, or the state is as before and the one generic message is
    alerted.  Without a configured key it is the latter, with no request
    made. *)
Theorem handleAnalyze_outcome
    (API_KEY : option string) (endpoint : nat -> string -> Error + option string)
    (JSON_parse : string -> Error + GeminiAnalysis)
    (substring_0_50 : string -> string)
    (s : State) (ui : AnalysisUi) (w : World) :
  let r := handleAnalyze API_KEY endpoint JSON_parse substring_0_50 s ui w in
  let s' := fst (fst r) in
  let ui' := snd (fst r) in
  let w' := snd r in
  let failure := "AI 분석에 실패했습니다. 잠시 후 다시 시도해주세요." in
  (discoveryBooks s' = discoveryBooks s /\ reviewBooks s' = reviewBooks s /\
   confirmedBooks s' = confirmedBooks s) /\
  (confirmedBooks s = [] -> r = ((s, ui), w)) /\
  (confirmedBooks s <> [] ->
   isAnalyzing ui' = false /\
   (length (requests w') <= S (length (requests w)))%nat /\
   ((exists result,
       fst (analyzeAcquisitionList API_KEY endpoint JSON_parse substring_0_50
              (confirmedBooks s) w) = inr result /\
       analysis s' = Some result /\ alerts ui' = alerts ui) \/
    (s' = s /\ alerts ui' = (alerts ui ++ [failure])%list)) /\
   (truthy_opt API_KEY = false ->
    s' = s /\ alerts ui' = (alerts ui ++ [failure])%list /\
    requests w' = requests w)).
Proof.
  intros r s' ui' w' failure. subst r s' ui' w' failure.
  unfold handleAnalyze, handleAnalyze_begin.
  destruct (confirmedBooks s) as [| b books] eqn:Hconf; cbn [length Nat.eqb].
  { cbn [fst snd]. split; [auto |]. split; [reflexivity |].
    intros Hne. now contradiction Hne. }
  unfold analyzeAcquisitionList.
  destruct (truthy_opt API_KEY) eqn:Hkey; cbn [negb length Nat.eqb].
  2: { unfold throw, handleAnalyze_settle.
       cbn [fst snd alerts isAnalyzing log requests]. rewrite Hconf.
       analyze_case. }
  unfold try_catch, bind, generateContent, throw, log, handleAnalyze_settle.
  destruct (endpoint (length (requests w))
              (prompt_of substring_0_50 (b :: books))) as [e | [text |]];
    cbn [fst snd requests clock console alerts isAnalyzing].
  - rewrite Hconf. analyze_case.
  - destruct (truthy text); cbn [negb fst snd requests clock console].
    + destruct (JSON_parse text) as [e' | report];
        cbn [fst snd requests clock console alerts isAnalyzing setAnalysis
             discoveryBooks reviewBooks confirmedBooks analysis];
        rewrite Hconf; analyze_case.
    + rewrite Hconf. analyze_case.
  - rewrite Hconf. analyze_case.
Qed.

Lemma handleAnalyze_outcome_witness :
  let endpoint := fun (_ : nat) (_ : string) =>
                    inr (Some "{}") : Error + option string in
  let parse := fun _ : string => inr canned_report : Error + GeminiAnalysis in
  let r := handleAnalyze None endpoint parse (fun s => s) Sample.approved
             {| isAnalyzing := false; alerts := [] |} Host.world0 in
  fst (fst r) = Sample.approved /\
  alerts (snd (fst r)) = ["AI 분석에 실패했습니다. 잠시 후 다시 시도해주세요."] /\
  requests (snd r) = requests Host.world0.
Proof.
  intros endpoint parse r.
  refine (proj2 (proj2 (proj2 (proj2 (proj2 (handleAnalyze_outcome None endpoint
            parse (fun s => s) Sample.approved
            {| isAnalyzing := false; alerts := [] |} Host.world0)) _))) _).
  - vm_compute. discriminate.
  - reflexivity.
Defined.

(** ** The category line of a card *)

Lemma split_gt_plain (s : string) : forall segment,
  occurs ">" s = false -> split_gt s segment = [segment ++ s].
Proof.
  induction s as [| c s IH]; intros segment H.
  - cbn [split_gt]. now rewrite append_empty.
  - cbn [occurs] in H. apply orb_false_iff in H as [Hc Hs].
    cbn [split_gt]. rewrite Hc. rewrite IH by exact Hs.
    fold (push segment c). now rewrite push_append.
Qed.

Lemma split_gt_not_nil (s : string) : forall segment, split_gt s segment <> [].
Proof.
  induction s as [| c s IH]; intros segment; cbn [split_gt]; [discriminate |].
  destruct (Ascii.eqb c ">"); [discriminate | apply IH].
Qed.

Lemma last_cons_not_nil {A} (x d : A) (l : list A) :
  l <> [] -> List.last (x :: l) d = List.last l d.
Proof. destruct l; [congruence | reflexivity]. Qed.

Lemma split_gt_leaf (path leaf : string) : forall segment,
  List.last (split_gt (path ++ String ">" leaf) segment) "" =
  List.last (split_gt leaf "") "".
Proof.
  induction path as [| c path IH]; intros segment.
  - change ("" ++ String ">"%char leaf) with (String ">"%char leaf).
    cbn [split_gt]. change (Ascii.eqb ">" ">") with true. cbv iota.
    apply last_cons_not_nil, split_gt_not_nil.
  - rewrite append_cons. cbn [split_gt].
    destruct (Ascii.eqb c ">").
    + rewrite last_cons_not_nil by apply split_gt_not_nil. apply IH.
    + apply IH.
Qed.

Lemma occurs_app (c : ascii) (a b : string) :
  occurs c (a ++ b) = occurs c a || occurs c b.
Proof.
  induction a as [| c' a IH]; [reflexivity |].
  rewrite append_cons. cbn [occurs]. rewrite IH. now rewrite orb_assoc.
Qed.

Lemma split_gt_last_plain (s : string) : forall segment,
  occurs ">" segment = false ->
  occurs ">" (List.last (split_gt s segment) "") = false.
Proof.
  induction s as [| c s IH]; intros segment H.
  - exact H.
  - cbn [split_gt]. destruct (Ascii.eqb c ">") eqn:Hc.
    + rewrite last_cons_not_nil by apply split_gt_not_nil. now apply IH.
    + apply IH. rewrite occurs_app, H. cbn [occurs]. rewrite Hc. reflexivity.
Qed.

(** X20.  The category line of a card is never empty and never holds the
    separator [>].  It is the part of the category after the last
    separator: the whole category when it holds none, the leaf of a path
    when the leaf is not empty, and the fallback word when there is no
    category, or nothing after the last separator. *)
Theorem categoryLabel_leaf (book : Book) :
  categoryLabel book <> "" /\
  occurs ">" (categoryLabel book) = false /\
  (forall path leaf,
     categoryName book = Some (path ++ String ">" leaf) ->
     occurs ">" leaf = false ->
     categoryLabel book = if truthy leaf then leaf else "기타") /\
  (forall c,
     categoryName book = Some c -> occurs ">" c = false ->
     categoryLabel book = if truthy c then c else "기타") /\
  (categoryName book = None -> categoryLabel book = "기타").
Proof.
  unfold categoryLabel. repeat apply conj.
  - destruct (categoryName book) as [c |]; [| discriminate].
    destruct (truthy (List.last (split_gt c "") "")) eqn:E; [| discriminate].
    intros H. rewrite H in E. discriminate.
  - destruct (categoryName book) as [c |]; [| reflexivity].
    destruct (truthy (List.last (split_gt c "") "")); [| reflexivity].
    now apply split_gt_last_plain.
  - intros path leaf -> Hleaf. cbv zeta.
    rewrite split_gt_leaf, split_gt_plain by exact Hleaf.
    reflexivity.
  - intros c -> Hc. cbv zeta. rewrite split_gt_plain by exact Hc. reflexivity.
  - intros ->. reflexivity.
Qed.

Lemma categoryLabel_leaf_witness :
  categoryLabel Sample.titled = "시".
Proof.
  exact (proj1 (proj2 (proj2 (categoryLabel_leaf Sample.titled)))
           "국내도서" "시" eq_refl eq_refl).
Defined.

(** ** The header *)

Lemma same_source_refl (a : FetchSource) : Header.same_source a a = true.
Proof. now destruct a. Qed.

Lemma same_source_eq (a b : FetchSource) : Header.same_source a b = true <-> a = b.
Proof. destruct a, b; simpl; split; congruence. Qed.

Lemma same_loader_refl (k : ApiKeys) : Header.same_loader k k = true.
Proof.
  unfold Header.same_loader. rewrite String.eqb_refl.
  destruct (nlkApiKey k); [apply String.eqb_refl | reflexivity].
Qed.

Lemma with_board_same (sh : Header.Shell) :
  Header.with_board (Header.board sh) sh = sh.
Proof. now destruct sh. Qed.

(** The effect body changes the board only, keeps its page, and starts a
    load when no query is typed and the key of the source is set. *)
Lemma loadEffect_body_spec `{rt : Runtime} (sh : Header.Shell) :
  exists b,
    Header.loadEffect_body sh =
    (Header.with_board b sh,
     if truthy (Header.searchQuery sh) then []
     else if key_set (Header.apiKeys sh) (Header.activeSource sh)
          then [Header.launch_load (Header.apiKeys sh) (Header.activeSource sh)
                  (page (Header.board sh))]
          else []) /\
    page b = page (Header.board sh) /\
    (truthy (Header.searchQuery sh) = true -> b = Header.board sh).
Proof.
  unfold Header.loadEffect_body, loadDiscoveryBooks_begin, key_set.
  destruct (truthy (Header.searchQuery sh)); cbn [negb].
  { exists (Header.board sh). now rewrite with_board_same. }
  destruct (Header.activeSource sh);
    [ destruct (truthy (aladinTtb (Header.apiKeys sh)))
    | destruct (truthy (aladinTtb (Header.apiKeys sh)))
    | destruct (truthy (aladinTtb (Header.apiKeys sh)))
    | destruct (truthy_opt (nlkApiKey (Header.apiKeys sh))) ];
    cbn [negb]; eexists; (split; [reflexivity |]);
    (split; [reflexivity | discriminate]).
Qed.

(** [handleSearch] up to its [await] changes the board only, and starts a
    search when the trimmed query and the catalogue key are not empty. *)
Lemma handleSearch_start_spec `{rt : Runtime} (targetPage : Z) (sh : Header.Shell) :
  let started := truthy (trim (Header.searchQuery sh)) &&
                 truthy (aladinTtb (Header.apiKeys sh)) in
  exists b,
    Header.handleSearch_start targetPage sh =
    (Header.with_board b sh,
     if started
     then [Header.launch_search (Header.apiKeys sh) (Header.searchQuery sh)
             (Header.searchTarget sh) targetPage]
     else []) /\
    page b = (if started && (targetPage =? 1) then 1 else page (Header.board sh)).
Proof.
  unfold Header.handleSearch_start, handleSearch_begin.
  destruct (truthy (trim (Header.searchQuery sh)));
    destruct (truthy (aladinTtb (Header.apiKeys sh))); cbn [negb orb andb];
    try (exists (Header.board sh); split; reflexivity).
  destruct (targetPage =? 1); eexists; split; reflexivity.
Qed.

(** The effect runs when the page has changed. *)
Lemma loadEffect_page_changed `{rt : Runtime} (before after : Header.Shell) :
  page (Header.board before) <> page (Header.board after) ->
  Header.loadEffect before after = Header.loadEffect_body after.
Proof.
  intros H. unfold Header.loadEffect.
  apply Z.eqb_neq in H. rewrite H. now rewrite andb_false_r.
Qed.

(** X21.  A click on the refresh button advances the page by one and
    starts at most one request, always for the new page.  With a query
    typed and a catalogue source active it is a search, started when the
    trimmed query and the catalogue key are not empty; with a query typed
    and the library source active nothing is started at all; without a
    query it is a load of the active source, started when the key of that
    source is set. *)
Theorem refresh_starts_one_request `{rt : Runtime} (sh : Header.Shell) :
  let r := Header.header_step Header.refresh_clicked sh in
  let next := page (Header.board sh) + 1 in
  let keys := Header.apiKeys sh in
  let search := Header.launch_search keys (Header.searchQuery sh)
                  (Header.searchTarget sh) next in
  let load := Header.launch_load keys (Header.activeSource sh) next in
  page (Header.board (fst r)) = next /\
  Header.activeSource (fst r) = Header.activeSource sh /\
  Header.searchQuery (fst r) = Header.searchQuery sh /\
  (truthy (Header.searchQuery sh) = true ->
   Header.activeSource sh <> editorRecommend ->
   snd r = if truthy (trim (Header.searchQuery sh)) && truthy (aladinTtb keys)
           then [search] else []) /\
  (truthy (Header.searchQuery sh) = true ->
   Header.activeSource sh = editorRecommend -> snd r = []) /\
  (truthy (Header.searchQuery sh) = false ->
   snd r = if key_set keys (Header.activeSource sh) then [load] else []).
Proof.
  intros r next keys search load. subst r next keys search load.
  unfold Header.header_step, Header.header_handler, Header.handleRefresh.
  cbv zeta.
  set (sh1 := Header.with_board
                (setPage (page (Header.board sh) + 1) (Header.board sh)) sh).
  assert (Hhandler : exists b1 direct,
    (if truthy (Header.searchQuery sh) &&
        negb match Header.activeSource sh with
             | editorRecommend => true
             | _ => false
             end
     then Header.handleSearch_start (page (Header.board sh) + 1) sh1
     else (sh1, [])) = (Header.with_board b1 sh, direct) /\
    page b1 = page (Header.board sh) + 1 /\
    direct =
      (if truthy (Header.searchQuery sh) &&
          negb match Header.activeSource sh with
               | editorRecommend => true
               | _ => false
               end
       then if truthy (trim (Header.searchQuery sh)) &&
               truthy (aladinTtb (Header.apiKeys sh))
            then [Header.launch_search (Header.apiKeys sh) (Header.searchQuery sh)
                    (Header.searchTarget sh) (page (Header.board sh) + 1)]
            else []
       else [])).
  { destruct (truthy (Header.searchQuery sh) && _).
    - destruct (handleSearch_start_spec (page (Header.board sh) + 1) sh1)
        as (b & Hstart & Hpage).
      exists b. eexists. split; [rewrite Hstart; reflexivity |].
      split; [| reflexivity]. rewrite Hpage.
      now destruct (_ && (page (Header.board sh) + 1 =? 1)) eqn:E;
        [apply andb_true_iff in E as [_ E]; apply Z.eqb_eq in E |].
    - eexists. exists []. split; [reflexivity |]. split; reflexivity. }
  destruct Hhandler as (b1 & direct & -> & Hpage1 & Hdirect).
  rewrite loadEffect_page_changed
    by (cbn [Header.with_board Header.board]; lia).
  destruct (loadEffect_body_spec (Header.with_board b1 sh))
    as (b2 & -> & Hpage2 & Hkeep).
  cbn [fst snd Header.with_board Header.board Header.searchQuery
       Header.activeSource Header.apiKeys excludedIdsEffect page] in *.
  split; [congruence |]. split; [reflexivity |]. split; [reflexivity |].
  subst direct. rewrite Hpage1.
  split; [| split].
  - intros Hq Hsrc. rewrite Hq. cbn [andb].
    destruct (Header.activeSource sh); try contradiction; cbn [negb];
      now rewrite app_nil_r.
  - intros Hq ->. rewrite Hq. reflexivity.
  - intros Hq. rewrite Hq. reflexivity.
Qed.

Lemma refresh_starts_one_request_witness :
  let sh := Header.handleSourceChange editorRecommend
              (fst (Header.header_handler (rt:=Host.runtime)
                      (Header.query_typed "시")
                      (Header.startup (Some Sample.keys)))) in
  snd (Header.header_step (rt:=Host.runtime) Header.refresh_clicked
         (fst (Header.header_handler (rt:=Host.runtime)
                 (Header.query_typed "시") sh))) = [].
Proof.
  intros sh.
  refine (proj1 (proj2 (proj2 (proj2 (proj2
            (refresh_starts_one_request (rt:=Host.runtime) _))))) _ _);
    reflexivity.
Defined.

(** X22.  A click on a source tab clears the query, selects the source
    and resets the page; it opens the key dialog when the library source
    is chosen without its key.  A load of the source at page one is
    started when its key is set, but only if the source or the page has
    changed: on the tab already active at page one nothing is reloaded,
    the cleared query notwithstanding. *)
Theorem source_change_reloads `{rt : Runtime} (source : FetchSource)
    (sh : Header.Shell) :
  let r := Header.header_step (Header.source_clicked source) sh in
  let keys := Header.apiKeys sh in
  Header.searchQuery (fst r) = "" /\
  Header.activeSource (fst r) = source /\
  page (Header.board (fst r)) = 1 /\
  Header.apiKeys (fst r) = keys /\
  (Header.isKeyModalOpen (fst r) = true <->
   Header.isKeyModalOpen sh = true \/
   (source = editorRecommend /\ truthy_opt (nlkApiKey keys) = false)) /\
  (Header.activeSource sh = source -> page (Header.board sh) = 1 ->
   snd r = []) /\
  (Header.activeSource sh <> source \/ page (Header.board sh) <> 1 ->
   snd r = if key_set keys source
           then [Header.launch_load keys source 1] else []).
Proof.
  intros r keys. subst r keys.
  unfold Header.header_step, Header.header_handler.
  assert (Hmodal : Header.isKeyModalOpen (Header.handleSourceChange source sh) = true <->
    Header.isKeyModalOpen sh = true \/
    (source = editorRecommend /\ truthy_opt (nlkApiKey (Header.apiKeys sh)) = false)).
  { cbn [Header.handleSourceChange Header.isKeyModalOpen].
    destruct source; try (split; [auto | intros [H | [H _]]; [exact H | discriminate]]).
    destruct (truthy_opt (nlkApiKey (Header.apiKeys sh))); cbn [negb].
    - split; [auto | intros [H | [_ H]]; [exact H | discriminate]].
    - split; auto. }
  destruct (Header.same_source (Header.activeSource sh) source &&
            (page (Header.board sh) =? 1)) eqn:Hdeps.
  - apply andb_true_iff in Hdeps as [Hsrc Hpage].
    apply same_source_eq in Hsrc. apply Z.eqb_eq in Hpage.
    unfold Header.loadEffect.
    cbn [Header.handleSourceChange Header.activeSource Header.apiKeys
         Header.board setPage page].
    rewrite Hsrc, same_source_refl, same_loader_refl, Hpage, Z.eqb_refl.
    cbn [andb].
    cbn [fst snd app Header.with_board Header.searchQuery Header.activeSource
         Header.board Header.apiKeys Header.isKeyModalOpen excludedIdsEffect
         page setPage Header.handleSourceChange] in *.
    split; [reflexivity |]. split; [reflexivity |]. split; [reflexivity |].
    split; [reflexivity |]. split; [exact Hmodal |]. split; [reflexivity |].
    intros [H | H]; now contradiction H.
  - assert (Hrun : Header.loadEffect sh (Header.handleSourceChange source sh) =
                   Header.loadEffect_body (Header.handleSourceChange source sh)).
    { unfold Header.loadEffect.
      cbn [Header.handleSourceChange Header.activeSource Header.apiKeys
           Header.board setPage page].
      rewrite same_loader_refl, andb_true_r. now rewrite Hdeps. }
    rewrite Hrun.
    destruct (loadEffect_body_spec (Header.handleSourceChange source sh))
      as (b2 & -> & Hpage2 & _).
    cbn [fst snd app Header.with_board Header.searchQuery Header.activeSource
         Header.board Header.apiKeys Header.isKeyModalOpen excludedIdsEffect
         page Header.handleSourceChange setPage truthy] in *.
    split; [reflexivity |]. split; [reflexivity |]. split; [exact Hpage2 |].
    split; [reflexivity |]. split; [exact Hmodal |]. split.
    + intros Hsrc Hpage. rewrite Hsrc, same_source_refl, Hpage in Hdeps.
      discriminate.
    + intros _. reflexivity.
Qed.

Lemma source_change_reloads_witness :
  snd (Header.header_step (rt:=Host.runtime) (Header.source_clicked bestseller)
         (Header.startup (Some Sample.keys)))
  = [Header.launch_load Sample.keys bestseller 1].
Proof.
  refine (proj2 (proj2 (proj2 (proj2 (proj2 (proj2
            (source_change_reloads (rt:=Host.runtime) bestseller
               (Header.startup (Some Sample.keys)))))))) _).
  left. discriminate.
Defined.

(** X23.  Saving the keys puts them in the cell and in the storage, from
    where the next start of the application reads them back, and resets
    the page.  Nothing is loaded while a query is typed.  Without a
    query, the active source is loaded at page one with the new keys when
    its key is set, but only if one of the two key strings or the page
    has changed: saving the same keys at page one reloads nothing. *)
Theorem save_keys_reloads `{rt : Runtime} (keys : ApiKeys) (sh : Header.Shell) :
  let r := Header.header_step (Header.keys_saved keys) sh in
  Header.apiKeys (fst r) = keys /\
  Header.localStorage (fst r) = Some keys /\
  Header.apiKeys (Header.startup (Header.localStorage (fst r))) = keys /\
  page (Header.board (fst r)) = 1 /\
  Header.activeSource (fst r) = Header.activeSource sh /\
  Header.searchQuery (fst r) = Header.searchQuery sh /\
  (truthy (Header.searchQuery sh) = true ->
   snd r = [] /\
   discoveryBooks (Header.board (fst r)) = discoveryBooks (Header.board sh)) /\
  (Header.same_loader (Header.apiKeys sh) keys = true ->
   page (Header.board sh) = 1 -> snd r = []) /\
  (truthy (Header.searchQuery sh) = false ->
   Header.same_loader (Header.apiKeys sh) keys = false \/
   page (Header.board sh) <> 1 ->
   snd r = if key_set keys (Header.activeSource sh)
           then [Header.launch_load keys (Header.activeSource sh) 1] else []).
Proof.
  intros r. subst r.
  unfold Header.header_step, Header.header_handler.
  destruct (Header.same_loader (Header.apiKeys sh) keys &&
            (page (Header.board sh) =? 1)) eqn:Hdeps.
  - apply andb_true_iff in Hdeps as [Hkeys Hpage]. apply Z.eqb_eq in Hpage.
    unfold Header.loadEffect.
    cbn [Header.handleSaveKeys Header.activeSource Header.apiKeys
         Header.board setPage page].
    rewrite same_source_refl, Hkeys, Hpage, Z.eqb_refl. cbn [andb].
    cbn [fst snd app Header.with_board Header.searchQuery Header.activeSource
         Header.board Header.apiKeys Header.localStorage excludedIdsEffect
         page Header.handleSaveKeys Header.startup setPage discoveryBooks].
    split; [reflexivity |]. split; [reflexivity |]. split; [reflexivity |].
    split; [reflexivity |]. split; [reflexivity |]. split; [reflexivity |].
    split; [split; reflexivity |]. split; [reflexivity |].
    intros _ [H | H]; [discriminate | now contradiction H].
  - assert (Hrun : Header.loadEffect sh (Header.handleSaveKeys keys sh) =
                   Header.loadEffect_body (Header.handleSaveKeys keys sh)).
    { unfold Header.loadEffect.
      cbn [Header.handleSaveKeys Header.activeSource Header.apiKeys
           Header.board setPage page].
      rewrite same_source_refl. cbn [andb]. now rewrite Hdeps. }
    rewrite Hrun.
    destruct (loadEffect_body_spec (Header.handleSaveKeys keys sh))
      as (b2 & -> & Hpage2 & Hkeep).
    cbn [fst snd app Header.with_board Header.searchQuery Header.activeSource
         Header.board Header.apiKeys Header.localStorage excludedIdsEffect
         page Header.handleSaveKeys Header.startup setPage discoveryBooks] in *.
    split; [reflexivity |]. split; [reflexivity |]. split; [reflexivity |].
    split; [exact Hpage2 |]. split; [reflexivity |]. split; [reflexivity |].
    split; [| split].
    + intros Hq. rewrite Hq. split; [reflexivity |].
      rewrite (Hkeep Hq). reflexivity.
    + intros Hkeys Hpage. rewrite Hkeys, Hpage in Hdeps. discriminate.
    + intros Hq _. rewrite Hq. reflexivity.
Qed.

Lemma save_keys_reloads_witness :
  snd (Header.header_step (rt:=Host.runtime) (Header.keys_saved Sample.keys)
         (Header.startup None))
  = [Header.launch_load Sample.keys combined 1].
Proof.
  refine (proj2 (proj2 (proj2 (proj2 (proj2 (proj2 (proj2 (proj2
            (save_keys_reloads (rt:=Host.runtime) Sample.keys
               (Header.startup None))))))))) _ _).
  - reflexivity.
  - left. reflexivity.
Defined.

(** ** The key dialog *)

(** X24.  The two validation buttons of the key dialog.  With an empty
    key a click does nothing and sends nothing.  Otherwise the click ends
    with the validating flag off and the status of its provider set to
    success or error, never left idle: success exactly when the gateway
    returned a body that the provider's test accepts.  The keys typed and
    the status of the other provider are left as they were. *)
Theorem validate_buttons_verdict `{rt : Runtime} (netA : Network Json)
    (netN : Network NlkProbe) (m : ApiKeyModal.State) (w : World) :
  let a := ApiKeyModal.handleValidateAladin netA m w in
  let n := ApiKeyModal.handleValidateNlk netN m w in
  let ttbKey := aladinTtb (ApiKeyModal.keys m) in
  let authKey := default "" (nlkApiKey (ApiKeyModal.keys m)) in
  (truthy ttbKey = false -> a = (m, w)) /\
  (truthy ttbKey = true ->
   ApiKeyModal.validatingAladin (fst a) = false /\
   ApiKeyModal.aladinStatus (fst a) <> ApiKeyModal.idle /\
   (ApiKeyModal.aladinStatus (fst a) = ApiKeyModal.success <->
    exists data w',
      fetchWithRetry netA (ttbProbeUrl (trim ttbKey) (clock w)) w = (inr data, w') /\
      truthy_num (errorCode data) = false /\ is_Some (item data)) /\
   ApiKeyModal.keys (fst a) = ApiKeyModal.keys m /\
   ApiKeyModal.nlkStatus (fst a) = ApiKeyModal.nlkStatus m /\
   ApiKeyModal.validatingNlk (fst a) = ApiKeyModal.validatingNlk m) /\
  (truthy_opt (nlkApiKey (ApiKeyModal.keys m)) = false -> n = (m, w)) /\
  (truthy_opt (nlkApiKey (ApiKeyModal.keys m)) = true ->
   ApiKeyModal.validatingNlk (fst n) = false /\
   ApiKeyModal.nlkStatus (fst n) <> ApiKeyModal.idle /\
   (ApiKeyModal.nlkStatus (fst n) = ApiKeyModal.success <->
    exists data w',
      fetchWithRetry netN (nlkProbeUrl (trim authKey) (clock w)) w = (inr data, w') /\
      error_truthy data = false /\ docs_truthy data = true) /\
   ApiKeyModal.keys (fst n) = ApiKeyModal.keys m /\
   ApiKeyModal.aladinStatus (fst n) = ApiKeyModal.aladinStatus m /\
   ApiKeyModal.validatingAladin (fst n) = ApiKeyModal.validatingAladin m).
Proof.
  intros a n ttbKey authKey. subst a n ttbKey authKey.
  unfold ApiKeyModal.handleValidateAladin, ApiKeyModal.handleValidateNlk.
  split; [intros ->; reflexivity |]. split.
  - intros Hkey. rewrite Hkey. cbn [negb].
    unfold validateTtbKey. rewrite Hkey. cbn [negb].
    unfold try_catch, bind, Date_now, resolve.
    destruct (fetchWithRetry netA _ w) as [[e | data] w1] eqn:Hfetch;
      cbn [fst snd ApiKeyModal.validatingAladin ApiKeyModal.aladinStatus
           ApiKeyModal.keys ApiKeyModal.nlkStatus ApiKeyModal.validatingNlk].
    + repeat split; try discriminate.
      intros (data & w' & Hd & _). discriminate.
    + destruct (truthy_num (errorCode data)) eqn:Herr; cbn [fst snd].
      * repeat split; try discriminate.
        intros (data' & w' & Hd & He & _). injection Hd as <- <-. congruence.
      * destruct (item data) as [items |] eqn:Hitem; cbn [fst snd].
        -- repeat split; try discriminate.
           intros _. exists data, w1. rewrite Hitem. eauto.
        -- repeat split; try discriminate.
           intros (data' & w' & Hd & _ & Hi). injection Hd as <- <-.
           rewrite Hitem in Hi. now destruct Hi.
  - split; [intros ->; reflexivity |].
    intros Hkey. rewrite Hkey. cbn [negb].
    destruct (nlkApiKey (ApiKeyModal.keys m)) as [key |]; [| discriminate].
    change (default "" (Some key)) with key. cbn [truthy_opt] in Hkey.
    unfold validateNlkKey. rewrite Hkey. cbn [negb].
    unfold try_catch, bind, Date_now, resolve.
    destruct (fetchWithRetry netN _ w) as [[e | data] w1] eqn:Hfetch;
      cbn [fst snd ApiKeyModal.validatingAladin ApiKeyModal.aladinStatus
           ApiKeyModal.keys ApiKeyModal.nlkStatus ApiKeyModal.validatingNlk].
    + repeat split; try discriminate.
      intros (data & w' & Hd & _). discriminate.
    + destruct (error_truthy data) eqn:Herr; cbn [fst snd].
      * repeat split; try discriminate.
        intros (data' & w' & Hd & He & _). injection Hd as <- <-. congruence.
      * destruct (docs_truthy data) eqn:Hdocs; cbn [fst snd].
        -- repeat split; try discriminate.
           intros _. exists data, w1. eauto.
        -- repeat split; try discriminate.
           intros (data' & w' & Hd & _ & Hi). injection Hd as <- <-.
           congruence.
Qed.

Lemma validate_buttons_verdict_witness :
  let m := {| ApiKeyModal.keys := Sample.keys;
              ApiKeyModal.validatingAladin := false;
              ApiKeyModal.aladinStatus := ApiKeyModal.idle;
              ApiKeyModal.validatingNlk := false;
              ApiKeyModal.nlkStatus := ApiKeyModal.idle;
              ApiKeyModal.isSaving := false |} in
  ApiKeyModal.aladinStatus
    (fst (ApiKeyModal.handleValidateAladin (rt:=Host.runtime) Sample.shop m
            Host.world0)) <> ApiKeyModal.idle.
Proof.
  intros m.
  refine (proj1 (proj2 (proj1 (proj2
            (validate_buttons_verdict (rt:=Host.runtime) Sample.shop
               (Host.always {| error_truthy := false; docs_truthy := true |})
               m Host.world0)) _))).
  reflexivity.
Defined.

(** ** The order export, in general *)

Lemma string_app_assoc (a b c : string) : (a ++ b) ++ c = a ++ (b ++ c).
Proof.
  induction a as [| x a IH]; [reflexivity |].
  rewrite !append_cons. now rewrite IH.
Qed.

Lemma substring_whole (s : string) : substring 0 (String.length s) s = s.
Proof. induction s as [| c s IH]; [reflexivity |]. simpl. now rewrite IH. Qed.

Lemma skip_bom_bom (s : string) : skip_bom (bom ++ s) = s.
Proof.
  unfold skip_bom. rewrite prefix_append.
  change (bom ++ s)
    with (String "239"%char (String "187"%char (String "191"%char s))).
  cbn [String.length Nat.sub substring]. rewrite Nat.sub_0_r.
  apply substring_whole.
Qed.

Lemma double_quotes_plain (s : string) :
  occurs dquote s = false -> double_quotes s = s.
Proof.
  induction s as [| c s IH]; [reflexivity |].
  cbn [occurs double_quotes]. intros H.
  apply orb_false_iff in H as [Hc Hs]. rewrite Hc. now rewrite IH.
Qed.

(** A field between double quotes, its own quotes doubled, is read up to
    its closing quote. *)
Lemma read_quoted (s rest : string) (record : list string)
    (records : list (list string)) :
  read_csv_from (quoted (double_quotes s) ++ rest) field_start "" record records
  = read_csv_from rest after_quote s record records.
Proof.
  unfold quoted. rewrite string_app_assoc, !append_cons.
  change ("" ++ rest) with rest.
  cbn [read_csv_from]. change (Ascii.eqb dquote dquote) with true. cbv iota.
  now rewrite escaped_field_reads_back.
Qed.

Lemma read_quoted_plain (s rest : string) (record : list string)
    (records : list (list string)) :
  occurs dquote s = false ->
  read_csv_from (quoted s ++ rest) field_start "" record records
  = read_csv_from rest after_quote s record records.
Proof.
  intros H. rewrite <- (double_quotes_plain s H) at 1. apply read_quoted.
Qed.

Lemma read_bare (s rest field : string) (record : list string)
    (records : list (list string)) :
  is_numeral s ->
  read_csv_from (s ++ String "," rest) in_bare field record records
  = read_csv_from rest field_start "" (record ++ [(field ++ s)%string])%list records.
Proof.
  revert field. induction s as [| c s IH]; intros field (Hq & Hc & Hn).
  - change ("" ++ String ","%char rest) with (String ","%char rest).
    cbn [read_csv_from]. rewrite append_empty. reflexivity.
  - cbn [occurs] in Hq, Hc, Hn.
    apply orb_false_iff in Hq as [Hq Hq'].
    apply orb_false_iff in Hc as [Hc Hc'].
    apply orb_false_iff in Hn as [Hn Hn'].
    rewrite append_cons. cbn [read_csv_from]. rewrite Hq, Hc, Hn.
    rewrite IH by (repeat split; assumption).
    now rewrite push_append.
Qed.

Lemma read_number (s rest : string) (record : list string)
    (records : list (list string)) :
  is_numeral s ->
  read_csv_from (s ++ String "," rest) field_start "" record records
  = read_csv_from rest field_start "" (record ++ [s])%list records.
Proof.
  intros H. destruct s as [| c s].
  - reflexivity.
  - destruct H as (Hq & Hc & Hn). cbn [occurs] in Hq, Hc, Hn.
    apply orb_false_iff in Hq as [Hq Hq'].
    apply orb_false_iff in Hc as [Hc Hc'].
    apply orb_false_iff in Hn as [Hn Hn'].
    rewrite append_cons. cbn [read_csv_from]. rewrite Hq, Hc, Hn.
    rewrite read_bare by (repeat split; assumption).
    unfold push. reflexivity.
Qed.

Lemma pretty_N_char_numeral (x : N) (s : string) :
  is_numeral s -> is_numeral (String (pretty_N_char x) s).
Proof.
  intros (Hq & Hc & Hn). unfold is_numeral. cbn [occurs]. rewrite Hq, Hc, Hn.
  unfold pretty_N_char. repeat case_match; repeat split; reflexivity.
Qed.

Lemma pretty_N_go_numeral (x : N) : forall s,
  is_numeral s -> is_numeral (pretty_N_go x s).
Proof.
  induction (N.lt_wf_0 x) as [x _ IH]. intros s Hs.
  destruct (decide (x = 0)%N) as [-> | Hx].
  - now rewrite pretty_N_go_0.
  - rewrite pretty_N_go_step by lia.
    apply IH; [apply N.div_lt; lia | now apply pretty_N_char_numeral].
Qed.

Lemma pretty_Z_numeral (z : Z) : is_numeral (pretty z).
Proof.
  assert (Hpos : forall p : positive, is_numeral (pretty p)).
  { intros p. unfold pretty, pretty_positive, pretty, pretty_N.
    destruct (decide (N.pos p = 0)%N); [repeat split; reflexivity |].
    apply pretty_N_go_numeral. repeat split; reflexivity. }
  destruct z as [| p | p].
  - repeat split; reflexivity.
  - apply Hpos.
  - destruct (Hpos p) as (Hq & Hc & Hn).
    unfold pretty, pretty_Z. unfold is_numeral.
    change ("-" +:+ pretty p) with (String "-"%char (pretty p)).
    cbn [occurs]. rewrite Hq, Hc, Hn. repeat split; reflexivity.
Qed.

(** The header line. *)
Lemma read_headers (rest : string) (records : list (list string)) :
  read_csv_from (join "," headers ++ String "010" rest) field_start "" [] records
  = read_csv_from rest field_start "" [] (records ++ [headers])%list.
Proof. reflexivity. Qed.

(** The line of a book, read up to the closing quote of its last field. *)
Lemma read_row (book : Book) (rest : string) (records : list (list string)) :
  quote_free book ->
  read_csv_from (join "," (row book) ++ rest) field_start "" [] records
  = read_csv_from rest after_quote
      (default "" (or_else (categoryName book) (Some "")))
      [ title book; author book; publisher book; pubDate book;
        pretty (priceStandard book); pretty (priceSales book); isbn13 book ]
      records.
Proof.
  intros (Hdate & Hisbn & Hcat).
  unfold row, join. cbn [String.concat].
  rewrite !string_app_assoc.
  change ("," ++ ?x) with (String ","%char x).
  rewrite read_quoted.
  repeat match goal with
  | |- context C [ "," ++ ?x ] =>
      let g := context C [ String ","%char x ] in change g
  end.
  cbn [read_csv_from]. change (Ascii.eqb ","%char dquote) with false.
  change (Ascii.eqb ","%char ","%char) with true. cbv iota.
  rewrite read_quoted.
  cbn [read_csv_from]. change (Ascii.eqb ","%char dquote) with false.
  change (Ascii.eqb ","%char ","%char) with true. cbv iota.
  rewrite read_quoted.
  cbn [read_csv_from]. change (Ascii.eqb ","%char dquote) with false.
  change (Ascii.eqb ","%char ","%char) with true. cbv iota.
  rewrite read_quoted_plain by exact Hdate.
  cbn [read_csv_from]. change (Ascii.eqb ","%char dquote) with false.
  change (Ascii.eqb ","%char ","%char) with true. cbv iota.
  rewrite read_number by apply pretty_Z_numeral.
  rewrite read_number by apply pretty_Z_numeral.
  rewrite read_quoted_plain by exact Hisbn.
  cbn [read_csv_from]. change (Ascii.eqb ","%char dquote) with false.
  change (Ascii.eqb ","%char ","%char) with true. cbv iota.
  rewrite read_quoted_plain by exact Hcat.
  reflexivity.
Qed.

Lemma join_cons (sep x : string) (l : list string) :
  l <> [] -> join sep (x :: l) = x ++ sep ++ join sep l.
Proof. destruct l; [congruence | reflexivity]. Qed.

(** The line of a book and the line feed after it. *)
Lemma read_line (book : Book) (rest : string) (records : list (list string)) :
  quote_free book ->
  read_csv_from (join "," (row book) ++ GeminiService.newline ++ rest)
    field_start "" [] records
  = read_csv_from rest field_start "" [] (records ++ [cells book])%list.
Proof.
  intros Hfree. rewrite read_row by exact Hfree.
  change (GeminiService.newline ++ rest) with (String "010"%char rest).
  reflexivity.
Qed.

(** The last line, which no line feed follows. *)
Lemma read_last_line (book : Book) (records : list (list string)) :
  quote_free book ->
  read_csv_from (join "," (row book)) field_start "" [] records
  = Some (records ++ [cells book])%list.
Proof.
  intros Hfree. rewrite <- (append_empty (join "," (row book))).
  rewrite read_row by exact Hfree. reflexivity.
Qed.

(** The lines of the books, one after the other. *)
Lemma read_rows (books : list Book) :
  forall book records,
    Forall quote_free (book :: books) ->
    read_csv_from (join GeminiService.newline
                     (map (fun row => join "," row) (map row (book :: books))))
      field_start "" [] records
    = Some (records ++ map cells (book :: books))%list.
Proof.
  induction books as [| next books IH]; intros book records Hfree.
  - apply Forall_inv in Hfree.
    change (join GeminiService.newline
              (map (fun row => join "," row) (map row [book])))
      with (join "," (row book)).
    now apply read_last_line.
  - pose proof (Forall_inv Hfree) as Hbook. apply Forall_inv_tail in Hfree.
    change (map (fun row => join "," row) (map row (book :: next :: books)))
      with (join "," (row book) ::
            map (fun row => join "," row) (map row (next :: books))).
    rewrite join_cons by discriminate.
    rewrite read_line by exact Hbook.
    rewrite IH by exact Hfree.
    rewrite <- app_assoc. reflexivity.
Qed.

(** X25.  When the confirmed column is not empty and no book in it holds
    a double quote in its publication date, its ISBN or its category, the
    order export is produced and is a well-formed file: a reader of
    comma-separated values finds the header line and then, for every
    confirmed book in order, the eight fields as they are in the book,
    whatever the title, the author and the publisher hold. *)
Theorem export_reads_back_in_general (s : State) :
  confirmedBooks s <> [] ->
  Forall quote_free (confirmedBooks s) ->
  exists file,
    handleDownloadOrder s = Some file /\
    read_csv file = Some (headers :: map cells (confirmedBooks s)).
Proof.
  intros Hne Hfree. unfold handleDownloadOrder.
  destruct (confirmedBooks s) as [| book books]; [now contradiction Hne |].
  cbn [length Nat.eqb]. eexists. split; [reflexivity |].
  unfold read_csv, csvContent. rewrite skip_bom_bom.
  cbv zeta. rewrite join_cons by discriminate.
  change (GeminiService.newline ++ ?x) with (String "010"%char x).
  rewrite read_headers.
  now rewrite read_rows by exact Hfree.
Qed.

Lemma export_reads_back_in_general_witness :
  exists file,
    handleDownloadOrder (setConfirmedBooks (fun _ => [Sample.titled; Sample.in_confirmed])
                           initial) = Some file /\
    read_csv file =
    Some (headers :: map cells [Sample.titled; Sample.in_confirmed]).
Proof.
  apply (export_reads_back_in_general
           (setConfirmedBooks (fun _ => [Sample.titled; Sample.in_confirmed]) initial)).
  - discriminate.
  - repeat constructor.
Defined.

(** ** The handlers, as events of the board *)

(** In a state the application reaches the exclusion set is up to date,
    so that the effect that recomputes it changes nothing. *)
Lemma excludedIdsEffect_reached `{rt : Runtime} (s : State) :
  reachable s -> excludedIdsEffect s = s.
Proof.
  intros Hreach. pose proof (ok_ref s (reachable_ok s Hreach)) as Href.
  destruct s. unfold excludedIdsEffect. cbn in *. now rewrite Href.
Qed.

Section Coverage.
Context `{rt : Runtime}.

Lemma reachable_page (s : State) (p : Z) :
  reachable s -> (p = 1 \/ p = page s + 1) ->
  reachable (excludedIdsEffect (setPage p s)).
Proof.
  intros Hreach [-> | ->].
  - exact (reachable_dispatch s page_reset Hreach I).
  - exact (reachable_dispatch s refresh Hreach I).
Qed.

Lemma reachable_load_begin (s : State) (apiKeys : ApiKeys) (source : FetchSource) :
  reachable s ->
  reachable (excludedIdsEffect (fst (loadDiscoveryBooks_begin apiKeys source s))).
Proof. intros Hreach. exact (reachable_dispatch s (load_begin apiKeys source) Hreach I). Qed.

Lemma reachable_search_begin (s : State) (apiKeys : ApiKeys) (searchQuery : string)
    (targetPage : Z) :
  reachable s ->
  reachable (excludedIdsEffect
               (fst (handleSearch_begin apiKeys searchQuery targetPage s))).
Proof.
  intros Hreach.
  exact (reachable_dispatch s (search_begin apiKeys searchQuery targetPage) Hreach I).
Qed.

(** The part of a handler that runs before the effects does not read the
    exclusion set. *)
Lemma load_begin_effect (s : State) (apiKeys : ApiKeys) (source : FetchSource) :
  excludedIdsEffect (fst (loadDiscoveryBooks_begin apiKeys source (excludedIdsEffect s)))
  = excludedIdsEffect (fst (loadDiscoveryBooks_begin apiKeys source s)).
Proof.
  unfold loadDiscoveryBooks_begin.
  destruct source;
    [ destruct (negb (truthy (aladinTtb apiKeys)))
    | destruct (negb (truthy (aladinTtb apiKeys)))
    | destruct (negb (truthy (aladinTtb apiKeys)))
    | destruct (negb (truthy_opt (nlkApiKey apiKeys))) ]; reflexivity.
Qed.

Lemma search_begin_effect (s : State) (apiKeys : ApiKeys) (searchQuery : string)
    (targetPage : Z) :
  excludedIdsEffect
    (fst (handleSearch_begin apiKeys searchQuery targetPage (excludedIdsEffect s)))
  = excludedIdsEffect (fst (handleSearch_begin apiKeys searchQuery targetPage s)).
Proof.
  unfold handleSearch_begin.
  destruct (negb (truthy (trim searchQuery)) || negb (truthy (aladinTtb apiKeys)));
    [reflexivity |].
  destruct (targetPage =? 1); reflexivity.
Qed.

(** The load effect, run on a shell whose board the application reaches
    once its exclusion set is recomputed. *)
Lemma loadEffect_reachable (before after : Header.Shell) :
  reachable (excludedIdsEffect (Header.board after)) ->
  reachable (excludedIdsEffect
               (Header.board (fst (Header.loadEffect before after)))).
Proof.
  intros Hreach. unfold Header.loadEffect, Header.loadEffect_body.
  destruct (_ && _ && _); [exact Hreach |].
  destruct (negb (truthy (Header.searchQuery after))); [| exact Hreach].
  destruct (loadDiscoveryBooks_begin (Header.apiKeys after)
              (Header.activeSource after) (Header.board after)) as [b started] eqn:E.
  cbn [fst Header.with_board Header.board].
  replace b with (fst (loadDiscoveryBooks_begin (Header.apiKeys after)
                         (Header.activeSource after) (Header.board after)))
    by now rewrite E.
  rewrite <- load_begin_effect. now apply reachable_load_begin.
Qed.

Lemma handleSearch_start_reachable (targetPage : Z) (sh : Header.Shell) :
  reachable (excludedIdsEffect (Header.board sh)) ->
  reachable (excludedIdsEffect
               (Header.board (fst (Header.handleSearch_start targetPage sh)))).
Proof.
  intros Hreach. unfold Header.handleSearch_start.
  destruct (handleSearch_begin (Header.apiKeys sh) (Header.searchQuery sh)
              targetPage (Header.board sh)) as [b started] eqn:E.
  cbn [fst Header.with_board Header.board].
  replace b with (fst (handleSearch_begin (Header.apiKeys sh)
                         (Header.searchQuery sh) targetPage (Header.board sh)))
    by now rewrite E.
  rewrite <- search_begin_effect. now apply reachable_search_begin.
Qed.

(** Whatever the user does at the header, the board goes through events
    of the board: every state the header leaves is a state the
    application reaches. *)
Lemma header_step_reachable (ev : Header.HeaderEvent) (sh : Header.Shell) :
  reachable (Header.board sh) ->
  reachable (Header.board (fst (Header.header_step ev sh))).
Proof.
  intros Hreach. unfold Header.header_step.
  assert (Hhandler : reachable (excludedIdsEffect
                        (Header.board (fst (Header.header_handler ev sh))))).
  { destruct ev; cbn [Header.header_handler fst Header.board
                      Header.handleSourceChange Header.handleSaveKeys].
    - apply reachable_page; auto.
    - unfold Header.handleRefresh.
      assert (Hpage : reachable (excludedIdsEffect
                         (setPage (page (Header.board sh) + 1) (Header.board sh))))
        by (apply reachable_page; auto).
      destruct (_ && _); [| exact Hpage].
      apply handleSearch_start_reachable. exact Hpage.
    - apply reachable_page; auto.
    - now rewrite excludedIdsEffect_reached.
    - now rewrite excludedIdsEffect_reached.
    - apply handleSearch_start_reachable. now rewrite excludedIdsEffect_reached. }
  destruct (Header.header_handler ev sh) as [sh1 direct]. cbn [fst] in Hhandler.
  pose proof (loadEffect_reachable sh sh1 Hhandler) as Hload.
  destruct (Header.loadEffect sh sh1) as [sh2 loads]. exact Hload.
Qed.

(** So does [handleAnalyze], run from its start to its end. *)
Lemma handleAnalyze_reachable (API_KEY : option string)
    (endpoint : nat -> string -> Error + option string)
    (JSON_parse : string -> Error + GeminiAnalysis)
    (substring_0_50 : string -> string)
    (s : State) (ui : AnalysisUi) (w : World) :
  reachable s ->
  reachable (fst (fst (handleAnalyze API_KEY endpoint JSON_parse substring_0_50
                         s ui w))).
Proof.
  intros Hreach. unfold handleAnalyze, handleAnalyze_begin.
  destruct (length (confirmedBooks s) =? 0)%nat; [exact Hreach |].
  destruct (analyzeAcquisitionList _ _ _ _ _ w) as [[error | result] w1];
    cbn [handleAnalyze_settle fst]; [exact Hreach |].
  pose proof (reachable_dispatch s (analyze_settle result) Hreach I) as H.
  unfold dispatch in H. cbn [handle] in H.
  replace (setAnalysis (Some result) s)
    with (excludedIdsEffect (setAnalysis (Some result) s)); [exact H |].
  pose proof (ok_ref s (reachable_ok s Hreach)) as Href.
  destruct s. unfold excludedIdsEffect, setAnalysis. cbn in *. now rewrite Href.
Qed.

End Coverage.

(** ** Worked examples of the join *)

(** Every request fails, on the host whose event loop serves the two
    calls in turn: eight requests, the bestseller and the new-special
    listing alternating through the first proxy and then through the
    second, and the error of the bestseller call raised. *)
Example combined_exhausted :
  let r := fetchBooks (rt:=Host.runtime) Host.never combined
             (Some "ttbsample0001") None 1 Host.world0 in
  fst r = inl (mkError "Failed to fetch") /\
  map (fun url => (includes url "allorigins", includes url "ItemNewSpecial"))
      (requests (snd r))
  = [ (true, false); (true, true); (true, false); (true, true);
      (false, false); (false, true); (false, false); (false, true) ] /\
  clock (snd r) = clock Host.world0 + 4000.
Proof. vm_compute. repeat split. Qed.

(** The first request fails, the second is answered with the refusal,
    the third with a listing: the bestseller call is the one that tries
    again, and the error raised is the one of the new-special body. *)
Example combined_retry_order :
  let r := fetchBooks (rt:=Host.runtime) Sample.flaky combined
             (Some "ttbsample0001") None 1 Host.world0 in
  fst r = inl (mkError "Aladin NewSpecial Error: 잘못된 ttbkey 입니다.") /\
  map (fun url => includes url "ItemNewSpecial") (requests (snd r))
  = [false; true; false].
Proof. vm_compute. repeat split. Qed.
